(** * Smart Music Recommender: candidate aggregation and content-based ranking

    A shallow embedding of [app.py] and [utils.py].  The two files hold two
    implementations of the same pipeline: the dashboard code in [app.py]
    (module [App]) and the refactored engine classes in [utils.py] (module
    [Utils]).  Both are embedded, since they differ in places.

    Conventions of the embedding.
    - Python floats are idealised as real numbers ([R]); rounding is not
      modelled, except in [format_duration], whose float division is modelled
      bit for bit.  Integers are [Z], counts and limits are [nat].
    - A Python dict used as a map is a [gmap]; a dict used as a struct is a
      record.  A [KeyError] is an exception ([exc]).
    - A pandas DataFrame is the list of its rows.  A cell that is NaN, or a
      column the frame does not have, is [None].
    - The catalog client [sp] is a record of oracles; every request is
      appended to a call log threaded through the [Catalog] monad.
    - scikit-learn's [StandardScaler] and [cosine_similarity] and pandas'
      [nlargest], [drop_duplicates] are library code; they are embedded
      from their documented behaviour in modules [Sklearn] and [Pandas]. *)

From Stdlib Require Import Reals Lra Lia ZArith List Ascii String.
From Stdlib Require Import Sorting.Permutation Sorting.Sorted.
From stdpp Require Import gmap strings list fin_maps pretty.

(** ** scikit-learn: StandardScaler and cosine_similarity *)

Module Sklearn.
Local Open Scope R_scope.

Abbreviation matrix := (list (list R)).

Definition Rsum (l : list R) : R := fold_right Rplus 0 l.

(** [X[:, j]] *)
Definition column (j : nat) (X : matrix) : list R :=
  map (fun row => nth j row 0) X.

Definition n_features (X : matrix) : nat :=
  match X with [] => 0%nat | row :: _ => length row end.

Definition columns (X : matrix) : list (list R) :=
  map (fun j => column j X) (seq 0 (n_features X)).

(** [np.mean(c)] and the population variance [np.var(c)] (ddof = 0). *)
Definition col_mean (c : list R) : R := Rsum c / INR (length c).

Definition col_var (c : list R) : R :=
  Rsum (map (fun x => (x - col_mean c) * (x - col_mean c)) c) / INR (length c).

(** [_handle_zeros_in_scale]: a scale (or norm) of zero is replaced by one. *)
Definition handle_zeros_in_scale (s : R) : R :=
  if Req_dec_T s 0 then 1 else s.

(** The fitted attributes of a [StandardScaler]. *)
Record StandardScaler := {
  mean_ : list R;
  var_ : list R;
  scale_ : list R
}.

(** [scaler.fit(X)] *)
Definition fit (X : matrix) : StandardScaler :=
  {| mean_ := map col_mean (columns X);
     var_ := map col_var (columns X);
     scale_ := map (fun c => handle_zeros_in_scale (sqrt (col_var c))) (columns X) |}.

Definition transform_row (sc : StandardScaler) (row : list R) : list R :=
  zip_with (fun x ms => (x - ms.1) / ms.2) row (zip (mean_ sc) (scale_ sc)).

(** [scaler.transform(X)] *)
Definition transform (sc : StandardScaler) (X : matrix) : matrix :=
  map (transform_row sc) X.

(** [scaler.fit_transform(X)] *)
Definition fit_transform (X : matrix) : StandardScaler * matrix :=
  let sc := fit X in (sc, transform sc X).

Definition dot (a b : list R) : R := Rsum (zip_with Rmult a b).

Definition row_norm (a : list R) : R := sqrt (dot a a).

(** [sklearn.preprocessing.normalize]: each row divided by its L2 norm,
    a zero norm being handled like a zero scale. *)
Definition normalize (a : list R) : list R :=
  map (fun x => x / handle_zeros_in_scale (row_norm a)) a.

(** [cosine_similarity(X, Y)]: the matrix of dot products of the
    normalized rows. *)
Definition cosine_similarity (X Y : matrix) : matrix :=
  map (fun x => map (fun y => dot (normalize x) (normalize y)) Y) X.

End Sklearn.

(** ** pandas: the DataFrame operations the pipeline uses *)

Module Pandas.

Section Frames.
Context {A K : Type}.
Variable key : A -> K.
(** strict "smaller than" on the sort column *)
Variable ltb : K -> K -> bool.

(** [x] is put in front of the first row that is not strictly larger:
    among equal keys the earlier row stays first. *)
Fixpoint insert_desc (x : A) (l : list A) : list A :=
  match l with
  | [] => [x]
  | y :: t => if ltb (key x) (key y) then y :: insert_desc x t else x :: y :: t
  end.

(** [df.sort_values(col, ascending=False, kind='stable')] *)
Definition sort_desc (l : list A) : list A := fold_right insert_desc [] l.

(** [df.nlargest(n, col)] with the default [keep='first']: the first [n]
    rows of the descending order, ties in their original order. *)
Definition nlargest (n : nat) (l : list A) : list A := firstn n (sort_desc l).
End Frames.

Section Dedup.
Context {A : Type}.
Variable key : A -> string.

Fixpoint drop_duplicates_from (seen : gset string) (l : list A) : list A :=
  match l with
  | [] => []
  | x :: t =>
      if decide (key x ∈ seen) then drop_duplicates_from seen t
      else x :: drop_duplicates_from ({[key x]} ∪ seen) t
  end.

(** [df.drop_duplicates(subset=[col])] with the default [keep='first'] *)
Definition drop_duplicates (l : list A) : list A := drop_duplicates_from ∅ l.
End Dedup.

End Pandas.

(** ** Data model *)

(** [exc A]: the outcome of Python code that may raise; [inl msg] is a raised
    exception whose [str(e)] is [msg]. *)
Definition exc (A : Type) : Type := (string + A)%type.

(** A raw catalog track as the client returns it.  [None] in a field is a
    key the JSON object does not have; reading it raises [KeyError]. *)
Record raw_artist := {
  artist_name : option string;
  artist_id : option string
}.

Record raw_image := { image_url_field : option string }.

Record raw_album := {
  album_name : option string;
  album_images : option (list raw_image);
  album_release_date : option string
}.

Record raw_track := {
  raw_id : option string;
  raw_name : option string;
  raw_artists : option (list raw_artist);
  raw_album_field : option raw_album;
  raw_preview_url : option (option string);
  raw_popularity : option Z;
  raw_duration_ms : option Z;
  raw_external_urls : option (gmap string string)
}.

(** The normalized track dict ([details] in app.py, [info] in utils.py).
    The audio-feature entries of the dict (the nine feature columns, [key]
    and [mode]) are kept as the map [features]; [artist_ids] is an entry
    only app.py writes. *)
Record details := {
  track_id : string;
  name : string;
  artist : string;
  album : string;
  image_url : option string;
  preview_url : option string;
  popularity : Z;
  release_date : string;
  duration_ms : Z;
  external_url : string;
  artist_ids : option (list string);
  features : gmap string R
}.

(** A DataFrame row: the track's entries plus the derived columns. *)
Record row := {
  track : details;
  year : option Z;
  similarity : option R
}.

Abbreviation frame := (list row).

(** [pd.DataFrame(tracks_data)] *)
Definition DataFrame (tracks_data : list details) : frame :=
  map (fun d => {| track := d; year := None; similarity := None |}) tracks_data.

Definition set_year (y : option Z) (r : row) : row :=
  {| track := track r; year := y; similarity := similarity r |}.

Definition set_similarity (s : option R) (r : row) : row :=
  {| track := track r; year := year r; similarity := s |}.

(** [df[col] = values], one value per row. *)
Definition assign_similarity (df : frame) (values : list R) : frame :=
  zip_with (fun r s => set_similarity (Some s) r) df values.

#[global] Instance R_eq_dec : EqDecision R := Req_dec_T.

(** The order of the [similarity] column: NaN below every number. *)
Definition sim_ltb (a b : option R) : bool :=
  match a, b with
  | Some x, Some y => if Rlt_dec x y then true else false
  | None, Some _ => true
  | _, None => false
  end.

(** The [filters] dict: two optional inclusive ranges. *)
Record filter_spec := {
  popularity_range : option (Z * Z);
  year_range : option (Z * Z)
}.

(** ** The catalog client and its call log *)

Inductive api_call :=
| Search (q : string) (limit : nat)
| AudioFeatures (id : string)
| ArtistTopTracks (id : string)
| ArtistRelatedArtists (id : string)
| Recommendations (seed_tracks seed_genres : list string) (limit : nat)
                  (params : gmap string R).

(** The answers of the catalog; [inl] is a raised exception. *)
Record Spotify := {
  search : string -> nat -> exc (list raw_track);
  audio_features : string -> exc (list (option (gmap string R)));
  artist_top_tracks : string -> exc (list raw_track);
  artist_related_artists : string -> exc (list raw_artist);
  recommendations :
    list string -> list string -> nat -> gmap string R -> exc (list raw_track)
}.

Module Catalog.

(** Code that talks to the catalog: the log of requests is threaded. *)
Definition Catalog (A : Type) : Type := list api_call -> A * list api_call.

Definition ret {A} (a : A) : Catalog A := fun log => (a, log).

Definition bind {A B} (m : Catalog A) (k : A -> Catalog B) : Catalog B :=
  fun log => let '(a, log') := m log in k a log'.

(** One request: logged, then answered by the oracle. *)
Definition request {A} (c : api_call) (answer : A) : Catalog A :=
  fun log => (answer, log ++ [c]).

(** The body of a [try] block: it stops at the first exception. *)
Definition Try (A : Type) : Type := Catalog (exc A).

Definition tret {A} (a : A) : Try A := ret (inr a).

Definition tbind {A B} (m : Try A) (k : A -> Try B) : Try B :=
  bind m (fun r => match r with inl e => ret (inl e) | inr a => k a end).

Definition lift {A} (m : Catalog A) : Try A := bind m (fun a => ret (inr a)).

(** [try: body except Exception as e: return handler(str(e))] *)
Definition try_except {A} (body : Try A) (handler : string -> A) : Catalog A :=
  bind body (fun r => ret (match r with inl e => handler e | inr a => a end)).

End Catalog.

Import Catalog.

Declare Scope catalog_scope.
Delimit Scope catalog_scope with catalog.
Notation "x <- m ;; k" := (bind m (fun x => k))
  (at level 20, m at level 99, k at level 200, only parsing) : catalog_scope.
Notation "x <-? m ;; k" := (tbind m (fun x => k))
  (at level 20, m at level 99, k at level 200, only parsing) : catalog_scope.

(** [d[k]]: [KeyError] when the key is missing; [str(KeyError(k))] quotes
    the key. *)
Definition getitem {A} (k : string) (o : option A) : exc A :=
  match o with
  | Some a => inr a
  | None => inl ("'" +:+ k +:+ "'")
  end.

Definition exc_bind {A B} (r : exc A) (k : A -> exc B) : exc B :=
  match r with inl e => inl e | inr a => k a end.

Notation "x <-! r ;; k" := (exc_bind r (fun x => k))
  (at level 20, r at level 99, k at level 200, only parsing).

(** A list comprehension whose element expression may raise. *)
Fixpoint comprehension {A B} (f : A -> exc B) (l : list A) : exc (list B) :=
  match l with
  | [] => inr []
  | a :: t => b <-! f a ;; bs <-! comprehension f t ;; inr (b :: bs)
  end.

(** [', '.join(names)] *)
Definition join (sep : string) (names : list string) : string :=
  String.concat sep names.

(** The ten metadata entries both normalizers read, in the order of the
    dict literal (app.py 129-139, utils.py 75-86). *)
Definition metadata (track : raw_track) : exc details :=
  id <-! getitem "id" (raw_id track) ;;
  nm <-! getitem "name" (raw_name track) ;;
  artists <-! getitem "artists" (raw_artists track) ;;
  names <-! comprehension (fun a => getitem "name" (artist_name a)) artists ;;
  alb <-! getitem "album" (raw_album_field track) ;;
  alb_name <-! getitem "name" (album_name alb) ;;
  images <-! getitem "images" (album_images alb) ;;
  img <-! match images with
          | [] => inr None
          | first :: _ => url <-! getitem "url" (image_url_field first) ;; inr (Some url)
          end ;;
  preview <-! getitem "preview_url" (raw_preview_url track) ;;
  pop <-! getitem "popularity" (raw_popularity track) ;;
  rel <-! getitem "release_date" (album_release_date alb) ;;
  dur <-! getitem "duration_ms" (raw_duration_ms track) ;;
  urls <-! getitem "external_urls" (raw_external_urls track) ;;
  ext <-! getitem "spotify" (urls !! "spotify") ;;
  inr {| track_id := id; name := nm; artist := join ", " names;
         album := alb_name; image_url := img; preview_url := preview;
         popularity := pop; release_date := rel; duration_ms := dur;
         external_url := ext; artist_ids := None; features := ∅ |}.

Definition set_artist_ids (ids : option (list string)) (d : details) : details :=
  {| track_id := track_id d; name := name d; artist := artist d;
     album := album d; image_url := image_url d; preview_url := preview_url d;
     popularity := popularity d; release_date := release_date d;
     duration_ms := duration_ms d; external_url := external_url d;
     artist_ids := ids; features := features d |}.

(** [details.update({...})] on the audio-feature entries *)
Definition set_features (feats : gmap string R) (d : details) : details :=
  {| track_id := track_id d; name := name d; artist := artist d;
     album := album d; image_url := image_url d; preview_url := preview_url d;
     popularity := popularity d; release_date := release_date d;
     duration_ms := duration_ms d; external_url := external_url d;
     artist_ids := artist_ids d; features := feats |}.

Definition present {A} (o : option A) : bool :=
  match o with Some _ => true | None => false end.

(** The raw track has every metadata key the normalizers read: [id],
    [name], [artists] (each with [name] and [id]), [album] (with [name],
    [images], whose first entry if any has [url], and [release_date]),
    [preview_url], [popularity], [duration_ms] and
    [external_urls.spotify]. *)
Definition has_required_metadata (t : raw_track) : bool :=
  present (raw_id t) && present (raw_name t)
  && match raw_artists t with
     | Some artists =>
         forallb (fun a => present (artist_name a) && present (artist_id a)) artists
     | None => false
     end
  && match raw_album_field t with
     | Some alb =>
         present (album_name alb)
         && match album_images alb with
            | Some [] => true
            | Some (first :: _) => present (image_url_field first)
            | None => false
            end
         && present (album_release_date alb)
     | None => false
     end
  && present (raw_preview_url t) && present (raw_popularity t)
  && present (raw_duration_ms t)
  && match raw_external_urls t with
     | Some urls => present (urls !! "spotify")
     | None => false
     end.

(** Python truthiness of an error string, and the callers' test
    [if track_details and not error]. *)
Definition falsy (e : option string) : bool :=
  match e with None => true | Some s => bool_decide (s = "") end.

Definition accepted {A} (p : option A * option string) : option A :=
  match p with
  | (Some d, e) => if falsy e then Some d else None
  | (None, _) => None
  end.

(** The five mood labels of the specification. *)
Definition recognized_moods : list string :=
  ["happy"; "chill"; "workout"; "sad"; "party"].

(** The nine feature columns, in the order both files list them. *)
Definition feature_cols : list string :=
  ["danceability"; "energy"; "valence"; "tempo"; "acousticness";
   "liveness"; "instrumentalness"; "loudness"; "speechiness"].

(** [(df[col] >= rng[0]) & (df[col] <= rng[1])] on the year column; a NaN
    year compares false. *)
Definition year_within (rng : Z * Z) (r : row) : Prop :=
  match year r with
  | Some y => (rng.1 ≤ y ≤ rng.2)%Z
  | None => False
  end.

#[global] Instance year_within_dec rng r : Decision (year_within rng r).
Proof. unfold year_within. destruct (year r); apply _. Defined.

Definition popularity_within (rng : Z * Z) (r : row) : Prop :=
  (rng.1 ≤ popularity (track r) ≤ rng.2)%Z.

#[global] Instance popularity_within_dec rng r : Decision (popularity_within rng r).
Proof. unfold popularity_within. apply _. Defined.

(** The row with its [year] cell set from its release date:
    [df['year'] = pd.to_datetime(df['release_date'], ...).dt.year], a date
    that does not parse giving NaN. *)
Definition with_year (to_year : string -> option Z) (r : row) : row :=
  set_year (to_year (release_date (track r))) r.

(** The year filter as the specification words it: the release date
    parses to a year and the year lies in the inclusive range. *)
Definition year_accepted (to_year : string -> option Z) (rng : Z * Z) (d : details) : Prop :=
  match to_year (release_date d) with
  | Some y => (rng.1 ≤ y ≤ rng.2)%Z
  | None => False
  end.

#[global] Instance year_accepted_dec to_year rng d : Decision (year_accepted to_year rng d).
Proof. unfold year_accepted. destruct (to_year (release_date d)); apply _. Defined.

(** ** app.py *)

Module App.
Section WithClient.
Variable sp : Spotify.
(** [pd.to_datetime(s).dt.year] of one cell; [None] when [s] does not
    parse.  The date grammar of pandas is not part of the repository, so
    the parser is a parameter; it is applied cell by cell (pandas before
    2.0, or [format='mixed']), the result for one date not depending on the
    other dates of the column. *)
Variable to_year : string -> option Z.

Local Open Scope catalog_scope.

(** app.py 113-121 *)
Definition get_audio_features (track_id : string)
    : Catalog (gmap string R * option string) :=
  try_except
    (features <-? request (AudioFeatures track_id) (audio_features sp track_id) ;;
     tret (match features with
           | Some f :: _ =>
               if bool_decide (size f = 0%nat) then (∅, Some "No audio features")
               else (f, None)
           | _ => (∅, Some "No audio features")
           end))
    (fun e => (∅, Some ("Error: " +:+ e))).

(** The defaults of app.py 144-156, in the order of the dict literal. *)
Definition feature_defaults : list (string * R) :=
  [("danceability", 0.5%R); ("energy", 0.5%R); ("valence", 0.5%R);
   ("tempo", 120%R); ("acousticness", 0.5%R); ("liveness", 0.5%R);
   ("instrumentalness", 0.5%R); ("loudness", (-10)%R);
   ("speechiness", 0.5%R); ("key", 0%R); ("mode", 1%R)].

(** [{k: audio_features.get(k, d), ...}] *)
Definition with_defaults (audio : gmap string R) : gmap string R :=
  list_to_map (map (fun kd => (kd.1, default kd.2 (audio !! kd.1))) feature_defaults).

(** The dict built at app.py 129-156. *)
Definition build_details (track : raw_track) (audio : gmap string R) : exc details :=
  d <-! metadata track ;;
  artists <-! getitem "artists" (raw_artists track) ;;
  ids <-! comprehension (fun a => getitem "id" (artist_id a)) artists ;;
  inr (set_features (with_defaults audio) (set_artist_ids (Some ids) d)).

(** app.py 124-160 *)
Definition get_track_details (track : raw_track)
    : Catalog (option details * option string) :=
  try_except
    (id <-? ret (getitem "id" (raw_id track)) ;;
     af <-? lift (get_audio_features id) ;;
     d <-? ret (build_details track af.1) ;;
     tret (Some d, None))
    (fun e => (None, Some ("Error: " +:+ e))).

(** The loop [for track in tracks: ... tracks_data.append(track_details)]
    of app.py 169-172 and 225-228. *)
Fixpoint collect_details (tracks : list raw_track) (tracks_data : list details)
    : Catalog (list details) :=
  match tracks with
  | [] => ret tracks_data
  | t :: rest =>
      p <- get_track_details t ;;
      match accepted p with
      | Some d => collect_details rest (tracks_data ++ [d])
      | None => collect_details rest tracks_data
      end
  end.

(** app.py 163-176 *)
Definition get_artist_top_tracks (artist_id : string) (limit : nat)
    : Catalog (frame * option string) :=
  try_except
    (results <-? request (ArtistTopTracks artist_id) (artist_top_tracks sp artist_id) ;;
     tracks_data <-? lift (collect_details (firstn limit results) []) ;;
     tret (DataFrame tracks_data, None))
    (fun e => (DataFrame [], Some ("Error: " +:+ e))).

(** The inner loop of app.py 187-192; it stops ([break]) once [limit]
    tracks are collected. *)
Fixpoint related_inner (tracks : list raw_track) (limit : nat)
    (tracks_data : list details) : Catalog (list details) :=
  match tracks with
  | [] => ret tracks_data
  | t :: rest =>
      p <- get_track_details t ;;
      match accepted p with
      | Some d =>
          let tracks_data' := tracks_data ++ [d] in
          if (limit <=? length tracks_data')%nat then ret tracks_data'
          else related_inner rest limit tracks_data'
      | None => related_inner rest limit tracks_data
      end
  end.

(** The outer loop of app.py 185-194. *)
Fixpoint related_outer (artists : list raw_artist) (limit : nat)
    (tracks_data : list details) : Try (list details) :=
  match artists with
  | [] => tret tracks_data
  | a :: rest =>
      id <-? ret (getitem "id" (artist_id a)) ;;
      top_tracks <-? request (ArtistTopTracks id) (artist_top_tracks sp id) ;;
      tracks_data' <-? lift (related_inner (firstn 4 top_tracks) limit tracks_data) ;;
      if (limit <=? length tracks_data')%nat then tret tracks_data'
      else related_outer rest limit tracks_data'
  end.

(** app.py 179-198 *)
Definition get_related_artists_tracks (artist_id : string) (limit : nat)
    : Catalog (frame * option string) :=
  try_except
    (related <-? request (ArtistRelatedArtists artist_id)
                   (artist_related_artists sp artist_id) ;;
     tracks_data <-? related_outer (firstn 5 related) limit [] ;;
     tret (DataFrame tracks_data, None))
    (fun e => (DataFrame [], Some ("Error: " +:+ e))).

(** [if not df.empty: all_tracks.append(df)] *)
Definition append_nonempty (all_tracks : list frame) (df : frame) : list frame :=
  match df with [] => all_tracks | _ => all_tracks ++ [df] end.

(** The three retrieval strategies, app.py 204-232. *)
Definition gather (seed : details) : Catalog (list frame) :=
  let all_tracks := [] in
  all_tracks <-
    match artist_ids seed with
    | Some (artist_id :: _) =>
        r <- get_artist_top_tracks artist_id 15 ;;
        ret (append_nonempty all_tracks r.1)
    | _ => ret all_tracks
    end ;;
  all_tracks <-
    match artist_ids seed with
    | Some (artist_id :: _) =>
        r <- get_related_artists_tracks artist_id 25 ;;
        ret (append_nonempty all_tracks r.1)
    | _ => ret all_tracks
    end ;;
  let search_query := name seed +:+ " " +:+ artist seed in
  search_tracks <-
    try_except
      (items <-? request (Search search_query 20) (search sp search_query 20) ;;
       lift (collect_details items []))
      (fun _ => []) ;;
  ret (append_nonempty all_tracks (DataFrame search_tracks)).

(** app.py 238-244: concatenate, remove the seed, drop duplicate ids. *)
Definition merge (seed : details) (all_tracks : list frame) : frame :=
  let df := concat all_tracks in
  let df := filter (fun r => track_id (track r) ≠ track_id seed) df in
  Pandas.drop_duplicates (fun r => track_id (track r)) df.

(** app.py 251-253 *)
Definition filter_popularity (rng : Z * Z) (df : frame) : frame :=
  filter (popularity_within rng) df.

(** app.py 256-259 *)
Definition filter_year (rng : Z * Z) (df : frame) : frame :=
  let df := map (with_year to_year) df in
  let df := filter (fun r => is_Some (year r)) df in
  filter (year_within rng) df.

(** app.py 250-259: [filters] is falsy when it is [None] or the empty
    dict. *)
Definition apply_filters (filters : option filter_spec) (df : frame) : frame :=
  match filters with
  | None => df
  | Some f =>
      let df := match popularity_range f with
                | Some rng => filter_popularity rng df
                | None => df
                end in
      match year_range f with
      | Some rng => filter_year rng df
      | None => df
      end
  end.

(** [df[feature_cols].fillna(0.5)] *)
Definition df_features (df : frame) : Sklearn.matrix :=
  map (fun r => map (fun c => default 0.5%R (features (track r) !! c)) feature_cols) df.

(** [np.array([[seed.get(col, 0.5) for col in feature_cols]])] *)
Definition seed_features (seed : details) : Sklearn.matrix :=
  [map (fun c => default 0.5%R (features seed !! c)) feature_cols].

(** The scaler fitted at app.py 272-273. *)
Definition scaler (df : frame) : Sklearn.StandardScaler :=
  (Sklearn.fit_transform (df_features df)).1.

Definition df_features_scaled (df : frame) : Sklearn.matrix :=
  (Sklearn.fit_transform (df_features df)).2.

Definition seed_features_scaled (seed : details) (df : frame) : Sklearn.matrix :=
  Sklearn.transform (scaler df) (seed_features seed).

(** app.py 276: row 0 of the similarity matrix. *)
Definition similarities (seed : details) (df : frame) : list R :=
  hd [] (Sklearn.cosine_similarity (seed_features_scaled seed df) (df_features_scaled df)).

(** app.py 269-277 *)
Definition score (seed : details) (df : frame) : frame :=
  assign_similarity df (similarities seed df).

(** app.py 279 *)
Definition top (num_recommendations : nat) (df : frame) : frame :=
  Pandas.nlargest similarity sim_ltb (num_recommendations `min` length df) df.

(** app.py 201-283.  No step after [gather] raises on well-typed
    records, so the outer handler is not reached. *)
Definition recommend_songs (seed : details) (num_recommendations : nat)
    (filters : option filter_spec) : Catalog (frame * option string) :=
  all_tracks <- gather seed ;;
  match all_tracks with
  | [] => ret (DataFrame [], Some "Could not find recommendations")
  | _ =>
      let df := merge seed all_tracks in
      match df with
      | [] => ret (DataFrame [], Some "No recommendations found")
      | _ =>
          let df := apply_filters filters df in
          match df with
          | [] => ret (DataFrame [], Some "No songs match the filters")
          | _ => ret (top num_recommendations (score seed df), None)
          end
      end
  end.

Definition mood_queries : gmap string string :=
  {[ "happy" := "happy upbeat pop dance";
     "chill" := "chill relax ambient calm";
     "workout" := "workout energy gym motivation";
     "sad" := "sad emotional melancholy";
     "party" := "party dance club edm" ]}.

(** The loop of app.py 304-309. *)
Fixpoint collect_until (tracks : list raw_track) (num : nat)
    (tracks_data : list details) : Catalog (list details) :=
  match tracks with
  | [] => ret tracks_data
  | t :: rest =>
      p <- get_track_details t ;;
      match accepted p with
      | Some d =>
          let tracks_data' := tracks_data ++ [d] in
          if (num <=? length tracks_data')%nat then ret tracks_data'
          else collect_until rest num tracks_data'
      | None => collect_until rest num tracks_data
      end
  end.

(** app.py 286-313 *)
Definition get_mood_based_recommendations (mood : string) (num_recommendations : nat)
    : Catalog (frame * option string) :=
  try_except
    (match mood_queries !! mood with
     | None => tret (DataFrame [], Some "Invalid mood")
     | Some query =>
         items <-? request (Search query (num_recommendations * 2))
                     (search sp query (num_recommendations * 2)) ;;
         tracks_data <-? lift (collect_until items num_recommendations []) ;;
         tret (DataFrame tracks_data, None)
     end)
    (fun e => (DataFrame [], Some ("Error: " +:+ e))).

End WithClient.

Section Startup.
(** [str.strip()]; the built-in is a parameter. *)
Variable strip : string -> string.
(** [spotipy.Spotify(auth_manager=SpotifyClientCredentials(id, secret))]:
    the client for the credentials, or the exception the constructors
    raise. *)
Variable connect : string -> string -> exc Spotify.

Local Open Scope catalog_scope.





(** app.py 97-110 *)
Definition fetch_song (sp : Spotify) (query : string)
    : Catalog (option raw_track * option string) :=
  try_except
    (if bool_decide (query = "") || bool_decide (strip query = "")
     then tret (None, Some "Empty search query")
     else
       items <-? request (Search (strip query) 1) (search sp (strip query) 1) ;;
       tret (match items with
             | first :: _ => (Some first, None)
             | [] => (None, Some "No results found")
             end))
    (fun e => (None, Some ("Search error: " +:+ e))).

End Startup.
End App.

(** ** utils.py *)

Module Utils.

(** DataFrame objects live in a store; a variable holds a reference. *)
Abbreviation loc := nat.
Abbreviation store := (gmap nat frame).

Definition deref (σ : store) (l : loc) : frame := default [] (σ !! l).

(** [df.copy()]: a new object with the same rows. *)
Definition copy (l : loc) (σ : store) : loc * store :=
  let l' := fresh (dom σ) in (l', <[l' := deref σ l]> σ).

(** [df['similarity'] = values]: the object is updated in place. *)
Definition setitem_similarity (l : loc) (values : list R) (σ : store) : store :=
  alter (fun df => assign_similarity df values) l σ.

(** [RecommendationEngine]: [self.feature_columns].  ([self.scaler] is
    refitted by every call and not read across calls.) *)
Record RecommendationEngine := { feature_columns : list string }.

Section WithClient.
Variable sp : Spotify.
Variable to_year : string -> option Z.

Local Open Scope catalog_scope.

(** utils.py 45-60 *)
Definition get_audio_features (track_id : string) : Catalog (option (gmap string R)) :=
  try_except
    (features <-? request (AudioFeatures track_id) (audio_features sp track_id) ;;
     tret (match features with [] => None | f :: _ => f end))
    (fun _ => None).

(** The keys read at utils.py 90-100, in the order of the dict literal. *)
Definition audio_keys : list string := feature_cols ++ ["key"; "mode"].

(** [{k: audio_features[k], ...}]: a missing key raises. *)
Definition read_features (audio : gmap string R) : exc (gmap string R) :=
  kvs <-! comprehension (fun k => v <-! getitem k (audio !! k) ;; inr (k, v)) audio_keys ;;
  inr (list_to_map kvs).

(** The dict built at utils.py 75-101. *)
Definition build_info (track : raw_track) (audio : option (gmap string R)) : exc details :=
  info <-! metadata track ;;
  match audio with
  | Some af =>
      if bool_decide (size af = 0%nat) then inr info
      else feats <-! read_features af ;; inr (set_features feats info)
  | None => inr info
  end.

(** utils.py 62-106 *)
Definition extract_track_info (track : raw_track) : Catalog (option details) :=
  try_except
    (id <-? ret (getitem "id" (raw_id track)) ;;
     af <-? lift (get_audio_features id) ;;
     info <-? ret (build_info track af) ;;
     tret (Some info))
    (fun _ => None).

(** The loops of utils.py 126-129 and 370-373. *)
Fixpoint collect_info (tracks : list raw_track) (tracks_data : list details)
    : Catalog (list details) :=
  match tracks with
  | [] => ret tracks_data
  | t :: rest =>
      track_info <- extract_track_info t ;;
      match track_info with
      | Some d => collect_info rest (tracks_data ++ [d])
      | None => collect_info rest tracks_data
      end
  end.

(** utils.py 108-134 *)
Definition get_recommendations_pool (seed_track_id : string) (limit : nat)
    : Catalog frame :=
  try_except
    (tracks <-? request (Recommendations [seed_track_id] [] limit ∅)
                  (recommendations sp [seed_track_id] [] limit ∅) ;;
     tracks_data <-? lift (collect_info tracks []) ;;
     tret (DataFrame tracks_data))
    (fun _ => DataFrame []).

(** [c in df.columns], for an audio-feature column [c] of a frame as
    [pd.DataFrame(tracks_data)] builds it: the keys of the records are the
    columns, so that the column is there when some record has the key.  A
    frame from which rows were dropped keeps its columns, and the metadata
    keys are columns as well: on such a frame, or for such a column, the test
    can fail where the code finds the column.  What is concluded below from a
    failed test is therefore stated for frames as built and for engines over
    audio-feature columns. *)
Definition has_column (c : string) (df : frame) : Prop :=
  Exists (fun r => is_Some (features (track r) !! c)) df.

(** [np.array([[seed_features.get(col, 0) for col in cols]])] *)
Definition seed_vector (self : RecommendationEngine) (seed_features : gmap string R)
    : Sklearn.matrix :=
  [map (fun c => default 0%R (seed_features !! c)) (feature_columns self)].

(** [.fillna(0).values] of the selected columns *)
Definition feature_values (self : RecommendationEngine) (candidate_df : frame)
    : Sklearn.matrix :=
  map (fun r => map (fun c => default 0%R (features (track r) !! c))
                    (feature_columns self)) candidate_df.

(** [candidate_df[cols].fillna(0).values]: selecting a column the frame
    does not have raises [KeyError]. *)
Definition candidate_features (self : RecommendationEngine) (candidate_df : frame)
    : exc Sklearn.matrix :=
  if bool_decide (Forall (fun c => has_column c candidate_df) (feature_columns self))
  then inr (feature_values self candidate_df)
  else inl "not in index".

(** utils.py 165 *)
Definition all_features (self : RecommendationEngine) (seed_features : gmap string R)
    (candidate_df : frame) : exc Sklearn.matrix :=
  candidates <-! candidate_features self candidate_df ;;
  inr (seed_vector self seed_features ++ candidates).

(** utils.py 166-172.  scikit-learn rejects a matrix with no column
    and a candidate block with no row ([ValueError]). *)
Definition fitted (X : Sklearn.matrix) : exc (Sklearn.StandardScaler * list R) :=
  match Sklearn.n_features X, skipn 1 X with
  | O, _ => inl "Found array with 0 feature(s)"
  | _, [] => inl "Found array with 0 sample(s)"
  | _, _ =>
      let (scaler, normalized_features) := Sklearn.fit_transform X in
      let seed_normalized := firstn 1 normalized_features in
      let candidates_normalized := skipn 1 normalized_features in
      inr (scaler,
           hd [] (Sklearn.cosine_similarity seed_normalized candidates_normalized))
  end.

(** The [try] body of [calculate_similarity] up to line 172: the fitted
    scaler and the similarity of each candidate. *)
Definition similarities (self : RecommendationEngine) (seed_features : gmap string R)
    (candidate_df : frame) : exc (Sklearn.StandardScaler * list R) :=
  X <-! all_features self seed_features candidate_df ;;
  fitted X.

(** utils.py 144-180, on DataFrame objects: on success a copy with the
    new column, on any exception the argument itself. *)
Definition calculate_similarity (self : RecommendationEngine)
    (seed_features : gmap string R) (candidate_df : loc) (σ : store) : loc * store :=
  match similarities self seed_features (deref σ candidate_df) with
  | inr (_, sims) =>
      let (result_df, σ) := copy candidate_df σ in
      let σ := setitem_similarity result_df sims σ in
      (result_df, σ)
  | inl _ => (candidate_df, σ)
  end.

(** The value [calculate_similarity] returns, as rows. *)
Definition calculate_similarity_value (self : RecommendationEngine)
    (seed_features : gmap string R) (candidate_df : frame) : frame :=
  match similarities self seed_features candidate_df with
  | inr (_, sims) => assign_similarity candidate_df sims
  | inl _ => candidate_df
  end.

(** [pd.to_datetime(column).dt.year] with the default [errors='raise']. *)
Definition to_datetime_year (column : list string) : exc (list Z) :=
  comprehension (fun s => match to_year s with
                          | Some y => inr y
                          | None => inl ("Unknown datetime string format: " +:+ s)
                          end) column.

(** utils.py 182-214 *)
Definition apply_filters (df : frame) (popularity_range year_range : option (Z * Z))
    : exc frame :=
  let filtered_df := df in
  let filtered_df := match popularity_range with
                     | Some rng => filter (popularity_within rng) filtered_df
                     | None => filtered_df
                     end in
  match year_range with
  | Some rng =>
      years <-! to_datetime_year (map (fun r => release_date (track r)) filtered_df) ;;
      let filtered_df := zip_with (fun r y => set_year (Some y) r) filtered_df years in
      inr (filter (year_within rng) filtered_df)
  | None => inr filtered_df
  end.

(** [df.nlargest(n, 'similarity')]: [KeyError] without the column. *)
Definition nlargest_similarity (n : nat) (df : frame) : exc frame :=
  if bool_decide (Exists (fun r => is_Some (similarity r)) df)
  then inr (Pandas.nlargest similarity sim_ltb n df)
  else inl "'similarity'".

(** utils.py 216-252 *)
Definition recommend (self : RecommendationEngine) (seed_track : gmap string R)
    (candidates_df : frame) (n : nat) (filters : option filter_spec) : exc frame :=
  candidates_df <-! match filters with
                    | Some f => apply_filters candidates_df (popularity_range f) (year_range f)
                    | None => inr candidates_df
                    end ;;
  match candidates_df with
  | [] => inr (DataFrame [])
  | _ =>
      let df_with_similarity := calculate_similarity_value self seed_track candidates_df in
      nlargest_similarity n df_with_similarity
  end.

(** utils.py 309-335 *)
Definition MOOD_PARAMETERS : gmap string (gmap string R) :=
  {[ "happy" := {[ "target_valence" := 0.8%R; "target_energy" := 0.7%R;
                   "target_danceability" := 0.7%R ]};
     "chill" := {[ "target_valence" := 0.5%R; "target_energy" := 0.3%R;
                   "target_acousticness" := 0.6%R ]};
     "workout" := {[ "target_energy" := 0.85%R; "target_tempo" := 140%R;
                     "target_danceability" := 0.7%R ]};
     "sad" := {[ "target_valence" := 0.2%R; "target_energy" := 0.3%R;
                 "target_acousticness" := 0.5%R ]};
     "party" := {[ "target_danceability" := 0.85%R; "target_energy" := 0.8%R;
                   "target_valence" := 0.7%R ]} ]}.

(** utils.py 341-378 *)
Definition get_mood_recommendations (mood : string) (limit : nat) : Catalog frame :=
  match MOOD_PARAMETERS !! mood with
  | None => ret (DataFrame [])
  | Some params =>
      let seed_genres :=
        if bool_decide (mood ≠ "workout") then [mood] else ["rock"; "electronic"] in
      try_except
        (tracks <-? request (Recommendations [] seed_genres limit params)
                      (recommendations sp [] seed_genres limit params) ;;
         tracks_data <-? lift (collect_info tracks []) ;;
         tret (DataFrame tracks_data))
        (fun _ => DataFrame [])
  end.

End WithClient.

(** utils.py 25-43 *)
Definition search_track (sp : Spotify) (query : string) (limit : nat)
    : Catalog (option raw_track) :=
  (try_except
     (items <-? request (Search query limit) (search sp query limit) ;;
      tret (head items))
     (fun _ => None))%catalog.

(** [f"{seconds:02d}"]: at least two characters, zero-padded. *)
Definition two_digits (seconds : Z) : string :=
  if ((0 <=? seconds) && (seconds <? 10))%Z then "0" +:+ pretty seconds
  else pretty seconds.

(** [n / d] rounded to the nearest integer, a tie going to the even one
    ([0 <= n], [0 < d]). *)
Definition round_half_even (n d : Z) : Z :=
  let q := (n `div` d)%Z in
  let r := (n `mod` d)%Z in
  if (2 * r <? d)%Z then q
  else if (d <? 2 * r)%Z then (q + 1)%Z
  else if Z.even q then q else (q + 1)%Z.

(** [int(a / b)] for ints [0 < a], [0 < b].  The true division of two
    ints gives the binary64 number nearest to the quotient (53 significant
    bits, ties to even), or raises [OverflowError] when that number is out
    of range; [int] drops the fraction.  With [2^e <= a/b < 2^(e+1)] the
    binary64 numbers around the quotient are the multiples of [2^(e-52)].
    (The subnormal range lies below 1 and makes no difference to [int].) *)
Definition truediv_magnitude (a b : Z) : exc Z :=
  let e := (Z.log2 a - Z.log2 b)%Z in
  let e := if (if (0 <=? e)%Z then (b * 2 ^ e <=? a)%Z else (b <=? a * 2 ^ (- e))%Z)
           then e else (e - 1)%Z in
  let s := (52 - e)%Z in
  if (0 <=? s)%Z then inr (round_half_even (a * 2 ^ s) b `div` 2 ^ s)%Z
  else
    let x := (round_half_even a (b * 2 ^ (- s)) * 2 ^ (- s))%Z in
    if (2 ^ 1024 <=? x)%Z then inl "integer division result too large for a float"
    else inr x.

(** [int(a / b)] for Python ints. *)
Definition int_truediv (a b : Z) : exc Z :=
  if (b =? 0)%Z then inl "division by zero"
  else if (a =? 0)%Z then inr 0%Z
  else m <-! truediv_magnitude (Z.abs a) (Z.abs b) ;; inr (Z.sgn a * Z.sgn b * m)%Z.

(** utils.py 381-394.  [duration_ms / 1000] is a float division; [//] and
    [%] on the int that [int] returns round toward minus infinity. *)
Definition format_duration (duration_ms : Z) : exc string :=
  seconds <-! int_truediv duration_ms 1000 ;;
  let minutes := (seconds `div` 60)%Z in
  let seconds := (seconds `mod` 60)%Z in
  inr (pretty minutes +:+ ":" +:+ two_digits seconds).

(** A column as the statistics see it: numbers, with [None] for a NaN
    cell, or text, on which [Series.mean()] raises [TypeError]. *)
Inductive series :=
| Numbers (cells : list (option R))
| Text.

(** A DataFrame as [calculate_feature_stats] reads it: its columns by
    name.  The column index is data of the frame: a column whose cells are
    all NaN, and every column of a frame without rows, is a column all the
    same, and so are the metadata columns of a frame of tracks. *)
Abbreviation columns := (gmap string series).

(** The cells of a Series that are not NaN ([skipna=True]). *)
Definition dropna (cells : list (option R)) : list R :=
  omap (fun cell : option R => cell) cells.

(** [Series.mean()], [Series.std()] (sample deviation, ddof = 1),
    [Series.min()] and [Series.max()], NaN cells skipped; [None] is a NaN
    result. *)
Definition series_mean (values : list R) : option R :=
  match values with
  | [] => None
  | _ => Some (Sklearn.col_mean values)
  end.

Definition series_std (values : list R) : option R :=
  match values with
  | [] | [_] => None
  | _ =>
      Some (sqrt (Sklearn.Rsum (map (fun x => (x - Sklearn.col_mean values)
                                               * (x - Sklearn.col_mean values))%R values)
                  / INR (length values - 1))%R)
  end.

Definition series_min (values : list R) : option R :=
  match values with
  | [] => None
  | x :: rest => Some (fold_right Rmin x rest)
  end.

Definition series_max (values : list R) : option R :=
  match values with
  | [] => None
  | x :: rest => Some (fold_right Rmax x rest)
  end.

(** The inner dict of [calculate_feature_stats]. *)
Record feature_stats := {
  stat_mean : option R;
  stat_std : option R;
  stat_min : option R;
  stat_max : option R
}.

(** The dict written for one column, utils.py 411-416. *)
Definition describe (cells : list (option R)) : feature_stats :=
  {| stat_mean := series_mean (dropna cells);
     stat_std := series_std (dropna cells);
     stat_min := series_min (dropna cells);
     stat_max := series_max (dropna cells) |}.

(** utils.py 397-417.  The first requested column of text makes
    [df[col].mean()] raise, and the function with it. *)
Definition calculate_feature_stats (df : columns) (feature_columns : list string)
    : exc (gmap string feature_stats) :=
  fold_left
    (fun acc col =>
       stats <-! acc ;;
       match df !! col with
       | Some (Numbers cells) => inr (<[col := describe cells]> stats)
       | Some Text => inl "Could not convert string to numeric"
       | None => inr stats
       end)
    feature_columns (inr ∅).

End Utils.

(** ** Notions used in the statements *)

(** What app.py makes of one raw track: the details its callers keep.
    ([get_track_details] does not read the call log.) *)
Definition normalized (sp : Spotify) (t : raw_track) : option details :=
  accepted (App.get_track_details sp t []).1.

(** What utils.py makes of one raw track. *)
Definition extracted (sp : Spotify) (t : raw_track) : option details :=
  (Utils.extract_track_info sp t []).1.

(** The top tracks of a related artist cannot be fetched: the artist has
    no id, or the request raises. *)
Definition unreachable (sp : Spotify) (a : raw_artist) : Prop :=
  match artist_id a with
  | Some id => exists e, artist_top_tracks sp id = inl e
  | None => True
  end.

(** What the rows that pass the filters of app.py satisfy. *)
Definition passes (to_year : string -> option Z) (filters : option filter_spec)
    (r : row) : Prop :=
  match filters with
  | None => True
  | Some f =>
      (forall rng, popularity_range f = Some rng -> popularity_within rng r)
      /\ (forall rng, year_range f = Some rng ->
            year_accepted to_year rng (track r)
            /\ year r = to_year (release_date (track r)))
  end.

(** The first step of [recommend] in utils.py (lines 236-241): the
    candidates after the filters, or the exception the filters raise. *)
Definition filter_stage (to_year : string -> option Z) (candidates_df : frame)
    (filters : option filter_spec) : exc frame :=
  match filters with
  | Some f => Utils.apply_filters to_year candidates_df (popularity_range f) (year_range f)
  | None => inr candidates_df
  end.

(** What [calculate_similarity] needs in order not to fail: a row, a
    feature column to select, and every selected column in the frame. *)
Definition scorable (self : Utils.RecommendationEngine) (df : frame) : Prop :=
  df <> [] /\ Utils.feature_columns self <> []
  /\ Forall (fun c => Utils.has_column c df) (Utils.feature_columns self).

(** The frame [pd.DataFrame(tracks_data)] has the audio-feature column
    [c]: some record has the key. *)
Definition built_with (c : string) (tracks_data : list details) : Prop :=
  Exists (fun d => is_Some (features d !! c)) tracks_data.

(** An engine whose feature columns are audio-feature keys. *)
Definition audio_engine (self : Utils.RecommendationEngine) : Prop :=
  Forall (fun c => c ∈ Utils.audio_keys) (Utils.feature_columns self).

(** What [calculate_similarity] needs of the frame [pd.DataFrame(tracks_data)]
    in order not to fail: a row, a feature column to select, and every
    selected column in the frame. *)
Definition rankable (self : Utils.RecommendationEngine) (tracks_data : list details)
    : Prop :=
  tracks_data <> [] /\ Utils.feature_columns self <> []
  /\ Forall (fun c => built_with c tracks_data) (Utils.feature_columns self).

(** The loop of [calculate_feature_stats], from any dict of statistics. *)
Definition stats_loop (df : Utils.columns) (cols : list string)
    (acc : exc (gmap string Utils.feature_stats)) : exc (gmap string Utils.feature_stats) :=
  fold_left
    (fun acc col =>
       stats <-! acc ;;
       match df !! col with
       | Some (Utils.Numbers cells) => inr (<[col := Utils.describe cells]> stats)
       | Some Utils.Text => inl "Could not convert string to numeric"
       | None => inr stats
       end)
    cols acc.

(** The sixty values of the seconds field of a duration label. *)
Definition seconds_fields : list string :=
  map (fun k => Utils.two_digits (Z.of_nat k)) (seq 0 60).

(** The request a normalizer sends for one raw track. *)
Definition feature_request (t : raw_track) : list api_call :=
  match raw_id t with
  | Some id => [AudioFeatures id]
  | None => []
  end.

(** ** Sample data for the examples *)

Module Samples.

Definition digit (c : ascii) : option Z :=
  let n := nat_of_ascii c in
  if ((48 <=? n) && (n <=? 57))%nat then Some (Z.of_nat (n - 48)) else None.

(** A parser for ISO dates of any granularity ("1999", "1999-07",
    "1999-07-16"), standing for [pd.to_datetime] in the examples. *)
Definition iso_year (s : string) : option Z :=
  match s with
  | String a (String b (String c (String d rest))) =>
      match digit a, digit b, digit c, digit d with
      | Some w, Some x, Some y, Some z =>
          match rest with
          | EmptyString | String "-" _ => Some (1000 * w + 100 * x + 10 * y + z)%Z
          | _ => None
          end
      | _, _, _, _ => None
      end
  | _ => None
  end.

(** A normalized track with the given id, popularity, release date and
    audio features. *)
Definition song (id : string) (pop : Z) (date : string) (feats : gmap string R)
    : details :=
  {| track_id := id; name := id; artist := "artist"; album := "album";
     image_url := None; preview_url := None; popularity := pop;
     release_date := date; duration_ms := 200000;
     external_url := "https://open.spotify.com/track/" +:+ id;
     artist_ids := Some ["artist0"]; features := feats |}.

(** The feature entries of a track, given in the order of [feature_cols]. *)
Definition vector (values : list R) : gmap string R :=
  list_to_map (zip feature_cols values).

(** A seed and three candidates: [cand_A] has the seed's feature values,
    [cand_B] and [cand_C] lie at equal distance below and above them, and
    the instrumentalness is 0 throughout. *)
Definition seed_values : list R := [0.5; 0.5; 0.5; 120; 0.5; 0.5; 0; -8; 0.5]%R.

Definition seed_A : details := song "seed" 50 "2015" (vector seed_values).
Definition cand_A : details := song "A" 50 "2015" (vector seed_values).
Definition cand_B : details :=
  song "B" 50 "2015" (vector [0.25; 0.25; 0.25; 100; 0.25; 0.25; 0; -10; 0.25]%R).
Definition cand_C : details :=
  song "C" 50 "2015" (vector [0.75; 0.75; 0.75; 140; 0.75; 0.75; 0; -6; 0.75]%R).

Definition pool_ABC : frame := DataFrame [cand_A; cand_B; cand_C].
Definition pool_AB : frame := DataFrame [cand_A; cand_B].

Definition engine : Utils.RecommendationEngine :=
  {| Utils.feature_columns := feature_cols |}.

(** Three tracks; the release date of the second does not parse. *)
Definition dated : frame :=
  DataFrame [song "t1" 50 "2015-06-01" ∅; song "t2" 60 "unknown" ∅;
             song "t3" 70 "1999" ∅].

(** A raw catalog track with every metadata key. *)
Definition raw_with_id (id : string) : raw_track :=
  {| raw_id := Some id; raw_name := Some "Song";
     raw_artists := Some [{| artist_name := Some "Band"; artist_id := Some "a1" |}];
     raw_album_field :=
       Some {| album_name := Some "LP"; album_images := Some [];
               album_release_date := Some "2015-06-01" |};
     raw_preview_url := Some None; raw_popularity := Some 50%Z;
     raw_duration_ms := Some 200000%Z;
     raw_external_urls :=
       Some {[ "spotify" := "https://open.spotify.com/track/" +:+ id ]} |}.

Definition raw_song : raw_track := raw_with_id "t1".

(** A catalog in which the seed's artist has the tracks t1 and seed, no
    artist is related to it, and the text search finds t1 and t2; no track
    has audio features. *)
Definition sp_small : Spotify :=
  {| search := fun _ _ => inr [raw_with_id "t1"; raw_with_id "t2"];
     audio_features := fun _ => inr [None];
     artist_top_tracks := fun _ => inr [raw_with_id "t1"; raw_with_id "seed"];
     artist_related_artists := fun _ => inr [];
     recommendations := fun _ _ _ _ => inr [] |}.

(** A catalog that answers every request with an empty list. *)
Definition sp_empty : Spotify :=
  {| search := fun _ _ => inr []; audio_features := fun _ => inr [];
     artist_top_tracks := fun _ => inr []; artist_related_artists := fun _ => inr [];
     recommendations := fun _ _ _ _ => inr [] |}.

(** A catalog every request to which raises. *)
Definition sp_down : Spotify :=
  {| search := fun _ _ => inl "timeout"; audio_features := fun _ => inl "timeout";
     artist_top_tracks := fun _ => inl "timeout";
     artist_related_artists := fun _ => inl "timeout";
     recommendations := fun _ _ _ _ => inl "timeout" |}.

(** A catalog whose audio-feature objects hold the tempo only. *)
Definition sp_tempo_only : Spotify :=
  {| search := fun _ _ => inr [];
     audio_features := fun _ => inr [Some {[ "tempo" := 100%R ]}];
     artist_top_tracks := fun _ => inr []; artist_related_artists := fun _ => inr [];
     recommendations := fun _ _ _ _ => inr [] |}.

(** A catalog in which the artist r1 has one track and the request for
    the tracks of r2 raises; both are related to every artist. *)
Definition sp_related_down : Spotify :=
  {| search := fun _ _ => inr [];
     audio_features := fun _ => inr [None];
     artist_top_tracks := fun id =>
       if bool_decide (id = "r2") then inl "timeout" else inr [raw_with_id "t1"];
     artist_related_artists := fun _ =>
       inr [{| artist_name := Some "R1"; artist_id := Some "r1" |};
            {| artist_name := Some "R2"; artist_id := Some "r2" |}];
     recommendations := fun _ _ _ _ => inr [] |}.

(** A catalog that recommends two tracks and has audio features for
    none. *)
Definition sp_no_features : Spotify :=
  {| search := fun _ _ => inr [];
     audio_features := fun _ => inr [None];
     artist_top_tracks := fun _ => inr []; artist_related_artists := fun _ => inr [];
     recommendations := fun _ _ _ _ => inr [raw_with_id "t1"; raw_with_id "t2"] |}.


(** A store whose only object has no feature column. *)
Definition store_dated : Utils.store := {[ 0%nat := dated ]}.

End Samples.

(** * Properties *)

(** ** pandas: descending stable order *)

Section SortFacts.
Context {A K : Type}.
Variable key : A -> K.
Variable ltb : K -> K -> bool.
Hypothesis ltb_asym : forall a b, ltb a b = true -> ltb b a = false.
Hypothesis ltb_negtrans :
  forall a b c, ltb a b = false -> ltb b c = false -> ltb a c = false.

Abbreviation insert_desc := (Pandas.insert_desc key ltb).
Abbreviation sort_desc := (Pandas.sort_desc key ltb).
Abbreviation nlargest := (Pandas.nlargest key ltb).

(** [a] may stand before [b] in a descending order *)
Definition not_below (a b : A) : Prop := ltb (key a) (key b) = false.

Lemma ltb_irrefl a : ltb a a = false.
Proof. destruct (ltb a a) eqn:E; [ | reflexivity]. rewrite <- E. now apply ltb_asym. Qed.

Lemma insert_desc_perm x l : insert_desc x l ≡ₚ x :: l.
Proof.
  induction l as [ | y t IH]; simpl; [reflexivity | ].
  destruct (ltb (key x) (key y)); [ | reflexivity].
  rewrite IH. apply Permutation_swap.
Qed.

Lemma sort_desc_perm l : sort_desc l ≡ₚ l.
Proof.
  induction l as [ | x t IH]; simpl; [reflexivity | ].
  rewrite insert_desc_perm. now rewrite IH.
Qed.

Lemma insert_desc_sorted x l :
  StronglySorted not_below l -> StronglySorted not_below (insert_desc x l).
Proof.
  induction 1 as [ | y t Hs IH Hy]; simpl.
  - repeat constructor.
  - destruct (ltb (key x) (key y)) eqn:E.
    + constructor; [exact IH | ].
      rewrite insert_desc_perm. constructor; [ | exact Hy].
      now apply ltb_asym.
    + constructor; [now constructor | ].
      constructor; [exact E | ].
      eapply Forall_impl; [exact Hy | ].
      intros z Hz. unfold not_below in *. eauto.
Qed.

Lemma sort_desc_sorted l : StronglySorted not_below (sort_desc l).
Proof.
  induction l as [ | x t IH]; simpl; [constructor | ].
  now apply insert_desc_sorted.
Qed.

Lemma StronglySorted_firstn (R : A -> A -> Prop) n l :
  StronglySorted R l -> StronglySorted R (firstn n l).
Proof.
  intros Hs. revert n. induction Hs as [ | x t Hs IH Hx]; intros [ | n]; simpl;
    try constructor.
  - apply IH.
  - now apply Forall_take.
Qed.

Lemma nlargest_sorted n l : StronglySorted not_below (nlargest n l).
Proof. apply StronglySorted_firstn, sort_desc_sorted. Qed.

Lemma nlargest_length n l : length (nlargest n l) = n `min` length l.
Proof.
  unfold Pandas.nlargest. rewrite length_firstn.
  now rewrite (Permutation_length (sort_desc_perm l)).
Qed.

Lemma nlargest_all n l : length l <= n -> nlargest n l ≡ₚ l.
Proof.
  intros Hn. unfold Pandas.nlargest. rewrite firstn_all2.
  - apply sort_desc_perm.
  - now rewrite (Permutation_length (sort_desc_perm l)).
Qed.

Lemma nlargest_submseteq n l : nlargest n l ⊆+ l.
Proof.
  unfold Pandas.nlargest. rewrite <- (sort_desc_perm l) at 2.
  apply sublist_submseteq, sublist_take.
Qed.

(** Stability: rows with one and the same key keep their order. *)
Context `{EqDecision K}.

Lemma insert_desc_filter v x l :
  filter (fun r => key r = v) (insert_desc x l)
  = filter (fun r => key r = v) (x :: l).
Proof.
  induction l as [ | y t IH]; simpl; [reflexivity | ].
  destruct (ltb (key x) (key y)) eqn:E; [ | reflexivity].
  rewrite !filter_cons in *.
  destruct (decide (key y = v)) as [Hy | Hy];
    destruct (decide (key x = v)) as [Hx | Hx]; rewrite IH; try reflexivity.
  exfalso. rewrite Hx, <- Hy, ltb_irrefl in E. discriminate.
Qed.

Lemma sort_desc_stable v l :
  filter (fun r => key r = v) (sort_desc l) = filter (fun r => key r = v) l.
Proof.
  induction l as [ | x t IH]; simpl; [reflexivity | ].
  rewrite insert_desc_filter, !filter_cons, IH. reflexivity.
Qed.

Lemma filter_firstn_prefix (P : A -> Prop) `{forall x, Decision (P x)} n (l : list A) :
  filter P (firstn n l) `prefix_of` filter P l.
Proof.
  revert n. induction l as [ | x t IH]; intros [ | n]; simpl;
    try apply prefix_nil.
  rewrite !filter_cons. destruct (decide (P x)).
  - apply prefix_cons, IH.
  - apply IH.
Qed.

Lemma nlargest_stable v n l :
  filter (fun r => key r = v) (nlargest n l) `prefix_of` filter (fun r => key r = v) l.
Proof.
  rewrite <- (sort_desc_stable v l). apply filter_firstn_prefix.
Qed.

End SortFacts.

(** ** scikit-learn: standardization and cosine similarity *)

Section SklearnFacts.
Import Sklearn.
Local Open Scope R_scope.

Lemma length_columns X : length (columns X) = n_features X.
Proof. unfold columns. now rewrite length_map, length_seq. Qed.

Lemma columns_lookup X j :
  (j < n_features X)%nat -> columns X !! j = Some (column j X).
Proof.
  intros Hj. unfold columns. rewrite list_lookup_fmap.
  now rewrite lookup_seq_lt.
Qed.

Lemma fit_mean_lookup X j :
  (j < n_features X)%nat -> mean_ (fit X) !! j = Some (col_mean (column j X)).
Proof. intros Hj. simpl. now rewrite list_lookup_fmap, columns_lookup. Qed.

Lemma fit_var_lookup X j :
  (j < n_features X)%nat -> var_ (fit X) !! j = Some (col_var (column j X)).
Proof. intros Hj. simpl. now rewrite list_lookup_fmap, columns_lookup. Qed.

Lemma fit_scale_lookup X j :
  (j < n_features X)%nat ->
  scale_ (fit X) !! j = Some (handle_zeros_in_scale (sqrt (col_var (column j X)))).
Proof. intros Hj. simpl. now rewrite list_lookup_fmap, columns_lookup. Qed.

Lemma transform_row_lookup sc row j x m s :
  row !! j = Some x -> mean_ sc !! j = Some m -> scale_ sc !! j = Some s ->
  transform_row sc row !! j = Some ((x - m) / s).
Proof.
  intros Hx Hm Hs. unfold transform_row.
  rewrite lookup_zip_with, Hx. simpl.
  now rewrite lookup_zip_with, Hm, Hs.
Qed.

Lemma handle_zeros_nonzero s : handle_zeros_in_scale s <> 0.
Proof. unfold handle_zeros_in_scale. destruct (Req_dec_T s 0); lra. Qed.

Lemma handle_zeros_at_zero : handle_zeros_in_scale 0 = 1.
Proof. unfold handle_zeros_in_scale. destruct (Req_dec_T 0 0); lra. Qed.

Lemma handle_zeros_id s : s <> 0 -> handle_zeros_in_scale s = s.
Proof. intros Hs. unfold handle_zeros_in_scale. destruct (Req_dec_T s 0); lra. Qed.

(** No fitted scale is zero: standardization never divides by zero. *)
Lemma fit_scale_nonzero X : Forall (fun s => s <> 0) (scale_ (fit X)).
Proof.
  simpl. apply Forall_fmap, Forall_true. intros c. apply handle_zeros_nonzero.
Qed.

Lemma Rsum_const v c : Forall (eq v) c -> Rsum c = INR (length c) * v.
Proof.
  induction 1 as [ | x t Hx Ht IH].
  - simpl. lra.
  - subst x. cbn [Rsum fold_right length]. fold (Rsum t).
    rewrite IH, S_INR. lra.
Qed.

Lemma col_mean_const v c : c <> [] -> Forall (eq v) c -> col_mean c = v.
Proof.
  intros Hne Hc. unfold col_mean. rewrite (Rsum_const v c Hc).
  assert (INR (length c) <> 0).
  { apply not_0_INR. destruct c; [congruence | discriminate]. }
  now field.
Qed.

Lemma Rsum_zero c : Forall (eq 0) c -> Rsum c = 0.
Proof. intros Hc. rewrite (Rsum_const 0 c Hc). lra. Qed.

Lemma col_var_const v c : c <> [] -> Forall (eq v) c -> col_var c = 0.
Proof.
  intros Hne Hc. unfold col_var. rewrite (col_mean_const v c Hne Hc).
  rewrite Rsum_zero; [unfold Rdiv; lra | ].
  apply Forall_fmap. eapply Forall_impl; [exact Hc | ].
  intros x <-. simpl. lra.
Qed.

Lemma column_const j v (X : matrix) :
  Forall (fun r => r !! j = Some v) X -> Forall (eq v) (column j X).
Proof.
  intros HX. unfold column. apply Forall_fmap.
  eapply Forall_impl; [exact HX | ]. intros r Hr. simpl.
  symmetry. apply nth_lookup_Some with (d := 0) in Hr. exact Hr.
Qed.

Lemma const_n_features j v (X : matrix) :
  X <> [] -> Forall (fun r => r !! j = Some v) X -> (j < n_features X)%nat.
Proof.
  destruct X as [ | r t]; [congruence | ].
  intros _ HX. apply Forall_cons in HX as [Hr _]. simpl.
  now apply lookup_lt_Some in Hr.
Qed.

(** A column that is constant over the fitting set has mean [v] and a
    scale of one; a row holding [v] there is standardized to zero. *)
Lemma constant_column_fit j v (X : matrix) :
  X <> [] -> Forall (fun r => r !! j = Some v) X ->
  mean_ (fit X) !! j = Some v /\ var_ (fit X) !! j = Some 0
  /\ scale_ (fit X) !! j = Some 1.
Proof.
  intros Hne HX.
  pose proof (const_n_features j v X Hne HX) as Hj.
  pose proof (column_const j v X HX) as Hc.
  assert (column j X <> []) as Hcne.
  { unfold column. destruct X; [congruence | discriminate]. }
  rewrite fit_mean_lookup, fit_var_lookup, fit_scale_lookup by exact Hj.
  rewrite (col_mean_const v _ Hcne Hc), (col_var_const v _ Hcne Hc).
  now rewrite sqrt_0, handle_zeros_at_zero.
Qed.

Lemma constant_column_transform j v (X : matrix) row :
  X <> [] -> Forall (fun r => r !! j = Some v) X -> row !! j = Some v ->
  transform_row (fit X) row !! j = Some 0.
Proof.
  intros Hne HX Hrow.
  destruct (constant_column_fit j v X Hne HX) as (Hm & _ & Hs).
  rewrite (transform_row_lookup _ _ _ _ _ _ Hrow Hm Hs).
  f_equal. unfold Rdiv. lra.
Qed.

(** *** Cosine similarity *)

Lemma dot_cons x a y b : dot (x :: a) (y :: b) = x * y + dot a b.
Proof. reflexivity. Qed.

Lemma dot_nil_r a : dot a [] = 0.
Proof. unfold dot. now destruct a. Qed.

Lemma dot_mult c1 c2 a b :
  dot (map (fun x => x * c1) a) (map (fun x => x * c2) b) = dot a b * (c1 * c2).
Proof.
  revert b. induction a as [ | x a IH]; intros [ | y b]; simpl;
    try (unfold dot; simpl; lra).
  rewrite !dot_cons, IH. lra.
Qed.

Lemma dot_scale k1 k2 a b :
  dot (map (fun x => x / k1) a) (map (fun x => x / k2) b) = dot a b / (k1 * k2).
Proof.
  unfold Rdiv. rewrite Rinv_mult. apply dot_mult.
Qed.

(** The similarity of two rows, in closed form. *)
Lemma dot_normalize a b :
  dot (normalize a) (normalize b)
  = dot a b / (handle_zeros_in_scale (row_norm a) * handle_zeros_in_scale (row_norm b)).
Proof. unfold normalize. apply dot_scale. Qed.

Lemma dot_self_nonneg a : 0 <= dot a a.
Proof.
  induction a as [ | x a IH]; [unfold dot; simpl; lra | ].
  rewrite dot_cons. nra.
Qed.

Lemma dot_zero_l a b : Forall (eq 0) a -> dot a b = 0.
Proof.
  intros Ha. revert b. induction Ha as [ | x a Hx Ha IH]; intros [ | y b];
    try reflexivity.
  subst x. rewrite dot_cons, IH. lra.
Qed.

(** A zero seed row has similarity zero with every row. *)
Lemma cosine_zero_l a b : Forall (eq 0) a -> dot (normalize a) (normalize b) = 0.
Proof.
  intros Ha. rewrite dot_normalize, (dot_zero_l a b Ha). unfold Rdiv. lra.
Qed.

(** A non-zero row has similarity one with itself. *)
Lemma cosine_self a : dot a a <> 0 -> dot (normalize a) (normalize a) = 1.
Proof.
  intros Hne. rewrite dot_normalize.
  pose proof (dot_self_nonneg a) as Hpos.
  assert (row_norm a <> 0) as Hn.
  { unfold row_norm. intros H0. apply sqrt_eq_0 in H0; [congruence | exact Hpos]. }
  rewrite (handle_zeros_id _ Hn). unfold row_norm.
  rewrite sqrt_sqrt by exact Hpos. now field.
Qed.

Lemma cauchy_schwarz a b : dot a b * dot a b <= dot a a * dot b b.
Proof.
  revert b. induction a as [ | x a IH]; intros [ | y b];
    try (unfold dot; simpl; lra).
  rewrite !dot_cons.
  {
    pose proof (IH b) as Hab.
    pose proof (dot_self_nonneg a) as Ha.
    pose proof (dot_self_nonneg b) as Hb.
    set (D := dot a b) in *. set (P := dot a a) in *. set (Q := dot b b) in *.
    (* 2 x y D <= x^2 Q + y^2 P *)
    assert (2 * (x * y) * D <= x * x * Q + y * y * P) as Hmix.
    { destruct (Rle_dec (x * y * D) 0) as [Hneg | Hposi]; [nra | ].
      set (t := x * y * D) in *. set (u := x * x * Q). set (w := y * y * P).
      assert (0 < t) as Ht by lra.
      assert (0 <= (x * y) * (x * y)) as Hxy2 by nra.
      pose proof (Rmult_le_compat_l _ _ _ Hxy2 Hab) as Hsq.
      assert (t * t <= u * w) as Htuw by (unfold t, u, w; nra).
      assert (0 <= u) as Hu by (unfold u; nra).
      assert (0 <= w) as Hw by (unfold w; nra).
      destruct (Rle_dec (2 * t) (u + w)) as [Hok | Hbad];
        [unfold t, u, w in *; lra | exfalso ].
      assert (0 < (2 * t - (u + w)) * (2 * t + (u + w))) as Hprod.
      { apply Rmult_lt_0_compat; lra. }
      pose proof (Rle_0_sqr (u - w)) as Hsqr. unfold Rsqr in Hsqr.
      nra. }
    nra.
  }
Qed.

(** No similarity exceeds one. *)
Lemma cosine_le_1 a b : dot (normalize a) (normalize b) <= 1.
Proof.
  rewrite dot_normalize.
  pose proof (dot_self_nonneg a) as Ha. pose proof (dot_self_nonneg b) as Hb.
  pose proof (cauchy_schwarz a b) as Hcs.
  pose proof (sqrt_pos (dot a a)) as Hna. pose proof (sqrt_pos (dot b b)) as Hnb.
  pose proof (sqrt_sqrt _ Ha) as Hsa. pose proof (sqrt_sqrt _ Hb) as Hsb.
  unfold row_norm, handle_zeros_in_scale.
  set (na := sqrt (dot a a)) in *. set (nb := sqrt (dot b b)) in *.
  assert (dot a b <= na * nb) as Hle.
  { destruct (Rle_dec (dot a b) 0); [nra | ].
    assert (dot a b * dot a b <= (na * nb) * (na * nb)) by nra.
    assert (0 <= na * nb) by nra. nra. }
  destruct (Req_dec_T na 0) as [E1 | E1]; destruct (Req_dec_T nb 0) as [E2 | E2].
  - assert (dot a b <= 0) by nra. unfold Rdiv. rewrite Rmult_1_l, Rinv_1. lra.
  - assert (dot a b <= 0) by nra.
    apply Rle_trans with 0; [ | lra].
    unfold Rdiv. rewrite Rmult_1_l.
    assert (0 < / nb) by (apply Rinv_0_lt_compat; lra). nra.
  - assert (dot a b <= 0) by nra.
    apply Rle_trans with 0; [ | lra].
    unfold Rdiv. rewrite Rmult_1_r.
    assert (0 < / na) by (apply Rinv_0_lt_compat; lra). nra.
  - assert (0 < na * nb) as Hpos by nra.
    assert (0 < / (na * nb)) as Hinv by now apply Rinv_0_lt_compat.
    rewrite <- (Rinv_r (na * nb)) by lra.
    unfold Rdiv. apply Rmult_le_compat_r; lra.
Qed.

(** A coordinate that is zero in the first row adds nothing to the dot
    product. *)
Lemma dot_delete j a b : a !! j = Some 0 -> dot (delete j a) (delete j b) = dot a b.
Proof.
  revert a b. induction j as [ | j IH]; intros [ | x a] b Hj; try discriminate.
  - simpl in Hj. injection Hj as ->. destruct b as [ | y b].
    + simpl. now rewrite !dot_nil_r.
    + simpl. rewrite dot_cons. lra.
  - destruct b as [ | y b].
    + simpl. now rewrite !dot_nil_r.
    + simpl. rewrite !dot_cons. f_equal. now apply IH.
Qed.

(** Removing a coordinate that is zero in both rows leaves their cosine
    similarity unchanged. *)
Lemma cosine_delete j a b :
  a !! j = Some 0 -> b !! j = Some 0 ->
  dot (normalize (delete j a)) (normalize (delete j b))
  = dot (normalize a) (normalize b).
Proof.
  intros Ha Hb. rewrite !dot_normalize. unfold row_norm.
  now rewrite !dot_delete.
Qed.

End SklearnFacts.

(** ** pandas: drop_duplicates *)

Section DedupFacts.
Context {A : Type}.
Variable key : A -> string.

Abbreviation dedup_from := (Pandas.drop_duplicates_from key).

Lemma drop_duplicates_from_elem seen l x :
  x ∈ dedup_from seen l -> x ∈ l /\ key x ∉ seen.
Proof.
  revert seen. induction l as [ | y t IH]; intros seen; simpl.
  - intros H. now apply not_elem_of_nil in H.
  - destruct (decide (key y ∈ seen)) as [Hin | Hout].
    + intros H. destruct (IH _ H) as [H1 H2]. split; [now right | exact H2].
    + intros H. apply elem_of_cons in H. destruct H as [-> | H].
      * split; [now left | exact Hout].
      * destruct (IH _ H) as [H1 H2]. split; [now right | ].
        intros Hs. apply H2, elem_of_union. now right.
Qed.

Lemma drop_duplicates_from_NoDup seen l : NoDup (map key (dedup_from seen l)).
Proof.
  revert seen. induction l as [ | y t IH]; intros seen; simpl.
  - constructor.
  - destruct (decide (key y ∈ seen)); [apply IH | ].
    simpl. constructor; [ | apply IH].
    intros Hin. apply list_elem_of_fmap in Hin. destruct Hin as (x & Hk & Hx).
    destruct (drop_duplicates_from_elem _ _ _ Hx) as [_ Hx']. set_solver.
Qed.

Lemma drop_duplicates_from_sublist seen l : dedup_from seen l `sublist_of` l.
Proof.
  revert seen. induction l as [ | y t IH]; intros seen; simpl.
  - constructor.
  - destruct (decide (key y ∈ seen)).
    + apply sublist_cons, IH.
    + apply sublist_skip, IH.
Qed.

Lemma drop_duplicates_from_seen k seen l :
  k ∈ seen -> filter (fun y => key y = k) (dedup_from seen l) = [].
Proof.
  intros Hk. revert seen Hk. induction l as [ | y t IH]; intros seen Hk; simpl.
  - reflexivity.
  - destruct (decide (key y ∈ seen)); [now apply IH | ].
    rewrite filter_cons. destruct (decide (key y = k)) as [E | E].
    + subst k. contradiction.
    + apply IH. set_solver.
Qed.

(** Of the rows with one key, the earliest is the one kept. *)
Lemma drop_duplicates_from_first k seen l :
  k ∉ seen ->
  filter (fun y => key y = k) (dedup_from seen l)
  = option_list (head (filter (fun y => key y = k) l)).
Proof.
  revert seen. induction l as [ | y t IH]; intros seen Hk; simpl.
  - reflexivity.
  - rewrite (filter_cons _ y t).
    destruct (decide (key y ∈ seen)) as [Hin | Hout].
    + destruct (decide (key y = k)) as [E | E]; [congruence | ]. now apply IH.
    + rewrite filter_cons.
      destruct (decide (key y = k)) as [E | E]; simpl.
      * f_equal. apply drop_duplicates_from_seen.
        apply elem_of_union. left. now apply elem_of_singleton.
      * apply IH. intros Hs. apply elem_of_union in Hs. destruct Hs as [Hs | Hs].
        -- apply elem_of_singleton in Hs. congruence.
        -- contradiction.
Qed.

Lemma drop_duplicates_first l x :
  x ∈ Pandas.drop_duplicates key l ->
  head (filter (fun y => key y = key x) l) = Some x.
Proof.
  intros Hx. unfold Pandas.drop_duplicates in Hx.
  assert (x ∈ filter (fun y => key y = key x) (dedup_from ∅ l)) as Hf.
  { apply list_elem_of_filter. split; [reflexivity | exact Hx]. }
  rewrite drop_duplicates_from_first in Hf by set_solver.
  destruct (head (filter (fun y => key y = key x) l)) as [z | ]; simpl in Hf.
  - apply list_elem_of_singleton in Hf. now subst.
  - now apply not_elem_of_nil in Hf.
Qed.

Lemma drop_duplicates_complete l x :
  x ∈ l -> key x ∈ map key (Pandas.drop_duplicates key l).
Proof.
  intros Hx. unfold Pandas.drop_duplicates.
  pose proof (drop_duplicates_from_first (key x) ∅ l) as Hf.
  assert (x ∈ filter (fun y => key y = key x) l) as Hin.
  { apply list_elem_of_filter. split; [reflexivity | exact Hx]. }
  destruct (filter (fun y => key y = key x) l) as [ | z f] eqn:E;
    [now apply not_elem_of_nil in Hin | ].
  simpl in Hf. specialize (Hf ltac:(set_solver)).
  assert (z ∈ filter (fun y => key y = key x) (dedup_from ∅ l)) as Hz.
  { rewrite Hf. now left. }
  apply list_elem_of_filter in Hz. destruct Hz as [Hk Hz].
  rewrite <- Hk. apply list_elem_of_fmap. now exists z.
Qed.

End DedupFacts.

(** ** Aggregation (app.py 238-244) *)

(** C3.  The merged candidate pool holds no row with the seed's id and no two
    rows with one id; each row kept is the earliest row with its id in the
    concatenation of the strategy results, every other id of the
    concatenation is represented, and the pool keeps the concatenation's
    order. *)
Theorem C3_merge_excludes_seed_and_duplicates (seed : details) (all_tracks : list frame) :
  let ids := fun r : row => track_id (track r) in
  let pool := App.merge seed all_tracks in
  (track_id seed ∉ map ids pool)
  /\ NoDup (map ids pool)
  /\ (forall r, r ∈ pool ->
        head (filter (fun y => ids y = ids r) (concat all_tracks)) = Some r)
  /\ (forall r, r ∈ concat all_tracks -> ids r <> track_id seed -> ids r ∈ map ids pool)
  /\ pool `sublist_of` concat all_tracks.
Proof.
  intros ids pool. unfold pool, App.merge. fold ids.
  set (kept := filter (fun r => ids r <> track_id seed) (concat all_tracks)).
  repeat split.
  - intros Hin. apply list_elem_of_fmap in Hin. destruct Hin as (r & Hid & Hr).
    destruct (drop_duplicates_from_elem _ _ _ _ Hr) as [Hr' _].
    apply list_elem_of_filter in Hr'. destruct Hr' as [Hne _].
    apply Hne. now symmetry.
  - apply drop_duplicates_from_NoDup.
  - intros r Hr.
    pose proof (drop_duplicates_first ids kept r Hr) as Hfirst.
    assert (ids r <> track_id seed) as Hne.
    { destruct (drop_duplicates_from_elem _ _ _ _ Hr) as [Hr' _].
      apply list_elem_of_filter in Hr'. now destruct Hr' as [Hne _]. }
    rewrite <- Hfirst. f_equal. unfold kept.
    rewrite list_filter_filter. apply list_filter_iff.
    intros y. split; [ | tauto]. intros E. split; [exact E | congruence].
  - intros r Hr Hne. apply drop_duplicates_complete.
    apply list_elem_of_filter. now split.
  - etransitivity; [apply drop_duplicates_from_sublist | apply sublist_filter].
Qed.

(** ** Ranking (app.py 279, utils.py 249-252) *)

Lemma sim_ltb_asym a b : sim_ltb a b = true -> sim_ltb b a = false.
Proof.
  destruct a as [x | ], b as [y | ]; simpl; try congruence.
  destruct (Rlt_dec x y), (Rlt_dec y x); try congruence. lra.
Qed.

Lemma sim_ltb_negtrans a b c :
  sim_ltb a b = false -> sim_ltb b c = false -> sim_ltb a c = false.
Proof.
  destruct a as [x | ], b as [y | ], c as [z | ]; simpl; try congruence.
  destruct (Rlt_dec x y), (Rlt_dec y z), (Rlt_dec x z); try congruence. lra.
Qed.

Lemma sim_ltb_false_le a b x y :
  sim_ltb a b = false -> a = Some x -> b = Some y -> (y <= x)%R.
Proof.
  intros H -> ->. simpl in H. destruct (Rlt_dec x y); [discriminate | lra].
Qed.

Lemma StronglySorted_weaken {A} (R1 R2 : A -> A -> Prop) l :
  (forall a b, R1 a b -> R2 a b) -> StronglySorted R1 l -> StronglySorted R2 l.
Proof.
  intros Himp. induction 1 as [ | x t Hs IH Hx]; constructor; [exact IH | ].
  eapply Forall_impl; [exact Hx | ]. intros y. apply Himp.
Qed.

Lemma firstn_min {A} n (l : list A) : firstn (n `min` length l) l = firstn n l.
Proof.
  destruct (Nat.le_ge_cases n (length l)) as [H | H].
  - now rewrite Nat.min_l.
  - rewrite Nat.min_r by exact H. now rewrite !firstn_all2.
Qed.

Lemma top_nlargest n df : App.top n df = Pandas.nlargest similarity sim_ltb n df.
Proof.
  unfold App.top, Pandas.nlargest.
  rewrite <- (Permutation_length (sort_desc_perm similarity sim_ltb df)).
  apply firstn_min.
Qed.

(** [nlargest] on integer keys: [b] first, then [d], then the earlier of
    the two rows with key 5. *)
Example nlargest_three_of_four :
  Pandas.nlargest snd Z.ltb 3 [("a", 5%Z); ("b", 9%Z); ("c", 5%Z); ("d", 7%Z)]
  = [("b", 9%Z); ("d", 7%Z); ("a", 5%Z)].
Proof. reflexivity. Qed.

(** In a sorted list every row of an initial part stands in the order
    relation to every row after that part. *)
Lemma StronglySorted_app_cross {A} (R : A -> A -> Prop) (l1 l2 : list A) :
  StronglySorted R (l1 ++ l2) -> Forall (fun a => Forall (R a) l2) l1.
Proof.
  induction l1 as [ | a t IH]; cbn [app]; intros Hs; [constructor | ].
  apply StronglySorted_inv in Hs. destruct Hs as [Ht Ha].
  constructor; [ | now apply IH].
  apply Forall_app in Ha. now destruct Ha.
Qed.

(** C5.  The recommendation list of both rankers is [nlargest] on the
    similarity column.  It has [min n (pool size)] rows, in descending order
    of similarity; rows of equal similarity stand in their pool order; its
    rows are rows of the pool, and all of them when [n] is at least the pool
    size.  The list is cut from the sorted pool: it is the first [n] rows of
    the pool sorted in descending order of similarity with equal
    similarities in pool order, so that no row left out has a higher
    similarity than a row returned. *)
Theorem C5_ranking_sorted_stable_truncated (n : nat) (df : frame) :
  let out := Pandas.nlargest similarity sim_ltb n df in
  let sorted := Pandas.sort_desc similarity sim_ltb df in
  let rest := skipn n sorted in
  App.top n df = out
  /\ (Utils.nlargest_similarity n df = inr out
      \/ Forall (fun r => similarity r = None) df)
  /\ length out = n `min` length df
  /\ StronglySorted
       (fun a b => forall x y, similarity a = Some x -> similarity b = Some y -> (y <= x)%R)
       out
  /\ (forall v, filter (fun r => similarity r = v) out
                `prefix_of` filter (fun r => similarity r = v) df)
  /\ out ⊆+ df
  /\ (length df <= n -> out ≡ₚ df)
  /\ out = firstn n sorted
  /\ out ++ rest ≡ₚ df
  /\ StronglySorted (fun a b => sim_ltb (similarity a) (similarity b) = false) (out ++ rest)
  /\ (forall v, filter (fun r => similarity r = v) (out ++ rest)
                = filter (fun r => similarity r = v) df)
  /\ Forall (fun a =>
               Forall (fun b =>
                         sim_ltb (similarity a) (similarity b) = false
                         /\ forall x y, similarity a = Some x -> similarity b = Some y ->
                                         (y <= x)%R)
                      rest)
            out.
Proof.
  intros out sorted rest.
  assert (out ++ rest = sorted) as Hcut by apply firstn_skipn.
  assert (StronglySorted (fun a b => sim_ltb (similarity a) (similarity b) = false) sorted)
    as Hsorted
    by apply (sort_desc_sorted similarity sim_ltb sim_ltb_asym sim_ltb_negtrans).
  unfold out. repeat split.
  - apply top_nlargest.
  - unfold Utils.nlargest_similarity. case_bool_decide as Hsome; [now left | right].
    apply Forall_forall. intros r Hr.
    destruct (similarity r) as [s | ] eqn:E; [ | reflexivity].
    exfalso. apply Hsome, Exists_exists. exists r. split; [exact Hr | ].
    rewrite E. now exists s.
  - apply nlargest_length.
  - eapply StronglySorted_weaken;
      [ | apply (nlargest_sorted similarity sim_ltb sim_ltb_asym sim_ltb_negtrans)].
    intros a b Hab x y Hx Hy. eapply sim_ltb_false_le; eauto.
  - intros v. apply (nlargest_stable similarity sim_ltb sim_ltb_asym).
  - apply nlargest_submseteq.
  - apply nlargest_all.
  - fold out. rewrite Hcut. apply sort_desc_perm.
  - fold out. rewrite Hcut. exact Hsorted.
  - intros v. fold out. rewrite Hcut.
    apply (sort_desc_stable similarity sim_ltb sim_ltb_asym).
  - fold out. rewrite <- Hcut in Hsorted. apply StronglySorted_app_cross in Hsorted.
    eapply Forall_impl; [exact Hsorted | ]. intros a Ha.
    eapply Forall_impl; [exact Ha | ]. intros b Hab. cbv beta in Hab.
    split; [exact Hab | ]. intros x y Hx Hy. eapply sim_ltb_false_le; eauto.
Qed.

(** ** Filter stage (app.py 250-259, utils.py 182-214) *)

Lemma filter_Forall_id {A} (P : A -> Prop) `{forall x, Decision (P x)} (l : list A) :
  Forall P l -> filter P l = l.
Proof.
  induction 1 as [ | x t Hx Ht IH]; [reflexivity | ].
  rewrite filter_cons. destruct (decide (P x)); [ | contradiction].
  now rewrite IH.
Qed.

Lemma map_Forall_id {A} (f : A -> A) (l : list A) :
  Forall (fun x => f x = x) l -> map f l = l.
Proof. induction 1 as [ | x t Hx Ht IH]; simpl; congruence. Qed.

Lemma Forall_filter_elem {A} (P Q : A -> Prop) `{forall x, Decision (P x)} (l : list A) :
  Forall Q l -> Forall Q (filter P l).
Proof.
  intros HQ. apply Forall_forall. intros x Hx.
  apply list_elem_of_filter in Hx. destruct Hx as [_ Hx].
  eapply Forall_forall in HQ; eauto.
Qed.

Lemma Forall_filter_holds {A} (P : A -> Prop) `{forall x, Decision (P x)} (l : list A) :
  Forall P (filter P l).
Proof.
  apply Forall_forall. intros x Hx. apply list_elem_of_filter in Hx. tauto.
Qed.

Section FilterFacts.
Variable to_year : string -> option Z.

Lemma with_year_idem r : with_year to_year (with_year to_year r) = with_year to_year r.
Proof. reflexivity. Qed.

Lemma year_within_with_year rng r :
  year_within rng (with_year to_year r) <-> year_accepted to_year rng (track r).
Proof. unfold year_within, year_accepted, with_year. simpl. reflexivity. Qed.

(** The year filter of app.py keeps exactly the rows the specification
    accepts, in order, each with its parsed year in the new column. *)
Lemma app_filter_year_spec rng df :
  App.filter_year to_year rng df
  = map (with_year to_year) (filter (fun r => year_accepted to_year rng (track r)) df).
Proof.
  unfold App.filter_year. induction df as [ | r t IH]; [reflexivity | ].
  cbn [map]. rewrite (filter_cons _ r t), (filter_cons _ (with_year to_year r)).
  destruct (decide (is_Some (year (with_year to_year r)))) as [Hs | Hn].
  - rewrite filter_cons.
    destruct (decide (year_within rng (with_year to_year r))) as [Hy | Hy];
      destruct (decide (year_accepted to_year rng (track r))) as [Ha | Ha].
    + cbn [map]. now rewrite IH.
    + now apply year_within_with_year in Hy.
    + now apply year_within_with_year in Ha.
    + exact IH.
  - destruct (decide (year_accepted to_year rng (track r))) as [Ha | Ha]; [ | exact IH].
    exfalso. apply Hn. unfold year_accepted in Ha. unfold with_year. simpl.
    destruct (to_year (release_date (track r))); [eauto | contradiction].
Qed.

(** What every row that leaves the year filter satisfies. *)
Definition year_filtered (rng : Z * Z) (r : row) : Prop :=
  with_year to_year r = r /\ year_accepted to_year rng (track r).

Lemma app_filter_year_rows rng df :
  Forall (year_filtered rng) (App.filter_year to_year rng df).
Proof.
  rewrite app_filter_year_spec. apply Forall_fmap.
  eapply Forall_impl; [apply Forall_filter_holds | ].
  intros r Hr. split; [apply with_year_idem | exact Hr].
Qed.

Lemma app_filter_year_fixed rng df :
  Forall (year_filtered rng) df -> App.filter_year to_year rng df = df.
Proof.
  intros Hdf. rewrite app_filter_year_spec.
  rewrite (filter_Forall_id (fun r => year_accepted to_year rng (track r))).
  - apply map_Forall_id. eapply Forall_impl; [exact Hdf | ]. now intros r [Hr _].
  - eapply Forall_impl; [exact Hdf | ]. now intros r [_ Hr].
Qed.

Lemma app_filter_year_popularity p rng df :
  Forall (popularity_within p) df ->
  Forall (popularity_within p) (App.filter_year to_year rng df).
Proof.
  intros Hp. rewrite app_filter_year_spec. apply Forall_fmap.
  apply Forall_filter_elem. exact Hp.
Qed.

(** Both filters of app.py leave their own output unchanged. *)
Lemma app_apply_filters_idempotent filters df :
  App.apply_filters to_year filters (App.apply_filters to_year filters df)
  = App.apply_filters to_year filters df.
Proof.
  destruct filters as [[[p | ] [y | ]] | ]; unfold App.apply_filters;
    cbn [popularity_range year_range]; try reflexivity.
  - unfold App.filter_popularity.
    rewrite (filter_Forall_id (popularity_within p) (App.filter_year _ _ _)).
    + apply app_filter_year_fixed, app_filter_year_rows.
    + apply app_filter_year_popularity, Forall_filter_holds.
  - unfold App.filter_popularity. apply filter_Forall_id, Forall_filter_holds.
  - apply app_filter_year_fixed, app_filter_year_rows.
Qed.

(** utils.py: [to_datetime] succeeds exactly when every date parses. *)
Lemma to_datetime_year_inr column years :
  Utils.to_datetime_year to_year column = inr years ->
  map to_year column = map Some years.
Proof.
  unfold Utils.to_datetime_year. revert years.
  induction column as [ | s t IH]; intros years; simpl.
  - intros [= <-]. reflexivity.
  - destruct (to_year s) as [y | ]; simpl; [ | discriminate].
    destruct (comprehension _ t) as [e | ys]; simpl; [discriminate | ].
    intros [= <-]. simpl. f_equal. now apply IH.
Qed.

Lemma to_datetime_year_total column :
  Forall (fun s => is_Some (to_year s)) column ->
  exists years, Utils.to_datetime_year to_year column = inr years.
Proof.
  unfold Utils.to_datetime_year.
  induction 1 as [ | s t [y Hy] Ht [ys IH]]; simpl; [now exists [] | ].
  rewrite Hy. simpl. rewrite IH. simpl. now exists (y :: ys).
Qed.

(** utils.py: a date that does not parse makes [to_datetime] raise. *)
Lemma to_datetime_year_raises column :
  Exists (fun s => to_year s = None) column ->
  exists e, Utils.to_datetime_year to_year column = inl e.
Proof.
  unfold Utils.to_datetime_year.
  induction column as [ | s t IH]; intros Hex; [now apply Exists_nil in Hex | ].
  simpl. destruct (to_year s) as [y | ] eqn:E; simpl; [ | eauto].
  apply Exists_cons in Hex. destruct Hex as [Hs | Ht]; [congruence | ].
  destruct (IH Ht) as [e He]. rewrite He. simpl. eauto.
Qed.

Lemma map_to_year_Some (column : list string) years :
  map to_year column = map Some years ->
  Forall (fun s => is_Some (to_year s)) column.
Proof.
  revert years. induction column as [ | s t IH]; intros [ | y ys]; simpl;
    try discriminate; [constructor | ].
  intros [= Hy Hrest]. constructor; [rewrite Hy; eauto | eapply IH; eauto].
Qed.

Lemma zip_with_years (df : frame) years :
  map to_year (map (fun r => release_date (track r)) df) = map Some years ->
  zip_with (fun r y => set_year (Some y) r) df years = map (with_year to_year) df.
Proof.
  revert years. induction df as [ | r t IH]; intros [ | y ys]; simpl;
    try discriminate; [reflexivity | ].
  intros [= Hy Hrest]. unfold with_year at 1. rewrite Hy. f_equal. now apply IH.
Qed.

(** When it returns, the year filter of utils.py returns what the year
    filter of app.py returns. *)
Lemma utils_apply_filters_year df p rng out :
  Utils.apply_filters to_year df p (Some rng) = inr out ->
  out = App.filter_year to_year rng
          (match p with Some pr => filter (popularity_within pr) df | None => df end).
Proof.
  unfold Utils.apply_filters.
  set (fdf := match p with Some pr => filter (popularity_within pr) df | None => df end).
  destruct (Utils.to_datetime_year to_year _) as [e | years] eqn:E; simpl; [discriminate | ].
  intros [= <-]. apply to_datetime_year_inr in E.
  rewrite (zip_with_years _ _ E).
  unfold App.filter_year.
  rewrite (filter_Forall_id (fun r => is_Some (year r)) (map _ fdf)); [reflexivity | ].
  apply map_to_year_Some in E.
  pose proof (proj1 (Forall_fmap _ _ _) E) as Hparsed.
  apply Forall_fmap. eapply Forall_impl; [exact Hparsed | ].
  intros r Hr. exact Hr.
Qed.

End FilterFacts.

Section FilterClaims.
Variable to_year : string -> option Z.

Lemma utils_apply_filters_fixed p rng out :
  Forall (year_filtered to_year rng) out ->
  match p with Some pr => Forall (popularity_within pr) out | None => True end ->
  Utils.apply_filters to_year out p (Some rng) = inr out.
Proof.
  intros Hy Hp.
  assert (Utils.apply_filters to_year out p (Some rng)
          = Utils.apply_filters to_year out None (Some rng)) as ->.
  { destruct p as [pr | ]; [ | reflexivity].
    unfold Utils.apply_filters. now rewrite (filter_Forall_id (popularity_within pr)). }
  unfold Utils.apply_filters.
  destruct (to_datetime_year_total to_year (map (fun r => release_date (track r)) out))
    as [years Hyears].
  { apply Forall_fmap. eapply Forall_impl; [exact Hy | ].
    intros r [_ Hr]. unfold year_accepted in Hr. simpl.
    destruct (to_year (release_date (track r))); [eauto | contradiction]. }
  rewrite Hyears. simpl.
  rewrite (zip_with_years to_year _ _ (to_datetime_year_inr _ _ _ Hyears)).
  rewrite map_Forall_id by (eapply Forall_impl; [exact Hy | ]; now intros r [Hr _]).
  f_equal. apply filter_Forall_id. eapply Forall_impl; [exact Hy | ].
  intros r [Hr Ha]. rewrite <- Hr. now apply year_within_with_year.
Qed.

Lemma utils_apply_filters_idempotent df p y :
  exc_bind (Utils.apply_filters to_year df p y)
           (fun out => Utils.apply_filters to_year out p y)
  = Utils.apply_filters to_year df p y.
Proof.
  destruct y as [rng | ].
  - destruct (Utils.apply_filters to_year df p (Some rng)) as [e | out] eqn:E;
      [reflexivity | ].
    simpl. apply utils_apply_filters_year in E. subst out.
    apply utils_apply_filters_fixed; [apply app_filter_year_rows | ].
    destruct p as [pr | ]; [ | exact I].
    apply app_filter_year_popularity, Forall_filter_holds.
  - unfold Utils.apply_filters. simpl. destruct p as [pr | ]; [ | reflexivity].
    f_equal. apply filter_Forall_id, Forall_filter_holds.
Qed.

End FilterClaims.

(** C9.  Filtering a filtered pool again with the same spec changes
    nothing, the derived year column included: in app.py as an equation on
    frames, in utils.py also when the filter raises (the second application
    is then not reached). *)
Theorem C9_filter_idempotent (to_year : string -> option Z)
    (filters : option filter_spec) (p y : option (Z * Z)) (df : frame) :
  App.apply_filters to_year filters (App.apply_filters to_year filters df)
  = App.apply_filters to_year filters df
  /\ exc_bind (Utils.apply_filters to_year df p y)
              (fun out => Utils.apply_filters to_year out p y)
     = Utils.apply_filters to_year df p y.
Proof.
  split.
  - apply app_apply_filters_idempotent.
  - apply utils_apply_filters_idempotent.
Qed.

(** The year filter of app.py on the sample frame: the row whose date
    does not parse is dropped, the other two are kept with their year. *)
Example app_year_filter_drops_unparseable :
  App.apply_filters Samples.iso_year
    (Some {| popularity_range := None; year_range := Some (1990, 2020)%Z |})
    Samples.dated
  = [ {| track := Samples.song "t1" 50 "2015-06-01" ∅; year := Some 2015%Z;
         similarity := None |};
      {| track := Samples.song "t3" 70 "1999" ∅; year := Some 1999%Z;
         similarity := None |} ].
Proof. reflexivity. Qed.

(** C6, the year filter of app.py: no date makes it fail, and it returns
    exactly the rows whose release date parses to a year within the range,
    in pool order, the parsed year recorded in the [year] column. *)
Theorem C6_app_year_filter_drops_unparseable (to_year : string -> option Z)
    (rng : Z * Z) (df : frame) :
  App.filter_year to_year rng df
  = map (with_year to_year) (filter (fun r => year_accepted to_year rng (track r)) df).
Proof. apply app_filter_year_spec. Qed.

(** C6, the year filter of utils.py: on the sample frame the date
    "unknown" makes the whole filter raise. *)
Theorem C6_utils_year_filter_raises :
  Utils.apply_filters Samples.iso_year Samples.dated None (Some (1990, 2020)%Z)
  = inl "Unknown datetime string format: unknown".
Proof. reflexivity. Qed.

(** utils.py: any date that does not parse, in a row that passed the
    popularity filter, makes [apply_filters] raise. *)
Lemma utils_year_filter_raises (to_year : string -> option Z) df rng :
  Exists (fun r => to_year (release_date (track r)) = None) df ->
  exists e, Utils.apply_filters to_year df None (Some rng) = inl e.
Proof.
  intros Hex. unfold Utils.apply_filters.
  destruct (to_datetime_year_raises to_year (map (fun r => release_date (track r)) df))
    as [e He].
  { apply Exists_fmap. exact Hex. }
  rewrite He. simpl. eauto.
Qed.

(** ** Mood entry points (app.py 286-313, utils.py 341-378) *)

(** Unfolds the plumbing of the [Catalog] monad. *)
Ltac run_catalog :=
  cbv beta iota zeta delta [try_except tbind lift tret bind ret request].

Lemma mood_queries_invalid mood :
  mood ∉ recognized_moods -> App.mood_queries !! mood = None.
Proof.
  intros Hm. unfold App.mood_queries.
  repeat (rewrite lookup_insert_ne;
          [ | intros <-; apply Hm, list_elem_of_In; simpl; tauto ]).
  apply lookup_singleton_ne.
  intros <-; apply Hm, list_elem_of_In; simpl; tauto.
Qed.

Lemma mood_queries_valid mood :
  mood ∈ recognized_moods -> is_Some (App.mood_queries !! mood).
Proof.
  intros Hm. unfold recognized_moods in Hm.
  repeat (apply elem_of_cons in Hm; destruct Hm as [-> | Hm]; [now eexists | ]).
  now apply not_elem_of_nil in Hm.
Qed.

Lemma MOOD_PARAMETERS_invalid mood :
  mood ∉ recognized_moods -> Utils.MOOD_PARAMETERS !! mood = None.
Proof.
  intros Hm. unfold Utils.MOOD_PARAMETERS.
  repeat (rewrite lookup_insert_ne;
          [ | intros <-; apply Hm, list_elem_of_In; simpl; tauto ]).
  apply lookup_singleton_ne.
  intros <-; apply Hm, list_elem_of_In; simpl; tauto.
Qed.

(** For a recognized mood app.py never reports "Invalid mood": its error
    is absent or starts with "Error: ". *)
Lemma app_valid_mood_error sp mood n log :
  mood ∈ recognized_moods ->
  (App.get_mood_based_recommendations sp mood n log).1.2 <> Some "Invalid mood".
Proof.
  intros Hm. destruct (mood_queries_valid mood Hm) as [query Hq].
  unfold App.get_mood_based_recommendations. rewrite Hq.
  run_catalog.
  destruct (search sp query (n * 2)) as [e | items]; run_catalog; [discriminate | ].
  match goal with
  | |- context [App.collect_until ?c ?t ?k ?acc ?l] =>
      destruct (App.collect_until c t k acc l) as [ds log']
  end.
  simpl. discriminate.
Qed.

(** C7, the claim fails in utils.py: for the unrecognized label "upbeat"
    the caller gets the empty frame, which is also what the recognized label
    "happy" yields when the catalog has no track for it. *)
Lemma C7_utils_invalid_mood_is_silent :
  ("upbeat" ∉ recognized_moods) /\ "happy" ∈ recognized_moods
  /\ (Utils.get_mood_recommendations Samples.sp_empty "upbeat" 5 []).1 = DataFrame []
  /\ (Utils.get_mood_recommendations Samples.sp_empty "happy" 5 []).1 = DataFrame [].
Proof.
  repeat split; try reflexivity; unfold recognized_moods;
    [ | apply list_elem_of_In; simpl; tauto].
  intros H. repeat (apply elem_of_cons in H; destruct H as [H | H]; [discriminate | ]).
  now apply not_elem_of_nil in H.
Qed.

(** C7, amended.  For a label outside the five moods neither entry point
    sends a request.  app.py returns the empty frame with the error "Invalid
    mood", an error it reports for no recognized mood; utils.py returns the
    empty frame and nothing else. *)
Theorem C7_invalid_mood_no_request (sp : Spotify) (mood : string) (n : nat)
    (log : list api_call) :
  mood ∉ recognized_moods ->
  App.get_mood_based_recommendations sp mood n log
  = ((DataFrame [], Some "Invalid mood"), log)
  /\ (forall valid n' log', valid ∈ recognized_moods ->
        (App.get_mood_based_recommendations sp valid n' log').1.2 <> Some "Invalid mood")
  /\ Utils.get_mood_recommendations sp mood n log = (DataFrame [], log).
Proof.
  intros Hm. repeat split.
  - unfold App.get_mood_based_recommendations. now rewrite mood_queries_invalid.
  - intros valid n' log' Hv. now apply app_valid_mood_error.
  - unfold Utils.get_mood_recommendations. now rewrite MOOD_PARAMETERS_invalid.
Qed.

Lemma C7_invalid_mood_witness :
  App.get_mood_based_recommendations Samples.sp_empty "upbeat" 5 []
  = ((DataFrame [], Some "Invalid mood"), [])
  /\ Utils.get_mood_recommendations Samples.sp_empty "upbeat" 5 [] = (DataFrame [], []).
Proof.
  destruct (C7_invalid_mood_no_request Samples.sp_empty "upbeat" 5 []) as (Ha & _ & Hu).
  - intros H. unfold recognized_moods in H.
    repeat (apply elem_of_cons in H; destruct H as [H | H]; [discriminate | ]).
    now apply not_elem_of_nil in H.
  - now split.
Defined.

(** ** Track record normalizers (app.py 124-160, utils.py 62-106) *)

Lemma comprehension_total {A B} (f : A -> exc B) (g : A -> bool) (l : list A) :
  (forall a, g a = true -> exists b, f a = inr b) ->
  forallb g l = true -> exists bs, comprehension f l = inr bs.
Proof.
  intros Hf. induction l as [ | a t IH]; simpl; [now exists [] | ].
  intros Hl. apply andb_true_iff in Hl. destruct Hl as [Ha Ht].
  destruct (Hf a Ha) as [b Hb]. destruct (IH Ht) as [bs Hbs].
  rewrite Hb, Hbs. simpl. now exists (b :: bs).
Qed.

Lemma present_Some {A} (o : option A) : present o = true -> exists a, o = Some a.
Proof. destruct o; [eauto | discriminate]. Qed.

(** With the required keys present, the metadata part of both
    normalizers is built and the artist ids can be read. *)
Lemma metadata_total track :
  has_required_metadata track = true ->
  exists id d artists ids,
    raw_id track = Some id /\ metadata track = inr d /\ track_id d = id
    /\ features d = ∅
    /\ raw_artists track = Some artists
    /\ comprehension (fun a => getitem "id" (artist_id a)) artists = inr ids.
Proof.
  unfold has_required_metadata. intros H.
  repeat (apply andb_true_iff in H; destruct H as [H ?]).
  destruct track as [rid rname rart ralb rprev rpop rdur rext]; simpl in *.
  destruct rart as [artists | ]; [ | discriminate].
  destruct ralb as [[aname aimgs arel] | ]; [ | discriminate].
  destruct rext as [urls | ]; [ | discriminate].
  simpl in *.
  repeat match goal with
         | Hb : _ && _ = true |- _ => apply andb_true_iff in Hb; destruct Hb
         end.
  repeat match goal with
         | Hb : present ?o = true |- _ => apply present_Some in Hb; destruct Hb as [? ?]
         end.
  subst.
  destruct (comprehension_total (fun a => getitem "name" (artist_name a))
              (fun a => present (artist_name a) && present (artist_id a)) artists)
    as [names Hnames]; [ | assumption | ].
  { intros a Ha. apply andb_true_iff in Ha. destruct Ha as [Ha _].
    apply present_Some in Ha. destruct Ha as [s Hs]. rewrite Hs. now exists s. }
  destruct (comprehension_total (fun a => getitem "id" (artist_id a))
              (fun a => present (artist_name a) && present (artist_id a)) artists)
    as [ids Hids]; [ | assumption | ].
  { intros a Ha. apply andb_true_iff in Ha. destruct Ha as [_ Ha].
    apply present_Some in Ha. destruct Ha as [s Hs]. rewrite Hs. now exists s. }
  destruct aimgs as [[ | first rest] | ]; try discriminate; simpl in *.
  - unfold metadata. simpl. rewrite Hnames. simpl.
    match goal with Hu : _ !! "spotify" = Some _ |- _ => rewrite Hu end. simpl.
    do 4 eexists. repeat split; eauto.
  - match goal with
    | Hb : present (image_url_field first) = true |- _ =>
        apply present_Some in Hb; destruct Hb as [u Hu]
    end.
    unfold metadata. simpl. rewrite Hnames. simpl. rewrite Hu. simpl.
    match goal with Hs : _ !! "spotify" = Some _ |- _ => rewrite Hs end. simpl.
    do 4 eexists. repeat split; eauto.
Qed.

Lemma feature_defaults_NoDup : NoDup (App.feature_defaults.*1).
Proof. apply (bool_decide_unpack _). reflexivity. Qed.

Lemma audio_keys_NoDup : NoDup Utils.audio_keys.
Proof. apply (bool_decide_unpack _). reflexivity. Qed.

(** app.py: every feature entry is the raw value, or its default when the
    raw object has no such key. *)
Lemma with_defaults_lookup audio k dflt :
  (k, dflt) ∈ App.feature_defaults ->
  App.with_defaults audio !! k = Some (default dflt (audio !! k)).
Proof.
  intros Hk. unfold App.with_defaults. apply elem_of_list_to_map_1.
  - rewrite <- list_fmap_compose. exact feature_defaults_NoDup.
  - apply list_elem_of_fmap. now exists (k, dflt).
Qed.

Lemma app_get_audio_features_run sp id log :
  App.get_audio_features sp id log
  = (match audio_features sp id with
     | inr (Some f :: _) =>
         if bool_decide (size f = 0%nat) then (∅, Some "No audio features")
         else (f, None)
     | inr _ => (∅, Some "No audio features")
     | inl e => (∅, Some ("Error: " +:+ e))
     end, log ++ [AudioFeatures id]).
Proof.
  unfold App.get_audio_features. run_catalog.
  destruct (audio_features sp id) as [e | [ | [f | ] rest]]; reflexivity.
Qed.

Lemma app_get_track_details_run sp track log id d artists ids :
  raw_id track = Some id -> metadata track = inr d ->
  raw_artists track = Some artists ->
  comprehension (fun a => getitem "id" (artist_id a)) artists = inr ids ->
  App.get_track_details sp track log
  = ((Some (set_features (App.with_defaults (App.get_audio_features sp id log).1.1)
              (set_artist_ids (Some ids) d)), None),
     log ++ [AudioFeatures id]).
Proof.
  intros Hid Hd Hart Hids. unfold App.get_track_details. rewrite Hid.
  run_catalog. cbn [getitem]. rewrite app_get_audio_features_run. cbn [fst snd].
  unfold App.build_details. rewrite Hd, Hart. cbn [exc_bind getitem]. rewrite Hids.
  reflexivity.
Qed.

Lemma utils_get_audio_features_run sp id log :
  Utils.get_audio_features sp id log
  = (match audio_features sp id with
     | inr (f :: _) => f
     | _ => None
     end, log ++ [AudioFeatures id]).
Proof.
  unfold Utils.get_audio_features. run_catalog.
  destruct (audio_features sp id) as [e | [ | f rest]]; reflexivity.
Qed.

Lemma utils_extract_track_info_run sp track log id :
  raw_id track = Some id ->
  Utils.extract_track_info sp track log
  = (match Utils.build_info track (Utils.get_audio_features sp id log).1 with
     | inr info => Some info
     | inl _ => None
     end, log ++ [AudioFeatures id]).
Proof.
  intros Hid. unfold Utils.extract_track_info. rewrite Hid.
  run_catalog. cbn [getitem]. rewrite utils_get_audio_features_run. cbn [fst snd].
  destruct (Utils.build_info track _); reflexivity.
Qed.

(** utils.py: the eleven keys are copied when all are there. *)
Lemma read_features_ok (af : gmap string R) keys :
  Forall (fun k => is_Some (af !! k)) keys ->
  exists kvs,
    comprehension (fun k => v <-! getitem k (af !! k) ;; inr (k, v)) keys = inr kvs
    /\ kvs.*1 = keys /\ Forall (fun kv => af !! kv.1 = Some kv.2) kvs.
Proof.
  induction 1 as [ | k t [v Hv] Ht (kvs & Hc & Hk & Hf)]; simpl.
  - exists []. repeat split; constructor.
  - rewrite Hv. simpl. rewrite Hc. simpl. exists ((k, v) :: kvs).
    repeat split; [simpl; now f_equal | now constructor].
Qed.

(** utils.py: one missing key and the read raises. *)
Lemma read_features_missing (af : gmap string R) keys :
  Exists (fun k => af !! k = None) keys ->
  exists e, comprehension (fun k => v <-! getitem k (af !! k) ;; inr (k, v)) keys = inl e.
Proof.
  induction keys as [ | k t IH]; intros Hex; [now apply Exists_nil in Hex | ].
  simpl. destruct (af !! k) as [v | ] eqn:E; simpl; [ | eauto].
  apply Exists_cons in Hex. destruct Hex as [Hk | Ht]; [congruence | ].
  destruct (IH Ht) as [e He]. rewrite He. simpl. eauto.
Qed.

Lemma utils_read_features_ok (af : gmap string R) :
  Forall (fun k => is_Some (af !! k)) Utils.audio_keys ->
  exists feats, Utils.read_features af = inr feats
    /\ forall k, k ∈ Utils.audio_keys -> feats !! k = af !! k.
Proof.
  intros Hall. destruct (read_features_ok af _ Hall) as (kvs & Hc & Hk & Hf).
  unfold Utils.read_features. rewrite Hc. simpl. eexists. split; [reflexivity | ].
  intros k Hin. rewrite <- Hk in Hin.
  apply list_elem_of_fmap in Hin. destruct Hin as ([k' v] & -> & Hkv).
  rewrite Forall_forall in Hf. rewrite (Hf _ Hkv). simpl.
  apply elem_of_list_to_map_1; [ | exact Hkv].
  rewrite Hk. exact audio_keys_NoDup.
Qed.

Lemma utils_read_features_missing (af : gmap string R) :
  ~ Forall (fun k => is_Some (af !! k)) Utils.audio_keys ->
  exists e, Utils.read_features af = inl e.
Proof.
  intros Hnot. destruct (read_features_missing af Utils.audio_keys) as [e He].
  - apply not_Forall_Exists in Hnot; [ | apply _].
    eapply Exists_impl; [exact Hnot | ].
    intros k Hk. simpl in Hk. destruct (af !! k); [ | reflexivity].
    exfalso. apply Hk. eauto.
  - unfold Utils.read_features. rewrite He. simpl. eauto.
Qed.

(** C2, the claim fails in utils.py: the sample track has every metadata
    key and its feature lookup fails; [extract_track_info] returns a record
    without a [danceability] entry, where the claim puts 0.5. *)
Lemma C2_utils_leaves_features_out :
  has_required_metadata Samples.raw_song = true
  /\ exists info,
       (Utils.extract_track_info Samples.sp_down Samples.raw_song []).1 = Some info
       /\ features info !! "danceability" = None.
Proof. split; [reflexivity | ]. eexists. split; reflexivity. Qed.

(** app.py on the same input: every feature takes its default. *)
Example app_defaults_when_lookup_fails :
  exists d,
    (App.get_track_details Samples.sp_down Samples.raw_song []).1 = (Some d, None)
    /\ features d !! "danceability" = Some 0.5%R
    /\ features d !! "tempo" = Some 120%R
    /\ features d !! "loudness" = Some (-10)%R
    /\ features d !! "key" = Some 0%R
    /\ features d !! "mode" = Some 1%R.
Proof. eexists. repeat split; reflexivity. Qed.

(** app.py with a features object that holds the tempo only: the tempo is
    kept, the other features take their defaults. *)
Example app_defaults_for_missing_keys :
  exists d,
    (App.get_track_details Samples.sp_tempo_only Samples.raw_song []).1 = (Some d, None)
    /\ features d !! "tempo" = Some 100%R
    /\ features d !! "energy" = Some 0.5%R.
Proof. eexists. repeat split; reflexivity. Qed.

(** utils.py with that features object: the record is rejected. *)
Example utils_rejects_partial_features :
  (Utils.extract_track_info Samples.sp_tempo_only Samples.raw_song []).1 = None.
Proof. reflexivity. Qed.

(** C2, amended.  For a raw track with the required metadata:
    [get_track_details] of app.py succeeds, and each of the eleven feature
    entries is the value of the raw audio-features object, or its documented
    default when the object has no such key, the object being empty when the
    lookup failed.  [extract_track_info] of utils.py substitutes no default:
    without a features object (or with an empty one) it returns the record
    with no feature entry; with an object that has all eleven keys it copies
    them; with an object that lacks one it returns [None]. *)
Theorem C2_defaults_in_app_none_in_utils (sp : Spotify) (track : raw_track)
    (log : list api_call) :
  has_required_metadata track = true ->
  exists id,
    raw_id track = Some id
    /\ (exists d,
          (App.get_track_details sp track log).1 = (Some d, None)
          /\ forall k dflt, (k, dflt) ∈ App.feature_defaults ->
               features d !! k
               = Some (default dflt ((App.get_audio_features sp id log).1.1 !! k)))
    /\ ((App.get_audio_features sp id log).1.2 <> None ->
        (App.get_audio_features sp id log).1.1 = ∅)
    /\ match (Utils.get_audio_features sp id log).1 with
       | Some af =>
           if bool_decide (size af = 0%nat)
           then exists info,
                  (Utils.extract_track_info sp track log).1 = Some info
                  /\ features info = ∅
           else if bool_decide (Forall (fun k => is_Some (af !! k)) Utils.audio_keys)
           then exists info,
                  (Utils.extract_track_info sp track log).1 = Some info
                  /\ forall k, k ∈ Utils.audio_keys -> features info !! k = af !! k
           else (Utils.extract_track_info sp track log).1 = None
       | None =>
           exists info,
             (Utils.extract_track_info sp track log).1 = Some info
             /\ features info = ∅
       end.
Proof.
  intros Hreq.
  destruct (metadata_total track Hreq) as (id & d & artists & ids & Hid & Hd & _ & Hf & Ha & Hids).
  exists id. split; [exact Hid | ]. split; [ | split].
  - eexists. rewrite (app_get_track_details_run sp track log id d artists ids Hid Hd Ha Hids).
    split; [reflexivity | ]. intros k dflt Hk. simpl. now apply with_defaults_lookup.
  - rewrite app_get_audio_features_run. cbn [fst snd].
    destruct (audio_features sp id) as [e | [ | [f | ] rest]]; try reflexivity.
    case_bool_decide; [reflexivity | ]. simpl. congruence.
  - rewrite (utils_extract_track_info_run sp track log id Hid).
    destruct ((Utils.get_audio_features sp id log).1) as [af | ];
      unfold Utils.build_info; rewrite Hd; cbn [exc_bind fst].
    + case_bool_decide as Hsize; [eauto | ].
      case_bool_decide as Hall.
      * destruct (utils_read_features_ok af Hall) as (feats & Hr & Hcopy).
        rewrite Hr. simpl. eauto.
      * destruct (utils_read_features_missing af Hall) as (e & He).
        rewrite He. reflexivity.
    + eauto.
Qed.

Lemma C2_defaults_witness :
  has_required_metadata Samples.raw_song = true
  /\ exists d,
       (App.get_track_details Samples.sp_down Samples.raw_song []).1 = (Some d, None)
       /\ features d !! "energy"
          = Some (default 0.5%R
                    ((App.get_audio_features Samples.sp_down "t1" []).1.1 !! "energy")).
Proof.
  split; [reflexivity | ].
  destruct (C2_defaults_in_app_none_in_utils Samples.sp_down Samples.raw_song [] eq_refl)
    as (id & Hid & (d & Hd & Hfeat) & _).
  injection Hid as <-. exists d. split; [exact Hd | ].
  apply Hfeat. unfold App.feature_defaults.
  apply list_elem_of_In. simpl. tauto.
Defined.

(** ** Similarity ranker (app.py 264-277, utils.py 144-180) *)

Section RankerFacts.
Import Sklearn.
Local Open Scope R_scope.

Lemma hd_cosine_singleton s (Y : matrix) :
  hd [] (cosine_similarity [s] Y) = map (fun y => dot (normalize s) (normalize y)) Y.
Proof. reflexivity. Qed.

Lemma column_of_rows {A} (f : A -> string -> R) (cols : list string) (l : list A) j c :
  cols !! j = Some c ->
  column j (map (fun r => map (f r) cols) l) = map (fun r => f r c) l.
Proof.
  intros Hc. unfold column. rewrite map_map. apply map_ext. intros r.
  apply nth_lookup_Some. now rewrite list_lookup_fmap, Hc.
Qed.

(** *** utils.py *)

Lemma utils_n_features self seed df :
  n_features (Utils.seed_vector self seed ++ Utils.feature_values self df)
  = length (Utils.feature_columns self).
Proof. simpl. now rewrite length_map. Qed.

Lemma fitted_cons s (cands : matrix) :
  n_features (s :: cands) <> 0%nat -> cands <> [] ->
  Utils.fitted (s :: cands)
  = inr (fit (s :: cands),
         map (fun c => dot (normalize (transform_row (fit (s :: cands)) s))
                           (normalize (transform_row (fit (s :: cands)) c))) cands).
Proof.
  intros Hn Hc. unfold Utils.fitted.
  destruct (n_features (s :: cands)) as [ | k]; [congruence | ].
  destruct cands as [ | c cs]; [congruence | ].
  unfold fit_transform. cbn [skipn firstn transform map].
  rewrite hd_cosine_singleton. cbn [map]. now rewrite map_map.
Qed.

(** What the [try] body of [calculate_similarity] computes when it does
    not raise. *)
Lemma utils_similarities_inr self seed df sc sims :
  Utils.similarities self seed df = inr (sc, sims) ->
  let X := Utils.seed_vector self seed ++ Utils.feature_values self df in
  sc = fit X
  /\ sims = map (fun c => dot (normalize (transform_row sc (hd [] (Utils.seed_vector self seed))))
                             (normalize (transform_row sc c)))
                (Utils.feature_values self df)
  /\ df <> [] /\ Utils.feature_columns self <> [].
Proof.
  unfold Utils.similarities, Utils.all_features, Utils.candidate_features.
  case_bool_decide as Hcols; [ | discriminate]. cbn [exc_bind].
  destruct (Utils.feature_columns self) as [ | c0 cs] eqn:Hlen.
  { unfold Utils.fitted. rewrite utils_n_features, Hlen. discriminate. }
  destruct df as [ | r t].
  { unfold Utils.fitted. rewrite utils_n_features, Hlen. discriminate. }
  unfold Utils.seed_vector. cbn [app]. rewrite fitted_cons.
  - intros [= <- <-]. cbn [hd]. repeat split; try reflexivity; discriminate.
  - cbn [n_features]. rewrite length_map, Hlen. discriminate.
  - discriminate.
Qed.

Lemma utils_similarities_total self seed df :
  df <> [] -> Utils.feature_columns self <> [] ->
  Forall (fun c => Utils.has_column c df) (Utils.feature_columns self) ->
  exists sims,
    Utils.similarities self seed df
    = inr (fit (Utils.seed_vector self seed ++ Utils.feature_values self df), sims).
Proof.
  intros Hdf Hcols Hhas.
  unfold Utils.similarities, Utils.all_features, Utils.candidate_features.
  rewrite bool_decide_eq_true_2 by exact Hhas. cbn [exc_bind].
  unfold Utils.seed_vector. cbn [app]. rewrite fitted_cons; [eauto | | ].
  - cbn [n_features]. rewrite length_map.
    destruct (Utils.feature_columns self); [congruence | discriminate].
  - destruct df; [congruence | discriminate].
Qed.

Lemma utils_similarities_length self seed df sc sims :
  Utils.similarities self seed df = inr (sc, sims) -> length sims = length df.
Proof.
  intros H. apply utils_similarities_inr in H. destruct H as (_ & -> & _).
  unfold Utils.feature_values. now rewrite !length_map.
Qed.

(** *** app.py *)

Lemma app_similarities_run seed df :
  App.similarities seed df
  = map (fun c => dot (normalize (transform_row (App.scaler df) (hd [] (App.seed_features seed))))
                      (normalize (transform_row (App.scaler df) c)))
        (App.df_features df).
Proof.
  unfold App.similarities, App.seed_features_scaled, App.df_features_scaled.
  unfold App.seed_features. cbn [transform map fit_transform snd].
  rewrite hd_cosine_singleton. unfold transform. now rewrite map_map.
Qed.

Lemma app_similarities_length seed df : length (App.similarities seed df) = length df.
Proof. rewrite app_similarities_run. unfold App.df_features. now rewrite !length_map. Qed.

Lemma app_n_features df : df <> [] -> n_features (App.df_features df) = 9%nat.
Proof. destruct df; [congruence | reflexivity]. Qed.

End RankerFacts.

Section StandardizationClaims.
Import Sklearn.
Local Open Scope R_scope.

Lemma utils_joint_column self seed (df : frame) j c :
  Utils.feature_columns self !! j = Some c ->
  column j (Utils.seed_vector self seed ++ Utils.feature_values self df)
  = default 0 (seed !! c) :: map (fun r => default 0 (features (track r) !! c)) df.
Proof.
  intros Hc. unfold column, Utils.seed_vector, Utils.feature_values.
  cbn [app map]. f_equal.
  - apply nth_lookup_Some. now rewrite list_lookup_fmap, Hc.
  - rewrite map_map. apply map_ext. intros r.
    apply nth_lookup_Some. now rewrite list_lookup_fmap, Hc.
Qed.

Lemma app_candidate_column (df : frame) j c :
  feature_cols !! j = Some c ->
  column j (App.df_features df)
  = map (fun r => default 0.5 (features (track r) !! c)) df.
Proof.
  intros Hc. unfold App.df_features.
  exact (column_of_rows (fun (r : row) c0 => default 0.5 (features (track r) !! c0))
           feature_cols df j c Hc).
Qed.

(** C1, the claim fails in app.py: with the seed and the candidates A and
    B of the samples, the scaler of [recommend_songs] is not the scaler
    fitted on the seed row and the candidate rows together. *)
Lemma C1_app_fit_leaves_seed_out :
  App.scaler Samples.pool_AB
  <> fit (App.seed_features Samples.seed_A ++ App.df_features Samples.pool_AB).
Proof.
  intros E. apply (f_equal (fun sc => mean_ sc !! 0%nat)) in E.
  unfold App.scaler, fit_transform in E. cbn [fst] in E.
  rewrite !fit_mean_lookup in E by (cbn; lia).
  assert (column 0 (App.df_features Samples.pool_AB) = [0.5; 0.25]) as E1 by reflexivity.
  assert (column 0 (App.seed_features Samples.seed_A ++ App.df_features Samples.pool_AB)
          = [0.5; 0.5; 0.25]) as E2 by reflexivity.
  rewrite E1, E2 in E. injection E as E. unfold col_mean in E. simpl in E. lra.
Qed.

(** C1, amended.  [calculate_similarity] of utils.py standardizes jointly:
    mean, variance and scale of every column are those of the seed's value
    together with the candidates' values, and this one scaler standardizes
    the seed row and the candidate rows.  [recommend_songs] of app.py fits
    the scaler on the candidate rows alone and applies it to the candidates
    and to the seed. *)
Theorem C1_joint_fit_in_utils_candidate_fit_in_app :
  (forall self seed df sc sims,
      Utils.similarities self seed df = inr (sc, sims) ->
      sc = fit (Utils.seed_vector self seed ++ Utils.feature_values self df)
      /\ sims = hd [] (cosine_similarity
                         (transform sc (Utils.seed_vector self seed))
                         (transform sc (Utils.feature_values self df)))
      /\ forall j c, Utils.feature_columns self !! j = Some c ->
           let col := default 0 (seed !! c)
                      :: map (fun r => default 0 (features (track r) !! c)) df in
           mean_ sc !! j = Some (col_mean col)
           /\ var_ sc !! j = Some (col_var col)
           /\ scale_ sc !! j = Some (handle_zeros_in_scale (sqrt (col_var col))))
  /\ (forall seed df,
        App.scaler df = fit (App.df_features df)
        /\ App.similarities seed df
           = hd [] (cosine_similarity
                      (transform (App.scaler df) (App.seed_features seed))
                      (transform (App.scaler df) (App.df_features df)))
        /\ (df <> [] ->
            forall j c, feature_cols !! j = Some c ->
              let col := map (fun r => default 0.5 (features (track r) !! c)) df in
              mean_ (App.scaler df) !! j = Some (col_mean col)
              /\ var_ (App.scaler df) !! j = Some (col_var col)
              /\ scale_ (App.scaler df) !! j
                 = Some (handle_zeros_in_scale (sqrt (col_var col))))).
Proof.
  split.
  - intros self seed df sc sims H.
    destruct (utils_similarities_inr self seed df sc sims H) as (Hsc & Hsims & _ & _).
    split; [exact Hsc | ]. split.
    + rewrite Hsims. unfold Utils.seed_vector. cbn [transform map hd].
      rewrite hd_cosine_singleton. unfold transform. now rewrite map_map.
    + intros j c Hc col.
      assert (j < n_features (Utils.seed_vector self seed ++ Utils.feature_values self df))%nat
        as Hj.
      { rewrite utils_n_features. now apply lookup_lt_Some in Hc. }
      rewrite Hsc, fit_mean_lookup, fit_var_lookup, fit_scale_lookup by exact Hj.
      now rewrite (utils_joint_column self seed df j c Hc).
  - intros seed df. split; [reflexivity | ]. split; [reflexivity | ].
    intros Hdf j c Hc col.
    assert (j < n_features (App.df_features df))%nat as Hj.
    { rewrite app_n_features by exact Hdf. now apply lookup_lt_Some in Hc. }
    unfold App.scaler, fit_transform. cbn [fst].
    rewrite fit_mean_lookup, fit_var_lookup, fit_scale_lookup by exact Hj.
    now rewrite (app_candidate_column df j c Hc).
Qed.

Lemma C1_joint_fit_witness :
  exists sc sims,
    Utils.similarities Samples.engine (features Samples.seed_A) Samples.pool_AB
    = inr (sc, sims)
    /\ mean_ sc !! 0%nat = Some (col_mean [0.5; 0.5; 0.25])
    /\ mean_ (App.scaler Samples.pool_AB) !! 0%nat = Some (col_mean [0.5; 0.25]).
Proof.
  destruct C1_joint_fit_in_utils_candidate_fit_in_app as [Hutils Happ].
  assert (exists sc sims,
             Utils.similarities Samples.engine (features Samples.seed_A) Samples.pool_AB
             = inr (sc, sims)) as (sc & sims & Hrun).
  { eexists. eexists. reflexivity. }
  exists sc, sims. split; [exact Hrun | ].
  destruct (Hutils _ _ _ _ _ Hrun) as (_ & _ & Hcols).
  destruct (Happ Samples.seed_A Samples.pool_AB) as (_ & _ & Hcands).
  split.
  - exact (proj1 (Hcols 0%nat "danceability" eq_refl)).
  - assert (Samples.pool_AB <> []) as Hne by discriminate.
    exact (proj1 (Hcands Hne 0%nat "danceability" eq_refl)).
Defined.

End StandardizationClaims.

Section ZeroVariance.
Import Sklearn.
Local Open Scope R_scope.

Lemma Rsum_nonneg l : Forall (fun x => 0 <= x) l -> 0 <= Rsum l.
Proof.
  induction 1 as [ | x t Hx Ht IH]; simpl; [lra | ]. fold (Rsum t). lra.
Qed.

Lemma Rsum_nonneg_zero l :
  Forall (fun x => 0 <= x) l -> Rsum l = 0 -> Forall (eq 0) l.
Proof.
  induction 1 as [ | x t Hx Ht IH]; simpl; [constructor | ]. fold (Rsum t).
  intros Hsum. pose proof (Rsum_nonneg t Ht).
  constructor; [lra | apply IH; lra].
Qed.

(** A column has variance zero exactly when its values are all the same
    (then all equal to the mean). *)
Lemma zero_variance_constant c :
  c <> [] -> (col_var c = 0 <-> exists v, Forall (eq v) c).
Proof.
  intros Hne. split.
  - intros Hvar. exists (col_mean c). unfold col_var in Hvar.
    assert (INR (length c) <> 0) as Hlen.
    { apply not_0_INR. destruct c; [congruence | discriminate]. }
    assert (Rsum (map (fun x => (x - col_mean c) * (x - col_mean c)) c) = 0) as Hsum.
    { apply Rmult_eq_reg_r with (/ INR (length c)).
      - unfold Rdiv in Hvar. rewrite Hvar. lra.
      - now apply Rinv_neq_0_compat. }
    apply Rsum_nonneg_zero in Hsum.
    + pose proof (proj1 (Forall_fmap _ _ _) Hsum) as Hsq.
      eapply Forall_impl; [exact Hsq | ].
      intros x Hx. cbv beta delta [compose] in Hx. symmetry in Hx.
      clear - Hx. destruct (Rmult_integral _ _ Hx); lra.
    + apply Forall_fmap, Forall_true. intros x. cbv beta delta [compose].
      generalize (x - col_mean c). intros y. nra.
  - intros [v Hv]. now apply (col_var_const v).
Qed.

Lemma transform_constant_column j v (X rows : matrix) :
  X <> [] -> Forall (fun r => r !! j = Some v) X ->
  Forall (fun r => r !! j = Some v) rows ->
  Forall (fun r => r !! j = Some 0) (transform (fit X) rows).
Proof.
  intros Hne HX Hrows. unfold transform. apply Forall_fmap.
  eapply Forall_impl; [exact Hrows | ].
  intros r Hr. simpl. now apply (constant_column_transform j v).
Qed.

Lemma map_cosine_delete_transform j s sc (rows : matrix) :
  s !! j = Some 0 -> Forall (fun r => r !! j = Some 0) (map (transform_row sc) rows) ->
  map (fun c => dot (normalize s) (normalize (transform_row sc c))) rows
  = map (fun c => dot (normalize (delete j s))
                      (normalize (delete j (transform_row sc c)))) rows.
Proof.
  intros Hs Hrows. induction rows as [ | r t IH]; [reflexivity | ].
  cbn [map] in *. apply Forall_cons in Hrows. destruct Hrows as [Hr Ht].
  rewrite (IH Ht). f_equal. symmetry. now apply cosine_delete.
Qed.

(** C4.  When a feature column has the same value [v] in the seed row and
    in every candidate row, then in both rankers the fitted scale of that
    column is 1 and no fitted scale is 0, that column is 0 in every
    standardized row, no row is normalized by a zero norm, and every
    candidate's similarity is the one computed with that column left out
    of the standardized rows. *)
Theorem C4_zero_variance_column (j : nat) (v : R) :
  (forall self seed df sc sims,
      Utils.similarities self seed df = inr (sc, sims) ->
      let X := Utils.seed_vector self seed ++ Utils.feature_values self df in
      let seed_normalized := transform_row sc (hd [] (Utils.seed_vector self seed)) in
      Forall (fun r => r !! j = Some v) X ->
      scale_ sc !! j = Some 1
      /\ Forall (fun s => s <> 0) (scale_ sc)
      /\ Forall (fun r => r !! j = Some 0) (transform sc X)
      /\ Forall (fun r => handle_zeros_in_scale (row_norm r) <> 0) (transform sc X)
      /\ sims = map (fun c => dot (normalize (delete j seed_normalized))
                                 (normalize (delete j (transform_row sc c))))
                    (Utils.feature_values self df))
  /\ (forall seed df,
        df <> [] ->
        let X := App.seed_features seed ++ App.df_features df in
        let sc := App.scaler df in
        let seed_scaled := transform_row sc (hd [] (App.seed_features seed)) in
        Forall (fun r => r !! j = Some v) X ->
        scale_ sc !! j = Some 1
        /\ Forall (fun s => s <> 0) (scale_ sc)
        /\ Forall (fun r => r !! j = Some 0) (transform sc X)
        /\ Forall (fun r => handle_zeros_in_scale (row_norm r) <> 0) (transform sc X)
        /\ App.similarities seed df
           = map (fun c => dot (normalize (delete j seed_scaled))
                               (normalize (delete j (transform_row sc c))))
                 (App.df_features df)).
Proof.
  split.
  - intros self seed df sc sims H X seed_normalized HX.
    destruct (utils_similarities_inr self seed df sc sims H) as (Hsc & Hsims & _ & _).
    fold X in Hsc. assert (X <> []) as Hne by discriminate.
    subst sc.
    pose proof (transform_constant_column j v X X Hne HX HX) as Hzero.
    destruct (constant_column_fit j v X Hne HX) as (_ & _ & Hscale).
    repeat split; try assumption.
    + apply fit_scale_nonzero.
    + apply Forall_true. intros r. apply handle_zeros_nonzero.
    + rewrite Hsims. unfold X, Utils.seed_vector in Hzero.
      cbn [app transform map] in Hzero. apply Forall_cons in Hzero.
      destruct Hzero as [Hs Hc].
      unfold seed_normalized, Utils.seed_vector. cbn [hd].
      apply map_cosine_delete_transform; assumption.
  - intros seed df Hdf X sc seed_scaled HX.
    assert (App.df_features df <> []) as Hne.
    { destruct df; [congruence | discriminate]. }
    unfold X, App.seed_features in HX. cbn [app] in HX.
    apply Forall_cons in HX. destruct HX as [Hseed Hcands].
    assert (sc = fit (App.df_features df)) as Hsc by reflexivity.
    destruct (constant_column_fit j v _ Hne Hcands) as (_ & _ & Hscale).
    assert (Forall (fun r => r !! j = Some 0) (transform sc X)) as Hzero.
    { rewrite Hsc. apply (transform_constant_column j v); [exact Hne | exact Hcands | ].
      unfold X, App.seed_features. cbn [app]. now constructor. }
    repeat split; try assumption.
    + rewrite Hsc. apply fit_scale_nonzero.
    + apply Forall_true. intros r. apply handle_zeros_nonzero.
    + rewrite app_similarities_run. fold sc. fold seed_scaled.
      unfold X, App.seed_features in Hzero. cbn [app transform map] in Hzero.
      apply Forall_cons in Hzero. destruct Hzero as [Hs Hc].
      apply map_cosine_delete_transform; assumption.
Qed.

Lemma C4_zero_variance_witness :
  Forall (fun r => r !! 6%nat = Some 0)
         (App.seed_features Samples.seed_A ++ App.df_features Samples.pool_ABC)
  /\ scale_ (App.scaler Samples.pool_ABC) !! 6%nat = Some 1
  /\ exists sc sims,
       Utils.similarities Samples.engine (features Samples.seed_A) Samples.pool_ABC
       = inr (sc, sims)
       /\ scale_ sc !! 6%nat = Some 1.
Proof.
  destruct (C4_zero_variance_column 6 0) as [Hutils Happ].
  assert (Forall (fun r => r !! 6%nat = Some 0)
            (App.seed_features Samples.seed_A ++ App.df_features Samples.pool_ABC)) as Hcol.
  { repeat constructor. }
  split; [exact Hcol | ]. split.
  - assert (Samples.pool_ABC <> []) as Hne by discriminate.
    exact (proj1 (Happ Samples.seed_A Samples.pool_ABC Hne Hcol)).
  - assert (exists sc sims,
               Utils.similarities Samples.engine (features Samples.seed_A) Samples.pool_ABC
               = inr (sc, sims)) as (sc & sims & Hrun).
    { eexists. eexists. reflexivity. }
    exists sc, sims. split; [exact Hrun | ].
    apply (Hutils _ _ _ _ _ Hrun). repeat constructor.
Defined.

End ZeroVariance.

(** ** A candidate equal to the seed *)

Section HeadOfRanking.
Context {A K : Type}.
Variable key : A -> K.
Variable ltb : K -> K -> bool.

(** The first row of the descending order is the earliest row among
    those with the largest key. *)
Lemma sort_desc_head l i a :
  l !! i = Some a ->
  (forall b, b ∈ l -> ltb (key a) (key b) = false) ->
  (forall k b, (k < i)%nat -> l !! k = Some b -> ltb (key b) (key a) = true) ->
  head (Pandas.sort_desc key ltb l) = Some a.
Proof.
  revert i. induction l as [ | x t IH]; intros i Hi Hmax Hbefore; [discriminate | ].
  cbn [Pandas.sort_desc fold_right]. fold (Pandas.sort_desc key ltb t).
  destruct i as [ | i].
  - injection Hi as ->.
    destruct (Pandas.sort_desc key ltb t) as [ | y rest] eqn:E; [reflexivity | ].
    simpl. rewrite Hmax; [reflexivity | ].
    right. rewrite <- (sort_desc_perm key ltb t), E. now left.
  - assert (head (Pandas.sort_desc key ltb t) = Some a) as Hhead.
    { apply (IH i); [exact Hi | | ].
      - intros b Hb. apply Hmax. now right.
      - intros k b Hk Hb. apply (Hbefore (S k) b); [lia | exact Hb]. }
    destruct (Pandas.sort_desc key ltb t) as [ | y rest]; [discriminate | ].
    injection Hhead as ->. simpl.
    rewrite (Hbefore 0%nat x); [reflexivity | lia | reflexivity].
Qed.

Lemma nlargest_head n l i a :
  l !! i = Some a ->
  (forall b, b ∈ l -> ltb (key a) (key b) = false) ->
  (forall k b, (k < i)%nat -> l !! k = Some b -> ltb (key b) (key a) = true) ->
  head (Pandas.nlargest key ltb (S n) l) = Some a.
Proof.
  intros Hi Hmax Hbefore. unfold Pandas.nlargest.
  pose proof (sort_desc_head l i a Hi Hmax Hbefore) as Hhead.
  destruct (Pandas.sort_desc key ltb l); [discriminate | exact Hhead].
Qed.
End HeadOfRanking.

Section IdenticalCandidate.
Import Sklearn.
Local Open Scope R_scope.

Lemma dot_self_pos a j y : a !! j = Some y -> y <> 0 -> dot a a <> 0.
Proof.
  revert j. induction a as [ | x a IH]; intros [ | j] Hj Hy; try discriminate.
  - injection Hj as ->. rewrite dot_cons. pose proof (dot_self_nonneg a). nra.
  - rewrite dot_cons. pose proof (dot_self_nonneg a).
    pose proof (IH j Hj Hy). nra.
Qed.

(** The row of the fitted means is standardized to zero. *)
Lemma transform_row_at_mean sc : Forall (eq 0) (transform_row sc (mean_ sc)).
Proof.
  unfold transform_row. generalize (scale_ sc). induction (mean_ sc) as [ | m t IH];
    intros [ | s ss]; cbn; try constructor.
  - unfold Rdiv. lra.
  - apply IH.
Qed.

(** A seed that differs from the fitted mean in some column has a
    standardized row that is not zero. *)
Lemma standardized_seed_nonzero X row j x m :
  row !! j = Some x -> mean_ (fit X) !! j = Some m -> x <> m ->
  dot (transform_row (fit X) row) (transform_row (fit X) row) <> 0.
Proof.
  intros Hx Hm Hne.
  assert (j < n_features X)%nat as Hj.
  { apply lookup_lt_Some in Hm. simpl in Hm.
    now rewrite length_map, length_columns in Hm. }
  pose proof (fit_scale_lookup X j Hj) as Hs.
  apply (dot_self_pos _ j ((x - m) / handle_zeros_in_scale (sqrt (col_var (column j X))))).
  - now apply transform_row_lookup.
  - pose proof (handle_zeros_nonzero (sqrt (col_var (column j X)))) as Hnz.
    intros Hz. apply Hne.
    apply (Rmult_eq_compat_r (handle_zeros_in_scale (sqrt (col_var (column j X))))) in Hz.
    unfold Rdiv in Hz. rewrite Rmult_assoc, Rinv_l, Rmult_0_l in Hz by exact Hnz. lra.
Qed.

Lemma assign_similarity_lookup (df : list row) sims k r s :
  df !! k = Some r -> sims !! k = Some s ->
  assign_similarity df sims !! k = Some (set_similarity (Some s) r).
Proof.
  intros Hr Hs. unfold assign_similarity. now rewrite lookup_zip_with, Hr, Hs.
Qed.

Lemma assign_similarity_elem (df : list row) sims b :
  b ∈ assign_similarity df sims ->
  exists s, s ∈ sims /\ similarity b = Some s.
Proof.
  unfold assign_similarity. intros Hb.
  apply list_elem_of_lookup in Hb. destruct Hb as [k Hk].
  rewrite lookup_zip_with in Hk.
  destruct (df !! k) as [r | ]; [ | discriminate]. simpl in Hk.
  destruct (sims !! k) as [s | ] eqn:Hs; [ | discriminate]. simpl in Hk.
  injection Hk as <-. exists s. split; [ | reflexivity].
  apply list_elem_of_lookup. eauto.
Qed.

(** With scores of at most 1, a row that scores 1 and is preceded only
    by rows that score less opens the ranking. *)
Lemma ranked_first (df : list row) sims i r n :
  df !! i = Some r -> sims !! i = Some 1 -> Forall (fun s => s <= 1) sims ->
  (forall k s, (k < i)%nat -> sims !! k = Some s -> s < 1) ->
  head (Pandas.nlargest similarity sim_ltb (S n) (assign_similarity df sims))
  = Some (set_similarity (Some 1) r).
Proof.
  intros Hr Hs Hle Hbefore. apply (nlargest_head similarity sim_ltb n _ i).
  - now apply assign_similarity_lookup.
  - intros b Hb. destruct (assign_similarity_elem df sims b Hb) as (s & Hin & Hsim).
    rewrite Hsim. simpl. rewrite Forall_forall in Hle. specialize (Hle s Hin).
    destruct (Rlt_dec 1 s); [lra | reflexivity].
  - intros k b Hk Hb. unfold assign_similarity in Hb.
    rewrite lookup_zip_with in Hb.
    destruct (df !! k) as [rk | ]; [ | discriminate]. simpl in Hb.
    destruct (sims !! k) as [s | ] eqn:Hsk; [ | discriminate]. simpl in Hb.
    injection Hb as <-. simpl. specialize (Hbefore k s Hk Hsk).
    destruct (Rlt_dec s 1); [reflexivity | lra].
Qed.

(** The scores of a ranker, given the scaler, the seed row and the
    candidate rows. *)
Lemma identical_row_scores_one X seed_row (rows : matrix) i j x m :
  rows !! i = Some seed_row ->
  seed_row !! j = Some x -> mean_ (fit X) !! j = Some m -> x <> m ->
  let sims := map (fun c => dot (normalize (transform_row (fit X) seed_row))
                                (normalize (transform_row (fit X) c))) rows in
  sims !! i = Some 1 /\ Forall (fun s => s <= 1) sims.
Proof.
  intros Hi Hx Hm Hne sims. split.
  - unfold sims. rewrite list_lookup_fmap, Hi. simpl. f_equal.
    apply cosine_self. now apply (standardized_seed_nonzero X seed_row j x m).
  - unfold sims. apply Forall_fmap, Forall_true. intros c. apply cosine_le_1.
Qed.

End IdenticalCandidate.

Section IdenticalCandidateClaims.
Import Sklearn.
Local Open Scope R_scope.

Lemma col_mean_3 a b c : col_mean [a; b; c] = (a + b + c) / 3.
Proof. unfold col_mean. simpl. field. Qed.

Lemma col_mean_4 a b c d : col_mean [a; b; c; d] = (a + b + c + d) / 4.
Proof. unfold col_mean. simpl. field. Qed.

(** On the samples the candidates' mean, with or without the seed, is the
    seed's own feature row. *)
Lemma sample_app_mean :
  mean_ (App.scaler Samples.pool_ABC) = Samples.seed_values.
Proof.
  unfold App.scaler, fit_transform, fit. cbn [fst mean_].
  assert (columns (App.df_features Samples.pool_ABC)
          = [[0.5; 0.25; 0.75]; [0.5; 0.25; 0.75]; [0.5; 0.25; 0.75];
             [120; 100; 140]; [0.5; 0.25; 0.75]; [0.5; 0.25; 0.75];
             [0; 0; 0]; [-8; -10; -6]; [0.5; 0.25; 0.75]]) as -> by reflexivity.
  cbn [map]. rewrite !col_mean_3. unfold Samples.seed_values.
  repeat (apply f_equal2; [lra | ]). reflexivity.
Qed.

Lemma sample_utils_mean :
  mean_ (fit (Utils.seed_vector Samples.engine (features Samples.seed_A)
              ++ Utils.feature_values Samples.engine Samples.pool_ABC))
  = Samples.seed_values.
Proof.
  unfold fit. cbn [mean_].
  assert (columns (Utils.seed_vector Samples.engine (features Samples.seed_A)
                   ++ Utils.feature_values Samples.engine Samples.pool_ABC)
          = [[0.5; 0.5; 0.25; 0.75]; [0.5; 0.5; 0.25; 0.75]; [0.5; 0.5; 0.25; 0.75];
             [120; 120; 100; 140]; [0.5; 0.5; 0.25; 0.75]; [0.5; 0.5; 0.25; 0.75];
             [0; 0; 0; 0]; [-8; -8; -10; -6]; [0.5; 0.5; 0.25; 0.75]]) as -> by reflexivity.
  cbn [map]. rewrite !col_mean_4. unfold Samples.seed_values.
  repeat (apply f_equal2; [lra | ]). reflexivity.
Qed.

(** A seed row equal to the fitted means scores zero against every
    candidate. *)
Lemma seed_at_mean_scores_zero sc seed_row (rows : matrix) :
  seed_row = mean_ sc ->
  map (fun c => dot (normalize (transform_row sc seed_row))
                    (normalize (transform_row sc c))) rows
  = map (fun _ => 0) rows.
Proof.
  intros ->. apply map_ext. intros c. apply cosine_zero_l, transform_row_at_mean.
Qed.

(** C8, the claim fails: candidate A of the samples has the seed's
    feature values, B and C lie symmetrically around them, and A's
    similarity is 0 in both rankers, as the seed's standardized row is the
    zero row. *)
Lemma C8_identical_candidate_scores_zero :
  App.df_features (DataFrame [Samples.cand_A]) = App.seed_features Samples.seed_A
  /\ App.similarities Samples.seed_A Samples.pool_ABC !! 0%nat = Some 0
  /\ exists sc sims,
       Utils.similarities Samples.engine (features Samples.seed_A) Samples.pool_ABC
       = inr (sc, sims)
       /\ sims !! 0%nat = Some 0.
Proof.
  split; [reflexivity | ]. split.
  - rewrite app_similarities_run, seed_at_mean_scores_zero; [reflexivity | ].
    now rewrite sample_app_mean.
  - destruct (utils_similarities_total Samples.engine (features Samples.seed_A)
                Samples.pool_ABC) as [sims Hrun].
    + discriminate.
    + discriminate.
    + apply (bool_decide_unpack _). reflexivity.
    + eexists. exists sims. split; [exact Hrun | ].
      apply utils_similarities_inr in Hrun. destruct Hrun as (_ & -> & _).
      rewrite seed_at_mean_scores_zero; [reflexivity | ].
      now rewrite sample_utils_mean.
Qed.

(** C8, amended.  Let candidate A, at position [i] of the pool, have the
    seed's feature row, and let the seed differ in some column from the
    mean the scaler was fitted with (its standardized row is then not the
    zero row).  In both rankers A's similarity is 1 and no similarity is
    above 1; when every candidate before A scores below 1, A is the first
    row of the ranking. *)
Theorem C8_identical_candidate_scores_one (i j n : nat) (x m : R) :
  (forall self seed df sc sims A,
      Utils.similarities self seed df = inr (sc, sims) ->
      df !! i = Some A ->
      Utils.feature_values self [A] = Utils.seed_vector self seed ->
      hd [] (Utils.seed_vector self seed) !! j = Some x ->
      mean_ sc !! j = Some m -> x <> m ->
      sims !! i = Some 1
      /\ Forall (fun s => s <= 1) sims
      /\ ((forall k s, (k < i)%nat -> sims !! k = Some s -> s < 1) ->
          head (Pandas.nlargest similarity sim_ltb (S n)
                  (Utils.calculate_similarity_value self seed df))
          = Some (set_similarity (Some 1) A)))
  /\ (forall seed df A,
        df !! i = Some A ->
        App.df_features [A] = App.seed_features seed ->
        hd [] (App.seed_features seed) !! j = Some x ->
        mean_ (App.scaler df) !! j = Some m -> x <> m ->
        App.similarities seed df !! i = Some 1
        /\ Forall (fun s => s <= 1) (App.similarities seed df)
        /\ ((forall k s, (k < i)%nat -> App.similarities seed df !! k = Some s -> s < 1) ->
            head (App.top (S n) (App.score seed df))
            = Some (set_similarity (Some 1) A))).
Proof.
  split.
  - intros self seed df sc sims A Hrun HA Hsame Hx Hm Hne.
    destruct (utils_similarities_inr self seed df sc sims Hrun) as (Hsc & Hsims & _ & _).
    assert (Utils.feature_values self df !! i
            = Some (hd [] (Utils.seed_vector self seed))) as Hrow.
    { unfold Utils.feature_values. rewrite list_lookup_fmap, HA.
      apply (f_equal (hd [])) in Hsame. cbn [fmap option_fmap option_map].
      f_equal. exact Hsame. }
    rewrite Hsc in Hm.
    destruct (identical_row_scores_one _ _ _ i j x m Hrow Hx Hm Hne) as [Hone Hle].
    rewrite <- Hsc, <- Hsims in Hone, Hle.
    split; [exact Hone | ]. split; [exact Hle | ].
    intros Hbefore. unfold Utils.calculate_similarity_value. rewrite Hrun.
    now apply (ranked_first df sims i A n).
  - intros seed df A HA Hsame Hx Hm Hne.
    assert (App.df_features df !! i = Some (hd [] (App.seed_features seed))) as Hrow.
    { unfold App.df_features. rewrite list_lookup_fmap, HA.
      apply (f_equal (hd [])) in Hsame. cbn [fmap option_fmap option_map].
      f_equal. exact Hsame. }
    destruct (identical_row_scores_one (App.df_features df) _ _ i j x m Hrow Hx Hm Hne)
      as [Hone Hle].
    change (fit (App.df_features df)) with (App.scaler df) in Hone, Hle.
    rewrite <- app_similarities_run in Hone, Hle.
    split; [exact Hone | ]. split; [exact Hle | ].
    intros Hbefore. rewrite top_nlargest. unfold App.score.
    now apply (ranked_first df (App.similarities seed df) i A n).
Qed.

Lemma C8_identical_candidate_witness :
  App.similarities Samples.seed_A Samples.pool_AB !! 0%nat = Some 1
  /\ head (App.top 1 (App.score Samples.seed_A Samples.pool_AB))
     = Some (set_similarity (Some 1)
               {| track := Samples.cand_A; year := None; similarity := None |})
  /\ exists sc sims,
       Utils.similarities Samples.engine (features Samples.seed_A) Samples.pool_AB
       = inr (sc, sims)
       /\ sims !! 0%nat = Some 1.
Proof.
  assert (0.5 <> col_mean [0.5; 0.25]) as Hne2.
  { unfold col_mean. simpl. lra. }
  assert (0.5 <> col_mean [0.5; 0.5; 0.25]) as Hne3.
  { rewrite col_mean_3. lra. }
  destruct (C8_identical_candidate_scores_one 0 0 0 0.5 (col_mean [0.5; 0.25]))
    as [_ Happ].
  destruct (C8_identical_candidate_scores_one 0 0 0 0.5 (col_mean [0.5; 0.5; 0.25]))
    as [Hutils _].
  destruct (Happ Samples.seed_A Samples.pool_AB
              {| track := Samples.cand_A; year := None; similarity := None |})
    as (Hone & _ & Hfirst); try reflexivity; [exact Hne2 | ].
  split; [exact Hone | ]. split.
  - apply Hfirst. intros k s Hk. lia.
  - assert (exists sc sims,
               Utils.similarities Samples.engine (features Samples.seed_A) Samples.pool_AB
               = inr (sc, sims) /\ mean_ sc !! 0%nat = Some (col_mean [0.5; 0.5; 0.25]))
      as (sc & sims & Hrun & Hmean).
    { eexists. eexists. split; reflexivity. }
    exists sc, sims. split; [exact Hrun | ].
    apply (Hutils Samples.engine (features Samples.seed_A) Samples.pool_AB sc sims
             {| track := Samples.cand_A; year := None; similarity := None |});
      try reflexivity; assumption.
Defined.

End IdenticalCandidateClaims.

(** ** calculate_similarity as an operation on DataFrame objects *)

Section FrameEffect.
Local Open Scope R_scope.

Lemma assign_similarity_track (df : list row) sims :
  length sims = length df -> map track (assign_similarity df sims) = map track df.
Proof.
  revert sims. induction df as [ | r t IH]; intros [ | s ss] Hlen; try discriminate;
    [reflexivity | ].
  cbn. f_equal. apply IH. now injection Hlen.
Qed.

Lemma assign_similarity_year (df : list row) sims :
  length sims = length df -> map year (assign_similarity df sims) = map year df.
Proof.
  revert sims. induction df as [ | r t IH]; intros [ | s ss] Hlen; try discriminate;
    [reflexivity | ].
  cbn. f_equal. apply IH. now injection Hlen.
Qed.





(** On a frame without feature columns the computation fails and the
    caller gets its own object back, the store untouched. *)
Example calculate_similarity_returns_argument_on_failure :
  Utils.calculate_similarity Samples.engine (features Samples.seed_A) 0
    Samples.store_dated
  = (0%nat, Samples.store_dated).
Proof. reflexivity. Qed.

End FrameEffect.

(** ** The entry point of app.py *)

(** [recommend_songs] is the composition of the stages above. *)
Lemma recommend_songs_stages sp to_year seed n filters log df log' :
  App.recommend_songs sp to_year seed n filters log = ((df, None), log') ->
  let all_tracks := (App.gather sp seed log).1 in
  log' = (App.gather sp seed log).2
  /\ df = App.top n (App.score seed
                      (App.apply_filters to_year filters (App.merge seed all_tracks))).
Proof.
  unfold App.recommend_songs. run_catalog.
  destruct (App.gather sp seed log) as [all_tracks log1]. cbn [fst snd].
  destruct all_tracks as [ | f fs]; [discriminate | ].
  destruct (App.merge seed (f :: fs)) as [ | r t]; [discriminate | ].
  destruct (App.apply_filters to_year filters (r :: t)) as [ | r' t'];
    [discriminate | ].
  intros [= <- <-]. now split.
Qed.

(** On the small sample catalog: the artist's tracks t1 and seed and the
    search hits t1 and t2 are merged to t1, t2 (the seed and the second t1
    are removed), and the requests are logged in the order they are made. *)
Example recommend_songs_on_sample :
  let out := App.recommend_songs Samples.sp_small Samples.iso_year Samples.seed_A 1 None [] in
  map (fun r => track_id (track r))
      (App.merge Samples.seed_A (App.gather Samples.sp_small Samples.seed_A []).1)
  = ["t1"; "t2"]
  /\ out.1.2 = None
  /\ length out.1.1 = 1%nat
  /\ out.2 = [ArtistTopTracks "artist0"; AudioFeatures "t1"; AudioFeatures "seed";
              ArtistRelatedArtists "artist0"; Search "seed artist" 20;
              AudioFeatures "t1"; AudioFeatures "t2"].
Proof.
  intros out. split; [reflexivity | ].
  destruct out as [[df err] log'] eqn:E. unfold out in E.
  assert (err = None /\ log' = [ArtistTopTracks "artist0"; AudioFeatures "t1";
                               AudioFeatures "seed"; ArtistRelatedArtists "artist0";
                               Search "seed artist" 20; AudioFeatures "t1";
                               AudioFeatures "t2"]) as [-> ->].
  { apply (f_equal (fun p => (p.1.2, p.2))) in E. cbn [fst snd] in E.
    injection E as <- <-. split; reflexivity. }
  repeat split. cbn [fst].
  apply recommend_songs_stages in E. destruct E as [_ ->].
  rewrite top_nlargest, nlargest_length. reflexivity.
Qed.


(** * Further properties of the code *)

(** ** The normalizers, one track at a time *)

Lemma comprehension_getitem_present {A} (k : string) (f : A -> option string) l bs :
  comprehension (fun a => getitem k (f a)) l = inr bs ->
  forallb (fun a => present (f a)) l = true.
Proof.
  revert bs. induction l as [ | a t IH]; intros bs; simpl; [reflexivity | ].
  destruct (f a) as [v | ]; simpl; [ | discriminate].
  destruct (comprehension _ t) as [e | vs]; simpl; [discriminate | ].
  intros _. now apply (IH vs).
Qed.

Lemma forallb_both {A} (p q : A -> bool) l :
  forallb p l = true -> forallb q l = true -> forallb (fun a => p a && q a) l = true.
Proof.
  induction l as [ | a t IH]; simpl; [reflexivity | ].
  intros Hp Hq. apply andb_true_iff in Hp, Hq. destruct Hp, Hq.
  rewrite IH by assumption. apply andb_true_iff. split; [ | reflexivity].
  now apply andb_true_iff.
Qed.

(** The dict of app.py is built only from a raw track with every required
    key. *)
Lemma build_details_required track audio d :
  App.build_details track audio = inr d -> has_required_metadata track = true.
Proof.
  unfold App.build_details, metadata, has_required_metadata.
  destruct track as [rid rname rart ralb rprev rpop rdur rext]; cbn [raw_id raw_name
    raw_artists raw_album_field raw_preview_url raw_popularity raw_duration_ms
    raw_external_urls].
  destruct rid as [id | ]; cbn; [ | discriminate].
  destruct rname as [nm | ]; cbn; [ | discriminate].
  destruct rart as [artists | ]; cbn; [ | discriminate].
  destruct (comprehension (fun a => getitem "name" (artist_name a)) artists)
    as [e | names] eqn:Hnames; cbn; [discriminate | ].
  destruct ralb as [[aname aimgs arel] | ]; cbn; [ | discriminate].
  destruct aname as [an | ]; cbn; [ | discriminate].
  destruct aimgs as [imgs | ]; cbn; [ | discriminate].
  destruct imgs as [ | [[u | ]] rest]; cbn; try discriminate.
  all: destruct rprev as [prev | ]; cbn; try discriminate.
  all: destruct rpop as [pop | ]; cbn; try discriminate.
  all: destruct arel as [rel | ]; cbn; try discriminate.
  all: destruct rdur as [dur | ]; cbn; try discriminate.
  all: destruct rext as [urls | ]; cbn; try discriminate.
  all: destruct (urls !! "spotify") as [ext | ]; cbn; try discriminate.
  all: destruct (comprehension (fun a => getitem "id" (artist_id a)) artists)
         as [e | ids] eqn:Hids; cbn; try discriminate.
  all: intros _; rewrite ?andb_true_r; apply forallb_both;
    [ exact (comprehension_getitem_present "name" artist_name artists names Hnames)
    | exact (comprehension_getitem_present "id" artist_id artists ids Hids) ].
Qed.

(** The metadata entries are the raw values, unchanged. *)
Lemma metadata_fields track d :
  metadata track = inr d ->
  raw_id track = Some (track_id d) /\ raw_name track = Some (name d)
  /\ raw_popularity track = Some (popularity d)
  /\ raw_duration_ms track = Some (duration_ms d)
  /\ raw_preview_url track = Some (preview_url d)
  /\ exists alb, raw_album_field track = Some alb
                 /\ album_name alb = Some (album d)
                 /\ album_release_date alb = Some (release_date d).
Proof.
  unfold metadata.
  destruct track as [rid rname rart ralb rprev rpop rdur rext]; cbn [raw_id raw_name
    raw_artists raw_album_field raw_preview_url raw_popularity raw_duration_ms
    raw_external_urls].
  destruct rid as [id | ]; cbn; [ | discriminate].
  destruct rname as [nm | ]; cbn; [ | discriminate].
  destruct rart as [artists | ]; cbn; [ | discriminate].
  destruct (comprehension (fun a => getitem "name" (artist_name a)) artists)
    as [e | names]; cbn; [discriminate | ].
  destruct ralb as [[aname aimgs arel] | ]; cbn; [ | discriminate].
  destruct aname as [an | ]; cbn; [ | discriminate].
  destruct aimgs as [imgs | ]; cbn; [ | discriminate].
  destruct imgs as [ | [[u | ]] rest]; cbn; try discriminate.
  all: destruct rprev as [prev | ]; cbn; try discriminate.
  all: destruct rpop as [pop | ]; cbn; try discriminate.
  all: destruct arel as [rel | ]; cbn; try discriminate.
  all: destruct rdur as [dur | ]; cbn; try discriminate.
  all: destruct rext as [urls | ]; cbn; try discriminate.
  all: destruct (urls !! "spotify") as [ext | ]; cbn; try discriminate.
  all: intros [= <-]; cbn; repeat split; eexists; repeat split.
Qed.

(** [get_track_details] and [extract_track_info] do not read the call log;
    they append the one request they send. *)
Lemma app_get_track_details_log sp t log :
  App.get_track_details sp t log
  = ((App.get_track_details sp t []).1, log ++ feature_request t).
Proof.
  unfold App.get_track_details, feature_request.
  destruct (raw_id t) as [id | ]; run_catalog; cbn [getitem].
  - rewrite !app_get_audio_features_run. cbn [fst snd].
    destruct (App.build_details t _); reflexivity.
  - now rewrite app_nil_r.
Qed.

Lemma utils_extract_track_info_log sp t log :
  Utils.extract_track_info sp t log
  = ((Utils.extract_track_info sp t []).1, log ++ feature_request t).
Proof.
  unfold Utils.extract_track_info, feature_request.
  destruct (raw_id t) as [id | ]; run_catalog; cbn [getitem].
  - rewrite !utils_get_audio_features_run. cbn [fst snd].
    destruct (Utils.build_info t _); reflexivity.
  - now rewrite app_nil_r.
Qed.

(** What [get_track_details] does with a raw track that lacks a required
    key, and where the details it returns come from. *)
Lemma app_get_track_details_error sp t :
  has_required_metadata t = false ->
  exists e, (App.get_track_details sp t []).1 = (None, Some ("Error: " +:+ e)).
Proof.
  intros Hreq. unfold App.get_track_details.
  destruct (raw_id t) as [id | ]; run_catalog; cbn [getitem]; [ | eauto].
  rewrite app_get_audio_features_run. cbn [fst snd].
  destruct (App.build_details t _) as [e | d] eqn:Hb; [eauto | ].
  apply build_details_required in Hb. congruence.
Qed.

Lemma app_get_track_details_fields sp t d :
  (App.get_track_details sp t []).1.1 = Some d ->
  raw_id t = Some (track_id d) /\ raw_name t = Some (name d)
  /\ raw_popularity t = Some (popularity d)
  /\ raw_duration_ms t = Some (duration_ms d)
  /\ raw_preview_url t = Some (preview_url d)
  /\ exists alb, raw_album_field t = Some alb
                 /\ album_name alb = Some (album d)
                 /\ album_release_date alb = Some (release_date d).
Proof.
  destruct (has_required_metadata t) eqn:Hreq.
  - destruct (metadata_total t Hreq)
      as (id & d0 & artists & ids & Hid & Hd & _ & _ & Ha & Hids).
    rewrite (app_get_track_details_run sp t [] id d0 artists ids Hid Hd Ha Hids).
    cbn [fst snd]. intros [= <-]. exact (metadata_fields t d0 Hd).
  - destruct (app_get_track_details_error sp t Hreq) as [e ->]. discriminate.
Qed.

(** X1.  [get_track_details] returns details exactly for the raw tracks
    that have every required key, and then without an error; the metadata
    entries of the details are the raw values.  For every other raw track it
    returns no details and an error that starts with "Error: ". *)
Theorem X1_get_track_details_iff_required (sp : Spotify) (t : raw_track)
    (log : list api_call) :
  let r := (App.get_track_details sp t log).1 in
  ((exists d, r = (Some d, None)) <-> has_required_metadata t = true)
  /\ ((exists e, r = (None, Some ("Error: " +:+ e))) <-> has_required_metadata t = false)
  /\ (forall d, r.1 = Some d ->
        raw_id t = Some (track_id d) /\ raw_name t = Some (name d)
        /\ raw_popularity t = Some (popularity d)
        /\ raw_duration_ms t = Some (duration_ms d)
        /\ raw_preview_url t = Some (preview_url d)
        /\ exists alb, raw_album_field t = Some alb
                       /\ album_name alb = Some (album d)
                       /\ album_release_date alb = Some (release_date d)).
Proof.
  intros r. unfold r. rewrite app_get_track_details_log. cbn [fst].
  destruct (has_required_metadata t) eqn:Hreq.
  - destruct (metadata_total t Hreq)
      as (id & d & artists & ids & Hid & Hd & _ & _ & Ha & Hids).
    rewrite (app_get_track_details_run sp t [] id d artists ids Hid Hd Ha Hids).
    cbn [fst snd]. split; [ | split].
    + split; [reflexivity | eauto].
    + split; [intros [e He]; discriminate | discriminate].
    + intros d' [= <-]. exact (metadata_fields t d Hd).
  - destruct (app_get_track_details_error sp t Hreq) as [e He].
    rewrite He. split; [ | split].
    + split; [intros [d Hd]; discriminate | discriminate].
    + split; [reflexivity | eauto].
    + intros d [=].
Qed.

(** X2.  Each normalizer sends exactly one request per raw track, the
    audio-features request for the track's id, and none when the track has no
    id: it then fails on the missing key, app.py with the error "Error: 'id'"
    and utils.py with [None]. *)
Theorem X2_one_feature_request_per_track (sp : Spotify) (t : raw_track)
    (log : list api_call) :
  (App.get_track_details sp t log).2 = log ++ feature_request t
  /\ (Utils.extract_track_info sp t log).2 = log ++ feature_request t
  /\ length (feature_request t) <= 1
  /\ (forall id, raw_id t = Some id -> feature_request t = [AudioFeatures id])
  /\ (raw_id t = None ->
      (App.get_track_details sp t log) = ((None, Some "Error: 'id'"), log)
      /\ Utils.extract_track_info sp t log = (None, log)).
Proof.
  rewrite app_get_track_details_log, utils_extract_track_info_log. cbn [fst snd].
  do 2 (split; [reflexivity | ]).
  unfold feature_request.
  split; [destruct (raw_id t); cbn; lia | ].
  split; [now intros id -> | ].
  intros Hid. rewrite Hid, app_nil_r.
  unfold App.get_track_details, Utils.extract_track_info. rewrite Hid. now split.
Qed.

(** ** The retrieval strategies of app.py *)

Lemma normalized_id sp t d : normalized sp t = Some d -> raw_id t = Some (track_id d).
Proof.
  unfold normalized. intros H.
  pose proof (app_get_track_details_fields sp t d) as Hfields.
  destruct ((App.get_track_details sp t []).1) as [[d' | ] e]; cbn in H; [ | discriminate].
  destruct (falsy e); [ | discriminate]. injection H as ->.
  now destruct (Hfields eq_refl) as [Hid _].
Qed.

(** The loop over raw tracks keeps, in order, the tracks that normalize,
    and sends one feature request for each track with an id. *)
Lemma collect_details_run sp items acc log :
  App.collect_details sp items acc log
  = (acc ++ omap (normalized sp) items, log ++ concat (map feature_request items)).
Proof.
  revert acc log. induction items as [ | t rest IH]; intros acc log; cbn [App.collect_details].
  - cbn. now rewrite !app_nil_r.
  - unfold bind at 1. rewrite app_get_track_details_log.
    cbn [omap list_omap map concat]. fold (omap (normalized sp) rest).
    unfold normalized at 1.
    destruct (accepted (App.get_track_details sp t []).1) as [d | ]; rewrite IH.
    + now rewrite <- !app_assoc.
    + now rewrite <- !app_assoc.
Qed.

Lemma omap_normalized_ids sp (items : list raw_track) :
  map (fun d => Some (track_id d)) (omap (normalized sp) items)
  `sublist_of` map raw_id items.
Proof.
  induction items as [ | t rest IH]; cbn; [constructor | ].
  destruct (normalized sp t) as [d | ] eqn:E; cbn.
  - rewrite (normalized_id sp t d E). now apply sublist_skip.
  - now apply sublist_cons.
Qed.

Lemma length_omap_le {A B} (f : A -> option B) (l : list A) :
  length (omap f l) <= length l.
Proof.
  induction l as [ | a t IH]; cbn; [lia | ]. destruct (f a); cbn; lia.
Qed.

Lemma length_DataFrame ds : length (DataFrame ds) = length ds.
Proof. unfold DataFrame. apply length_map. Qed.

Lemma get_artist_top_tracks_run sp artist_id limit log :
  App.get_artist_top_tracks sp artist_id limit log
  = match artist_top_tracks sp artist_id with
    | inr results =>
        ((DataFrame (omap (normalized sp) (firstn limit results)), None),
         log ++ [ArtistTopTracks artist_id]
             ++ concat (map feature_request (firstn limit results)))
    | inl e => ((DataFrame [], Some ("Error: " +:+ e)), log ++ [ArtistTopTracks artist_id])
    end.
Proof.
  unfold App.get_artist_top_tracks. run_catalog.
  destruct (artist_top_tracks sp artist_id) as [e | results]; [reflexivity | ].
  rewrite collect_details_run. cbn [fst snd app]. now rewrite <- app_assoc.
Qed.

(** X3.  [get_artist_top_tracks] looks at the first [limit] tracks of the
    catalog's answer only: it returns, in order, those of them that
    normalize, hence at most [limit] rows, and sends one feature request per
    track looked at.  When the catalog request raises it returns the empty
    frame and the error. *)
Theorem X3_artist_top_tracks_bounded (sp : Spotify) (artist_id : string) (limit : nat)
    (log : list api_call) :
  let r := App.get_artist_top_tracks sp artist_id limit log in
  match artist_top_tracks sp artist_id with
  | inr results =>
      r.1 = (DataFrame (omap (normalized sp) (firstn limit results)), None)
      /\ length r.1.1 <= limit `min` length results
      /\ map (fun row => Some (track_id (track row))) r.1.1
         `sublist_of` map raw_id results
      /\ r.2 = log ++ [ArtistTopTracks artist_id]
                   ++ concat (map feature_request (firstn limit results))
  | inl e => r = ((DataFrame [], Some ("Error: " +:+ e)), log ++ [ArtistTopTracks artist_id])
  end.
Proof.
  intros r. unfold r. rewrite get_artist_top_tracks_run.
  destruct (artist_top_tracks sp artist_id) as [e | results]; [reflexivity | ].
  cbn [fst snd].
  split; [reflexivity | ]. split; [ | split].
  - rewrite length_DataFrame.
    etransitivity; [apply length_omap_le | ]. rewrite length_firstn. lia.
  - unfold DataFrame. rewrite map_map. cbn [track].
    etransitivity; [apply omap_normalized_ids | ].
    apply (fmap_sublist raw_id), sublist_take.
  - reflexivity.
Qed.

(** The inner loop over one artist's tracks adds at most one row per track
    and stops at [limit] rows. *)
Lemma related_inner_length sp tracks limit acc log out log' :
  App.related_inner sp tracks limit acc log = (out, log') ->
  length out <= length acc + length tracks
  /\ length out <= limit `max` S (length acc).
Proof.
  revert acc log. induction tracks as [ | t rest IH]; intros acc log;
    cbn [App.related_inner].
  - intros [= <- <-]. lia.
  - unfold bind.
    destruct (App.get_track_details sp t log) as [p log1].
    destruct (accepted p) as [d | ].
    + destruct (limit <=? length (acc ++ [d]))%nat eqn:E.
      * intros [= <- <-]. rewrite length_app. cbn [length]. lia.
      * apply Nat.leb_gt in E. intros H. apply IH in H.
        rewrite length_app in *. cbn [length] in *. lia.
    + intros H. apply IH in H. cbn [length]. lia.
Qed.

Lemma related_outer_length sp artists limit acc log td log' :
  App.related_outer sp artists limit acc log = (inr td, log') ->
  length td <= length acc + 4 * length artists
  /\ length td <= limit `max` S (length acc).
Proof.
  revert acc log. induction artists as [ | a rest IH]; intros acc log;
    cbn [App.related_outer].
  - intros [= <- <-]. cbn [length]. lia.
  - run_catalog. destruct (artist_id a) as [id | ]; cbn [getitem]; [ | discriminate].
    destruct (artist_top_tracks sp id) as [e | top_tracks]; [discriminate | ].
    destruct (App.related_inner sp (firstn 4 top_tracks) limit acc
                (log ++ [ArtistTopTracks id])) as [td1 log1] eqn:Hinner.
    apply related_inner_length in Hinner. rewrite length_firstn in Hinner.
    destruct (limit <=? length td1)%nat eqn:E.
    + intros [= <- <-]. cbn [length]. lia.
    + apply Nat.leb_gt in E. intros H. apply IH in H. cbn [length]. lia.
Qed.

Lemma related_artists_tracks_length sp artist_id limit log :
  length (App.get_related_artists_tracks sp artist_id limit log).1.1 <= 20
  /\ length (App.get_related_artists_tracks sp artist_id limit log).1.1 <= limit `max` 1.
Proof.
  unfold App.get_related_artists_tracks. run_catalog.
  destruct (artist_related_artists sp artist_id) as [e | related]; [cbn; lia | ].
  destruct (App.related_outer sp (firstn 5 related) limit []
              (log ++ [ArtistRelatedArtists artist_id])) as [[e | td] log1] eqn:Houter.
  - cbn. lia.
  - apply related_outer_length in Houter. rewrite length_firstn in Houter.
    cbn [fst]. rewrite length_DataFrame. cbn [length] in Houter. lia.
Qed.

(** X4.  [get_related_artists_tracks] returns at most 20 rows whatever the
    limit (five artists, four tracks each), and at most [limit] rows for
    every limit of one or more. *)
Theorem X4_related_artists_tracks_bounded (sp : Spotify) (artist_id : string)
    (limit : nat) (log : list api_call) :
  length (App.get_related_artists_tracks sp artist_id limit log).1.1
  <= 20 `min` (limit `max` 1).
Proof.
  pose proof (related_artists_tracks_length sp artist_id limit log). lia.
Qed.

Lemma related_outer_fails sp artists limit acc log :
  Exists (unreachable sp) artists ->
  length acc + 4 * length artists < limit ->
  exists e log', App.related_outer sp artists limit acc log = (inl e, log').
Proof.
  revert acc log. induction artists as [ | a rest IH]; intros acc log Hex Hlim.
  - now apply Exists_nil in Hex.
  - cbn [App.related_outer]. run_catalog. unfold unreachable in Hex at 1.
    apply Exists_cons in Hex.
    destruct (artist_id a) as [id | ]; cbn [getitem]; [ | eauto].
    destruct (artist_top_tracks sp id) as [e | top_tracks] eqn:Htop; [eauto | ].
    destruct (App.related_inner sp (firstn 4 top_tracks) limit acc
                (log ++ [ArtistTopTracks id])) as [td1 log1] eqn:Hinner.
    apply related_inner_length in Hinner. rewrite length_firstn in Hinner.
    cbn [length] in Hlim.
    destruct (limit <=? length td1)%nat eqn:E.
    + apply Nat.leb_le in E. lia.
    + apply IH; [ | lia].
      destruct Hex as [Hhead | Htail]; [ | exact Htail].
      unfold unreachable in Hhead.
      destruct Hhead as [e He]. congruence.
Qed.

(** X5.  With a limit above 20 the loop of [get_related_artists_tracks]
    visits each of the first five related artists.  If for one of them the
    top tracks cannot be fetched, the function returns the empty frame and an
    error: the tracks collected from the artists before are not returned. *)
Theorem X5_related_artist_failure_discards_all (sp : Spotify) (artist_id : string)
    (limit : nat) (log : list api_call) (related : list raw_artist) :
  artist_related_artists sp artist_id = inr related ->
  20 < limit ->
  Exists (unreachable sp) (firstn 5 related) ->
  exists e,
    (App.get_related_artists_tracks sp artist_id limit log).1
    = (DataFrame [], Some ("Error: " +:+ e)).
Proof.
  intros Hrel Hlim Hex. unfold App.get_related_artists_tracks. run_catalog.
  rewrite Hrel.
  destruct (related_outer_fails sp (firstn 5 related) limit []
              (log ++ [ArtistRelatedArtists artist_id]) Hex) as (e & log' & Hout).
  { rewrite length_firstn. cbn [length]. lia. }
  rewrite Hout. cbn. eauto.
Qed.

Lemma X5_related_artist_failure_witness :
  (App.get_related_artists_tracks Samples.sp_related_down "artist0" 25 []).1
  = (DataFrame [], Some "Error: timeout").
Proof.
  destruct (X5_related_artist_failure_discards_all Samples.sp_related_down "artist0" 25 []
              [{| artist_name := Some "R1"; artist_id := Some "r1" |};
               {| artist_name := Some "R2"; artist_id := Some "r2" |}])
    as [e He].
  - reflexivity.
  - lia.
  - apply Exists_cons_tl, Exists_cons_hd. cbn. eauto.
  - reflexivity.
Defined.





(** ** The result of recommend_songs *)

Lemma assign_similarity_elem_inv (df : list row) sims b :
  b ∈ assign_similarity df sims ->
  exists r s, r ∈ df /\ s ∈ sims /\ b = set_similarity (Some s) r.
Proof.
  unfold assign_similarity. intros Hb.
  apply list_elem_of_lookup in Hb. destruct Hb as [k Hk].
  rewrite lookup_zip_with in Hk.
  destruct (df !! k) as [r | ] eqn:Hr; [ | discriminate]. simpl in Hk.
  destruct (sims !! k) as [s | ] eqn:Hs; [ | discriminate]. simpl in Hk.
  injection Hk as <-. exists r, s.
  repeat split; apply list_elem_of_lookup; eauto.
Qed.

Lemma submseteq_NoDup {A} (l k : list A) : l ⊆+ k -> NoDup k -> NoDup l.
Proof.
  intros Hsub Hk. apply submseteq_Permutation in Hsub. destruct Hsub as [k' Hk'].
  rewrite Hk' in Hk. now apply NoDup_app in Hk.
Qed.

Lemma app_apply_filters_passes to_year filters df :
  Forall (passes to_year filters) (App.apply_filters to_year filters df).
Proof.
  destruct filters as [[p y] | ]; unfold App.apply_filters, passes;
    cbn [popularity_range year_range]; [ | now apply Forall_true].
  assert (Forall (fun r => forall rng, p = Some rng -> popularity_within rng r)
            match p with Some rng => App.filter_popularity rng df | None => df end) as Hp.
  { destruct p as [rng | ]; [ | now apply Forall_true].
    eapply Forall_impl; [apply (Forall_filter_holds (popularity_within rng)) | ].
    intros r Hr rng' [= <-]. exact Hr. }
  destruct y as [rng | ].
  - rewrite app_filter_year_spec. apply Forall_fmap, Forall_forall.
    intros r Hr. apply list_elem_of_filter in Hr. destruct Hr as [Hacc Hr].
    rewrite Forall_forall in Hp. split.
    + intros rng' E. exact (Hp r Hr rng' E).
    + intros rng' [= <-]. split; [exact Hacc | reflexivity].
  - eapply Forall_impl; [exact Hp | ]. intros r Hr. split; [exact Hr | discriminate].
Qed.

Lemma app_apply_filters_ids to_year filters df :
  map (fun r => track_id (track r)) (App.apply_filters to_year filters df)
  `sublist_of` map (fun r => track_id (track r)) df.
Proof.
  assert (forall rng l, map (fun r => track_id (track r)) (App.filter_year to_year rng l)
                        `sublist_of` map (fun r => track_id (track r)) l) as Hyear.
  { intros rng l. rewrite app_filter_year_spec, map_map. cbn [with_year set_year track].
    apply (fmap_sublist (fun r => track_id (track r))), sublist_filter. }
  destruct filters as [[[p | ] [y | ]] | ]; unfold App.apply_filters;
    cbn [popularity_range year_range]; try reflexivity.
  - etransitivity; [apply Hyear | ].
    apply (fmap_sublist (fun r => track_id (track r))), sublist_filter.
  - apply (fmap_sublist (fun r => track_id (track r))), sublist_filter.
  - apply Hyear.
Qed.

(** X7.  [recommend_songs] returns either an error and the empty frame,
    the error being one of three messages, or no error and a frame of
    [min n (size of the filtered pool)] rows, which is not empty when one
    recommendation or more is asked for.  The requests it sends are those of
    the three strategies: they depend neither on [n] nor on the filters. *)
Theorem X7_recommend_songs_outcome (sp : Spotify) (to_year : string -> option Z)
    (seed : details) (n : nat) (filters : option filter_spec) (log : list api_call) :
  let r := App.recommend_songs sp to_year seed n filters log in
  let pool := App.apply_filters to_year filters (App.merge seed (App.gather sp seed log).1) in
  r.2 = (App.gather sp seed log).2
  /\ match r.1.2 with
     | Some e =>
         r.1.1 = []
         /\ pool = []
         /\ (e = "Could not find recommendations" \/ e = "No recommendations found"
             \/ e = "No songs match the filters")
     | None =>
         pool <> [] /\ length r.1.1 = n `min` length pool /\ (n <> 0%nat -> r.1.1 <> [])
     end.
Proof.
  intros r pool. unfold r, pool, App.recommend_songs. run_catalog.
  destruct (App.gather sp seed log) as [all_tracks log1]. cbn [fst snd].
  destruct all_tracks as [ | f fs]; [cbn; destruct filters as [[[?|] [?|]]|]; cbn; tauto | ].
  destruct (App.merge seed (f :: fs)) as [ | r0 t0] eqn:Hm.
  { cbn. split; [reflexivity | split; [reflexivity | ]].
    split; [ | tauto]. destruct filters as [[[?|] [?|]]|]; reflexivity. }
  destruct (App.apply_filters to_year filters (r0 :: t0)) as [ | r1 t1] eqn:Hf.
  { cbn. tauto. }
  cbn [fst snd]. split; [reflexivity | ]. split; [discriminate | ].
  rewrite top_nlargest, nlargest_length.
  unfold App.score, assign_similarity.
  rewrite length_zip_with, app_similarities_length, Nat.min_id.
  split; [reflexivity | ].
  intros Hn Hnil. apply (f_equal length) in Hnil.
  rewrite nlargest_length, length_zip_with, app_similarities_length in Hnil.
  cbn [length] in Hnil. lia.
Qed.

(** X8.  What every frame [recommend_songs] returns satisfies: no two rows
    have one id and none has the seed's id; every row has a similarity
    value, satisfies each filter that was given, and its track is one
    returned by a strategy. *)
Theorem X8_recommend_songs_rows (sp : Spotify) (to_year : string -> option Z)
    (seed : details) (n : nat) (filters : option filter_spec) (log : list api_call) :
  let df := (App.recommend_songs sp to_year seed n filters log).1.1 in
  let ids := map (fun r => track_id (track r)) df in
  NoDup ids
  /\ (track_id seed ∉ ids)
  /\ Forall (fun r => is_Some (similarity r) /\ passes to_year filters r
                      /\ track r ∈ map track (concat (App.gather sp seed log).1)) df.
Proof.
  intros df ids. unfold ids, df. clear ids df.
  destruct (App.recommend_songs sp to_year seed n filters log) as [[df [e | ]] log'] eqn:E.
  { assert (df = []) as ->.
    { revert E. unfold App.recommend_songs. run_catalog.
      destruct (App.gather sp seed log) as [all_tracks log1].
      destruct all_tracks as [ | f fs]; [now intros [= <- _ _] | ].
      destruct (App.merge seed (f :: fs)) as [ | r0 t0]; [now intros [= <- _ _] | ].
      destruct (App.apply_filters to_year filters (r0 :: t0)) as [ | r1 t1];
        [now intros [= <- _ _] | discriminate]. }
    cbn. split; [constructor | ]. split; [apply not_elem_of_nil | constructor]. }
  apply recommend_songs_stages in E. destruct E as [_ ->]. cbn [fst snd].
  set (all_tracks := (App.gather sp seed log).1).
  set (pool := App.merge seed all_tracks).
  set (filtered := App.apply_filters to_year filters pool).
  assert (map (fun r => track_id (track r)) (App.score seed filtered)
          = map (fun r => track_id (track r)) filtered) as Hscore.
  { pose proof (assign_similarity_track filtered (App.similarities seed filtered)
                  (app_similarities_length seed filtered)) as Ht.
    unfold App.score.
    rewrite <- (map_map track track_id), Ht. now rewrite map_map. }
  assert (map (fun r => track_id (track r)) (App.top n (App.score seed filtered))
          ⊆+ map (fun r => track_id (track r)) pool) as Hsub.
  { rewrite top_nlargest.
    transitivity (map (fun r => track_id (track r)) (App.score seed filtered));
      [apply fmap_submseteq, nlargest_submseteq | ].
    rewrite Hscore. apply sublist_submseteq, app_apply_filters_ids. }
  assert (NoDup (map (fun r => track_id (track r)) pool)
          /\ (track_id seed ∉ map (fun r => track_id (track r)) pool)
          /\ pool `sublist_of` concat all_tracks) as (Hnd & Hseed & Hpool).
  { unfold pool, App.merge. repeat split.
    - apply drop_duplicates_from_NoDup.
    - intros Hin. apply list_elem_of_fmap in Hin. destruct Hin as (r & Hid & Hr).
      destruct (drop_duplicates_from_elem _ _ _ _ Hr) as [Hr' _].
      apply list_elem_of_filter in Hr'. destruct Hr' as [Hne _].
      apply Hne. now symmetry.
    - etransitivity; [apply drop_duplicates_from_sublist | apply sublist_filter]. }
  split; [ | split].
  - eapply submseteq_NoDup; eassumption.
  - intros Hin. apply Hseed. eapply elem_of_submseteq; eassumption.
  - apply Forall_forall. intros b Hb.
    rewrite top_nlargest in Hb.
    pose proof (elem_of_submseteq _ _ _ Hb (nlargest_submseteq similarity sim_ltb n _))
      as Hb'.
    clear Hb. unfold App.score in Hb'.
    apply assign_similarity_elem_inv in Hb'. destruct Hb' as (r & s & Hr & _ & ->).
    cbn [set_similarity similarity track].
    split; [now eexists | ].
    pose proof (app_apply_filters_passes to_year filters pool) as Hpass.
    rewrite Forall_forall in Hpass. specialize (Hpass r Hr).
    split.
    + destruct filters as [f | ]; [ | exact I]. exact Hpass.
    + assert (track r ∈ map track filtered) as Ht by now apply list_elem_of_fmap_2.
      assert (map track filtered `sublist_of` map track pool) as Hfp.
      { unfold filtered.
        assert (forall rng l, map track (App.filter_year to_year rng l)
                              `sublist_of` map track l) as Hyear.
        { intros rng l. rewrite app_filter_year_spec, map_map.
          cbn [with_year set_year track].
          apply (fmap_sublist track), sublist_filter. }
        destruct filters as [[[p | ] [y | ]] | ]; unfold App.apply_filters;
          cbn [popularity_range year_range]; try reflexivity.
        - etransitivity; [apply Hyear | ]. apply (fmap_sublist track), sublist_filter.
        - apply (fmap_sublist track), sublist_filter.
        - apply Hyear. }
      eapply sublist_submseteq, elem_of_submseteq in Hfp; [ | exact Ht].
      eapply elem_of_submseteq; [exact Hfp | ].
      apply sublist_submseteq, (fmap_sublist track), Hpool.
Qed.

(** ** Range of the similarity scores *)

Section ScoreRange.
Import Sklearn.
Local Open Scope R_scope.

(** No similarity lies below minus one. *)
Lemma cosine_ge_m1 a b : -1 <= dot (normalize a) (normalize b).
Proof.
  rewrite dot_normalize.
  pose proof (dot_self_nonneg a) as Ha. pose proof (dot_self_nonneg b) as Hb.
  pose proof (cauchy_schwarz a b) as Hcs.
  pose proof (sqrt_pos (dot a a)) as Hna. pose proof (sqrt_pos (dot b b)) as Hnb.
  pose proof (sqrt_sqrt _ Ha) as Hsa. pose proof (sqrt_sqrt _ Hb) as Hsb.
  unfold row_norm, handle_zeros_in_scale.
  set (na := sqrt (dot a a)) in *. set (nb := sqrt (dot b b)) in *.
  assert (- (na * nb) <= dot a b) as Hle.
  { destruct (Rle_dec 0 (dot a b)); [nra | ].
    assert (dot a b * dot a b <= (na * nb) * (na * nb)) by nra.
    assert (0 <= na * nb) by nra. nra. }
  destruct (Req_dec_T na 0) as [E1 | E1]; destruct (Req_dec_T nb 0) as [E2 | E2].
  - assert (0 <= dot a b) by nra. unfold Rdiv. rewrite Rmult_1_l, Rinv_1. lra.
  - assert (0 <= dot a b) by nra.
    apply Rle_trans with 0; [lra | ].
    unfold Rdiv. rewrite Rmult_1_l.
    assert (0 < / nb) by (apply Rinv_0_lt_compat; lra). nra.
  - assert (0 <= dot a b) by nra.
    apply Rle_trans with 0; [lra | ].
    unfold Rdiv. rewrite Rmult_1_r.
    assert (0 < / na) by (apply Rinv_0_lt_compat; lra). nra.
  - assert (0 < na * nb) as Hpos by nra.
    assert (0 < / (na * nb)) as Hinv by now apply Rinv_0_lt_compat.
    replace (-1) with (- (na * nb) * / (na * nb)) by (field; lra).
    unfold Rdiv. apply Rmult_le_compat_r; lra.
Qed.

(** X9.  Every score either ranker computes lies between -1 and 1: the
    scores of app.py for any seed and pool, and the scores of utils.py
    whenever its computation does not raise. *)
Theorem X9_scores_between_minus_one_and_one (self : Utils.RecommendationEngine)
    (seed : details) (df : frame) :
  Forall (fun s => -1 <= s <= 1) (App.similarities seed df)
  /\ (forall sc sims,
        Utils.similarities self (features seed) df = inr (sc, sims) ->
        Forall (fun s => -1 <= s <= 1) sims).
Proof.
  split.
  - rewrite app_similarities_run. apply Forall_fmap, Forall_true.
    intros c. split; [apply cosine_ge_m1 | apply cosine_le_1].
  - intros sc sims H. apply utils_similarities_inr in H. destruct H as (_ & -> & _).
    apply Forall_fmap, Forall_true.
    intros c. split; [apply cosine_ge_m1 | apply cosine_le_1].
Qed.

End ScoreRange.

(** ** Mood search of app.py *)




(** ** The ranker of utils.py *)

Section UtilsRanker.
Import Sklearn.
Local Open Scope R_scope.

Lemma utils_similarities_columns self seed df sc sims :
  Utils.similarities self seed df = inr (sc, sims) ->
  Forall (fun c => Utils.has_column c df) (Utils.feature_columns self).
Proof.
  unfold Utils.similarities, Utils.all_features, Utils.candidate_features.
  case_bool_decide as Hcols; [now intros _ | discriminate].
Qed.

Lemma utils_similarities_iff self seed df :
  (exists sc sims, Utils.similarities self seed df = inr (sc, sims)) <-> scorable self df.
Proof.
  split.
  - intros (sc & sims & H). pose proof (utils_similarities_columns _ _ _ _ _ H) as Hc.
    apply utils_similarities_inr in H. destruct H as (_ & _ & Hdf & Hcols).
    now repeat split.
  - intros (Hdf & Hcols & Hhas).
    destruct (utils_similarities_total self seed df Hdf Hcols Hhas) as [sims H]. eauto.
Qed.

Lemma has_column_built c tracks_data :
  Utils.has_column c (DataFrame tracks_data) <-> built_with c tracks_data.
Proof.
  unfold Utils.has_column, built_with, DataFrame. now rewrite Exists_fmap.
Qed.

Lemma scorable_built self tracks_data :
  scorable self (DataFrame tracks_data) <-> rankable self tracks_data.
Proof.
  unfold scorable, rankable.
  assert (DataFrame tracks_data <> [] <-> tracks_data <> []) as ->.
  { unfold DataFrame. destruct tracks_data; cbn; split; congruence. }
  assert (Forall (fun c => Utils.has_column c (DataFrame tracks_data))
            (Utils.feature_columns self)
          <-> Forall (fun c => built_with c tracks_data) (Utils.feature_columns self)) as ->.
  { apply Forall_iff. intros c. apply has_column_built. }
  reflexivity.
Qed.

Lemma samples_engine_audio : audio_engine Samples.engine.
Proof.
  unfold audio_engine, Utils.audio_keys. apply Forall_forall. intros c Hc.
  apply elem_of_app. now left.
Qed.

(** X11.  For an engine over audio-feature columns and a frame as
    [pd.DataFrame(tracks_data)] builds it, [calculate_similarity] adds the
    similarity column exactly when there is a record, the engine has a feature
    column and every feature column of the engine is a key of some record:
    then each row gets a score, in row order; in every other case the frame
    comes back as it was passed, no exception reaching the caller. *)
Theorem X11_calculate_similarity_succeeds_iff (self : Utils.RecommendationEngine)
    (seed : gmap string R) (tracks_data : list details) :
  audio_engine self ->
  let df := DataFrame tracks_data in
  let out := Utils.calculate_similarity_value self seed df in
  ((exists sc sims, Utils.similarities self seed df = inr (sc, sims))
   <-> rankable self tracks_data)
  /\ (rankable self tracks_data ->
      Forall (fun r => is_Some (similarity r)) out
      /\ map track out = tracks_data /\ Forall (fun r => year r = None) out)
  /\ (~ rankable self tracks_data -> out = df).
Proof.
  intros _ df out.
  assert ((exists sc sims, Utils.similarities self seed df = inr (sc, sims))
          <-> rankable self tracks_data) as Hiff.
  { rewrite <- scorable_built. apply utils_similarities_iff. }
  split; [exact Hiff | ]. split.
  - intros Hok. apply Hiff in Hok. destruct Hok as (sc & sims & H).
    unfold out, Utils.calculate_similarity_value. rewrite H.
    pose proof (utils_similarities_length _ _ _ _ _ H) as Hlen.
    split; [ | split].
    + apply Forall_forall. intros r Hr.
      apply assign_similarity_elem in Hr. destruct Hr as (s & _ & ->). now eexists.
    + rewrite (assign_similarity_track df sims Hlen). unfold df, DataFrame.
      rewrite map_map. apply map_id.
    + pose proof (assign_similarity_year df sims Hlen) as Hy.
      assert (Forall (eq None) (map year (assign_similarity df sims))) as Hall.
      { rewrite Hy. unfold df, DataFrame. rewrite map_map. apply Forall_fmap.
        now apply Forall_true. }
      pose proof (proj1 (Forall_fmap _ _ _) Hall) as Hrows.
      eapply Forall_impl; [exact Hrows | ]. intros r Hr. now symmetry.
  - intros Hno. unfold out, Utils.calculate_similarity_value.
    destruct (Utils.similarities self seed df) as [e | [sc sims]] eqn:H; [reflexivity | ].
    exfalso. apply Hno, Hiff. eauto.
Qed.

Lemma X11_calculate_similarity_witness :
  Forall (fun r => is_Some (similarity r))
    (Utils.calculate_similarity_value Samples.engine (features Samples.seed_A)
       (DataFrame [Samples.cand_A; Samples.cand_B]))
  /\ Utils.calculate_similarity_value Samples.engine (features Samples.seed_A)
       (DataFrame [Samples.song "t1" 50 "2015-06-01" ∅])
     = DataFrame [Samples.song "t1" 50 "2015-06-01" ∅].
Proof.
  split.
  - refine (proj1 (proj1 (proj2 (X11_calculate_similarity_succeeds_iff Samples.engine
                                   (features Samples.seed_A)
                                   [Samples.cand_A; Samples.cand_B]
                                   samples_engine_audio)) _)).
    split; [discriminate | ]. split; [discriminate | ].
    apply Forall_forall. intros c Hc. apply Exists_cons_hd.
    unfold Samples.engine, Utils.feature_columns, feature_cols in Hc.
    repeat (apply elem_of_cons in Hc; destruct Hc as [-> | Hc]; [now eexists | ]).
    now apply not_elem_of_nil in Hc.
  - refine (proj2 (proj2 (X11_calculate_similarity_succeeds_iff Samples.engine
                            (features Samples.seed_A)
                            [Samples.song "t1" 50 "2015-06-01" ∅]
                            samples_engine_audio)) _).
    intros (_ & _ & H). apply Forall_inv in H. unfold built_with in H.
    apply Exists_cons in H. destruct H as [[x Hx] | H]; [discriminate | ].
    now apply Exists_nil in H.
Defined.

Lemma utils_filters_keep_similarity to_year df p y out :
  Utils.apply_filters to_year df p y = inr out ->
  Forall (fun r => similarity r = None) df ->
  Forall (fun r => similarity r = None) out.
Proof.
  intros Hout Hdf.
  assert (Forall (fun r => similarity r = None)
            match p with Some pr => filter (popularity_within pr) df | None => df end) as Hp.
  { destruct p as [pr | ]; [now apply Forall_filter_elem | exact Hdf]. }
  destruct y as [rng | ].
  - apply utils_apply_filters_year in Hout. subst out.
    rewrite app_filter_year_spec. apply Forall_fmap.
    apply Forall_filter_elem. eapply Forall_impl; [exact Hp | ]. now intros r Hr.
  - unfold Utils.apply_filters in Hout. now injection Hout as <-.
Qed.

(** Without scores and without an older similarity column, [nlargest] has
    no column to sort by. *)
Lemma nlargest_without_scores self seed (candidates : frame) n :
  candidates <> [] ->
  Forall (fun r => similarity r = None) candidates ->
  ~ scorable self candidates ->
  Utils.nlargest_similarity n (Utils.calculate_similarity_value self seed candidates)
  = inl "'similarity'".
Proof.
  intros Hne Hnone Hno. unfold Utils.calculate_similarity_value.
  destruct (Utils.similarities self seed candidates) as [e | [sc sims]] eqn:H.
  - unfold Utils.nlargest_similarity. rewrite bool_decide_eq_false_2; [reflexivity | ].
    intros Hex. apply Exists_exists in Hex. destruct Hex as (r' & Hr' & [s Hs]).
    rewrite Forall_forall in Hnone. rewrite (Hnone r' Hr') in Hs. discriminate.
  - exfalso. apply Hno, (utils_similarities_iff self seed candidates). eauto.
Qed.

(** The rows a filter step leaves are rows of its argument, up to the
    year cell. *)
Lemma filter_stage_tracks to_year df filters candidates r :
  filter_stage to_year df filters = inr candidates ->
  r ∈ candidates -> exists r0, r0 ∈ df /\ track r = track r0.
Proof.
  intros Hstage Hr. destruct filters as [[p y] | ]; cbn [filter_stage] in Hstage.
  - cbn [popularity_range year_range] in Hstage.
    assert (forall l : frame,
              r ∈ match p with Some pr => filter (popularity_within pr) l | None => l end ->
              r ∈ l) as Hp.
    { intros l. destruct p as [pr | ]; [ | tauto].
      intros H. apply list_elem_of_filter in H. tauto. }
    destruct y as [rng | ].
    + apply utils_apply_filters_year in Hstage. subst candidates.
      rewrite app_filter_year_spec in Hr. apply list_elem_of_fmap in Hr.
      destruct Hr as (r0 & -> & Hr0). apply list_elem_of_filter in Hr0.
      destruct Hr0 as [_ Hr0]. exists r0. split; [ | reflexivity].
      destruct p as [pr | ]; [ | exact Hr0].
      apply list_elem_of_filter in Hr0. tauto.
    + unfold Utils.apply_filters in Hstage. injection Hstage as <-.
      exists r. split; [now apply Hp | reflexivity].
  - injection Hstage as <-. now exists r.
Qed.

(** X12.  For an engine over audio-feature columns and a frame as
    [pd.DataFrame(tracks_data)] builds it, [recommend] raises
    [KeyError: 'similarity'] instead of returning recommendations when
    candidates are left after the filters and the engine has no feature
    column or the frame, before the filters, lacks one of them: the failure
    [calculate_similarity] swallows comes back at [nlargest]. *)
Theorem X12_recommend_key_error (to_year : string -> option Z)
    (self : Utils.RecommendationEngine) (seed : gmap string R)
    (tracks_data : list details) (n : nat) (filters : option filter_spec)
    (candidates : frame) :
  audio_engine self ->
  filter_stage to_year (DataFrame tracks_data) filters = inr candidates ->
  candidates <> [] ->
  Utils.feature_columns self = []
  \/ Exists (fun c => ~ built_with c tracks_data) (Utils.feature_columns self) ->
  Utils.recommend to_year self seed (DataFrame tracks_data) n filters = inl "'similarity'".
Proof.
  intros _ Hstage Hne Hmissing.
  assert (Forall (fun r => similarity r = None) (DataFrame tracks_data)) as Hsim.
  { unfold DataFrame. apply Forall_fmap. now apply Forall_true. }
  assert (Forall (fun r => similarity r = None) candidates) as Hnone.
  { destruct filters as [f | ]; cbn [filter_stage] in Hstage.
    - eapply utils_filters_keep_similarity; eassumption.
    - now injection Hstage as <-. }
  assert (~ scorable self candidates) as Hno.
  { intros (_ & Hcols & Hhas). destruct Hmissing as [Hnil | Hex]; [congruence | ].
    apply Exists_exists in Hex. destruct Hex as (c & Hc & Hnot). apply Hnot.
    rewrite Forall_forall in Hhas. specialize (Hhas c Hc).
    apply has_column_built. unfold Utils.has_column in *.
    apply Exists_exists in Hhas. destruct Hhas as (r & Hr & Hsome).
    destruct (filter_stage_tracks to_year _ filters candidates r Hstage Hr)
      as (r0 & Hr0 & Htrack).
    apply Exists_exists. exists r0. split; [exact Hr0 | ]. now rewrite <- Htrack. }
  unfold Utils.recommend. fold (filter_stage to_year (DataFrame tracks_data) filters).
  rewrite Hstage.
  cbn [exc_bind]. destruct candidates as [ | r t] eqn:E; [congruence | ]. rewrite <- E in *.
  now apply nlargest_without_scores.
Qed.

Lemma X12_recommend_key_error_witness :
  Utils.recommend Samples.iso_year Samples.engine (features Samples.seed_A)
    (DataFrame [Samples.song "t1" 50 "2015-06-01" ∅; Samples.song "t2" 90 "1999" ∅]) 2
    (Some {| popularity_range := Some (40, 60)%Z; year_range := None |})
  = inl "'similarity'".
Proof.
  apply (X12_recommend_key_error Samples.iso_year Samples.engine (features Samples.seed_A)
           [Samples.song "t1" 50 "2015-06-01" ∅; Samples.song "t2" 90 "1999" ∅] 2
           (Some {| popularity_range := Some (40, 60)%Z; year_range := None |})
           (DataFrame [Samples.song "t1" 50 "2015-06-01" ∅])).
  - exact samples_engine_audio.
  - reflexivity.
  - discriminate.
  - right. apply Exists_cons_hd. unfold built_with. intros H.
    repeat (apply Exists_cons in H; destruct H as [[x Hx] | H]; [discriminate | ]).
    now apply Exists_nil in H.
Defined.



End UtilsRanker.

(** ** The two filter implementations *)


(** ** The candidate pools of utils.py *)

Lemma collect_info_run sp items acc log :
  Utils.collect_info sp items acc log
  = (acc ++ omap (extracted sp) items, log ++ concat (map feature_request items)).
Proof.
  revert acc log. induction items as [ | t rest IH]; intros acc log; cbn [Utils.collect_info].
  - cbn. now rewrite !app_nil_r.
  - unfold bind at 1. rewrite utils_extract_track_info_log.
    cbn [omap list_omap map concat]. fold (omap (extracted sp) rest).
    unfold extracted at 1.
    destruct ((Utils.extract_track_info sp t []).1) as [d | ]; rewrite IH.
    + now rewrite <- !app_assoc.
    + now rewrite <- !app_assoc.
Qed.

Lemma metadata_no_features track d : metadata track = inr d -> features d = ∅.
Proof.
  unfold metadata.
  destruct track as [rid rname rart ralb rprev rpop rdur rext]; cbn [raw_id raw_name
    raw_artists raw_album_field raw_preview_url raw_popularity raw_duration_ms
    raw_external_urls].
  destruct rid as [id | ]; cbn; [ | discriminate].
  destruct rname as [nm | ]; cbn; [ | discriminate].
  destruct rart as [artists | ]; cbn; [ | discriminate].
  destruct (comprehension (fun a => getitem "name" (artist_name a)) artists)
    as [e | names]; cbn; [discriminate | ].
  destruct ralb as [[aname aimgs arel] | ]; cbn; [ | discriminate].
  destruct aname as [an | ]; cbn; [ | discriminate].
  destruct aimgs as [imgs | ]; cbn; [ | discriminate].
  destruct imgs as [ | [[u | ]] rest]; cbn; try discriminate.
  all: destruct rprev as [prev | ]; cbn; try discriminate.
  all: destruct rpop as [pop | ]; cbn; try discriminate.
  all: destruct arel as [rel | ]; cbn; try discriminate.
  all: destruct rdur as [dur | ]; cbn; try discriminate.
  all: destruct rext as [urls | ]; cbn; try discriminate.
  all: destruct (urls !! "spotify") as [ext | ]; cbn; try discriminate.
  all: now intros [= <-].
Qed.

Lemma utils_id sp t d : extracted sp t = Some d -> raw_id t = Some (track_id d).
Proof.
  unfold extracted, Utils.extract_track_info.
  destruct (raw_id t) as [id | ] eqn:Hid; run_catalog; cbn [getitem]; [ | discriminate].
  rewrite utils_get_audio_features_run. cbn [fst snd].
  unfold Utils.build_info.
  destruct (metadata t) as [e | info] eqn:Hm; cbn [exc_bind]; [discriminate | ].
  destruct (metadata_fields t info Hm) as [Hinfo _]. rewrite Hid in Hinfo.
  injection Hinfo as ->.
  match goal with |- context [match ?a with Some _ => _ | None => _ end] =>
    destruct a as [af | ] end.
  - case_bool_decide; [now intros [= <-] | ].
    destruct (Utils.read_features af); cbn [exc_bind]; [discriminate | now intros [= <-]].
  - now intros [= <-].
Qed.

(** Without audio features a record that is extracted has no feature
    entry. *)
Lemma extracted_without_features sp t d :
  (forall id, (Utils.get_audio_features sp id []).1 = None) ->
  extracted sp t = Some d -> features d = ∅.
Proof.
  intros Hnone. unfold extracted, Utils.extract_track_info.
  destruct (raw_id t) as [id | ] eqn:Hid; run_catalog; cbn [getitem]; [ | discriminate].
  pose proof (Hnone id) as Hid'.
  destruct (Utils.get_audio_features sp id []) as [af log']. cbn [fst snd] in *. subst af.
  unfold Utils.build_info.
  destruct (metadata t) as [e | info] eqn:Hm; cbn [exc_bind]; [discriminate | ].
  intros [= <-]. exact (metadata_no_features t info Hm).
Qed.

Lemma omap_extracted_ids sp (items : list raw_track) :
  map (fun d => Some (track_id d)) (omap (extracted sp) items)
  `sublist_of` map raw_id items.
Proof.
  induction items as [ | t rest IH]; cbn; [constructor | ].
  destruct (extracted sp t) as [d | ] eqn:E; cbn.
  - rewrite (utils_id sp t d E). now apply sublist_skip.
  - now apply sublist_cons.
Qed.

Lemma get_recommendations_pool_run sp seed_track_id limit log :
  Utils.get_recommendations_pool sp seed_track_id limit log
  = match recommendations sp [seed_track_id] [] limit ∅ with
    | inr tracks =>
        (DataFrame (omap (extracted sp) tracks),
         log ++ [Recommendations [seed_track_id] [] limit ∅]
             ++ concat (map feature_request tracks))
    | inl _ => (DataFrame [], log ++ [Recommendations [seed_track_id] [] limit ∅])
    end.
Proof.
  unfold Utils.get_recommendations_pool. run_catalog.
  destruct (recommendations sp [seed_track_id] [] limit ∅) as [e | tracks]; [reflexivity | ].
  rewrite collect_info_run. cbn [fst snd app]. now rewrite <- app_assoc.
Qed.

(** X15.  Both pools of utils.py come from one recommendations request:
    for the seed track with no genre and no target, or for the genres and
    targets of a recognized mood with no seed track.  The pool holds, in the
    order of the answer, the tracks that [extract_track_info] accepts, and
    one feature request is sent per track with an id; when the request
    raises the pool is empty and nothing tells the caller. *)
Theorem X15_utils_pools (sp : Spotify) (seed_track_id mood : string) (limit : nat)
    (log : list api_call) (params : gmap string R) :
  let pool_of (call : api_call) (answer : exc (list raw_track)) : frame * list api_call :=
    match answer with
    | inr tracks =>
        (DataFrame (omap (extracted sp) tracks),
         log ++ [call] ++ concat (map feature_request tracks))
    | inl _ => (DataFrame [], log ++ [call])
    end in
  let genres := if bool_decide (mood = "workout") then ["rock"; "electronic"] else [mood] in
  Utils.get_recommendations_pool sp seed_track_id limit log
  = pool_of (Recommendations [seed_track_id] [] limit ∅)
            (recommendations sp [seed_track_id] [] limit ∅)
  /\ (Utils.MOOD_PARAMETERS !! mood = Some params ->
      Utils.get_mood_recommendations sp mood limit log
      = pool_of (Recommendations [] genres limit params)
                (recommendations sp [] genres limit params))
  /\ (forall tracks,
        map (fun d => Some (track_id d)) (omap (extracted sp) tracks)
        `sublist_of` map raw_id tracks).
Proof.
  intros pool_of genres. split; [apply get_recommendations_pool_run | ]. split.
  - intros Hm. unfold Utils.get_mood_recommendations. rewrite Hm. run_catalog.
    assert ((if bool_decide (mood ≠ "workout") then [mood] else ["rock"; "electronic"])
            = genres) as ->.
    { unfold genres. repeat case_bool_decide; congruence. }
    unfold pool_of.
    destruct (recommendations sp [] genres limit params) as [e | tracks]; [reflexivity | ].
    rewrite collect_info_run. cbn [fst snd app]. now rewrite <- app_assoc.
  - apply omap_extracted_ids.
Qed.

(** X16.  When the catalog has audio features for no track, a pool that
    [get_recommendations_pool] returns has no audio-feature column, and
    [recommend] with an engine over audio-feature columns cannot rank it:
    unless the pool is empty, the call raises [KeyError: 'similarity'], for
    every such engine and every seed. *)
Theorem X16_pool_without_features_is_not_ranked (to_year : string -> option Z)
    (sp : Spotify) (self : Utils.RecommendationEngine) (seed : gmap string R)
    (seed_track_id : string) (limit n : nat) (log : list api_call) :
  audio_engine self ->
  (forall id, (Utils.get_audio_features sp id []).1 = None) ->
  let pool := (Utils.get_recommendations_pool sp seed_track_id limit log).1 in
  pool <> [] ->
  Utils.recommend to_year self seed pool n None = inl "'similarity'".
Proof.
  intros _ Hnone pool Hne. unfold Utils.recommend. cbn [exc_bind].
  destruct pool as [ | r t] eqn:E; [congruence | ]. rewrite <- E in *.
  assert (Forall (fun r => similarity r = None /\ features (track r) = ∅) pool) as Hrows.
  { unfold pool. rewrite get_recommendations_pool_run.
    destruct (recommendations sp [seed_track_id] [] limit ∅) as [e | tracks];
      cbn [fst]; [constructor | ].
    unfold DataFrame. apply Forall_fmap, Forall_forall. intros d Hd. cbn.
    split; [reflexivity | ].
    apply list_elem_of_omap in Hd. destruct Hd as (t0 & _ & Ht0).
    exact (extracted_without_features sp t0 d Hnone Ht0). }
  apply nlargest_without_scores; [exact Hne | | ].
  - eapply Forall_impl; [exact Hrows | ]. now intros r0 [H0 _].
  - intros (_ & Hcols & Hhas).
    destruct (Utils.feature_columns self) as [ | c cs]; [congruence | ].
    apply Forall_inv in Hhas. unfold Utils.has_column in Hhas.
    apply Exists_exists in Hhas. destruct Hhas as (r0 & Hr0 & [x Hx]).
    rewrite Forall_forall in Hrows. destruct (Hrows r0 Hr0) as [_ Hf].
    rewrite Hf, lookup_empty in Hx. discriminate.
Qed.

Lemma X16_pool_without_features_witness :
  (Utils.get_recommendations_pool Samples.sp_no_features "seed" 50 []).1 <> []
  /\ Utils.recommend Samples.iso_year Samples.engine (features Samples.seed_A)
       (Utils.get_recommendations_pool Samples.sp_no_features "seed" 50 []).1 10 None
     = inl "'similarity'".
Proof.
  split; [discriminate | ].
  apply (X16_pool_without_features_is_not_ranked Samples.iso_year Samples.sp_no_features
           Samples.engine (features Samples.seed_A) "seed" 50 10 []).
  - exact samples_engine_audio.
  - intros id. reflexivity.
  - discriminate.
Defined.

(** ** Start-up and song search *)

Section StartupFacts.
Variable strip : string -> string.
Variable connect : string -> string -> exc Spotify.

(** X17.  [fetch_song] sends no request for a query that is empty or
    blank.  For any other query it sends one search, for the stripped query
    with limit 1, and returns what [search_track] of utils.py returns for
    that query: the first hit and no error, or no track and an error.  A
    track and an error are never returned together, nor neither of them. *)
Theorem X17_fetch_song_outcome (sp : Spotify) (query : string) (log : list api_call) :
  let r := App.fetch_song strip sp query log in
  let blank := query = "" \/ strip query = "" in
  (blank -> r = ((None, Some "Empty search query"), log))
  /\ (~ blank ->
      r.2 = log ++ [Search (strip query) 1]
      /\ r.1.1 = (Utils.search_track sp (strip query) 1 log).1
      /\ r.2 = (Utils.search_track sp (strip query) 1 log).2)
  /\ (is_Some r.1.1 <-> r.1.2 = None)
  /\ (forall t, r.1.1 = Some t ->
        exists rest, search sp (strip query) 1 = inr (t :: rest)).
Proof.
  intros r blank. unfold r, blank, App.fetch_song, Utils.search_track. clear r blank.
  run_catalog.
  destruct (decide (query = "" \/ strip query = "")) as [Hb | Hnb].
  - assert (bool_decide (query = "") || bool_decide (strip query = "") = true) as ->.
    { destruct Hb as [Hb | Hb]; rewrite (bool_decide_eq_true_2 _ Hb);
        [reflexivity | apply orb_true_r]. }
    cbn [fst snd]. split; [reflexivity | ]. split; [contradiction | ].
    split; [ | intros t Ht; discriminate].
    split; [intros [t Ht]; discriminate | discriminate].
  - assert (bool_decide (query = "") || bool_decide (strip query = "") = false) as ->.
    { apply orb_false_iff. split; apply bool_decide_eq_false_2; tauto. }
    split; [contradiction | ].
    destruct (search sp (strip query) 1) as [e | [ | first rest]]; cbn [fst snd head].
    + split; [now intros _ | ]. split; [ | intros t Ht; discriminate].
      split; [intros [t Ht]; discriminate | discriminate].
    + split; [now intros _ | ]. split; [ | intros t Ht; discriminate].
      split; [intros [t Ht]; discriminate | discriminate].
    + split; [now intros _ | ]. split; [ | intros t [= <-]; eauto].
      split; [reflexivity | eauto].
Qed.



End StartupFacts.

(** ** Feature statistics (utils.py 397-417) *)

Section FeatureStats.
Import Sklearn.
Local Open Scope R_scope.

Lemma stats_loop_raised df cols e : stats_loop df cols (inl e) = inl e.
Proof. induction cols as [ | c cs IH]; [reflexivity | exact IH]. Qed.

Lemma stats_loop_raises df cols stats e :
  stats_loop df cols (inr stats) = inl e ->
  exists col, col ∈ cols /\ df !! col = Some Utils.Text.
Proof.
  revert stats. induction cols as [ | c cs IH]; intros stats; [discriminate | ].
  unfold stats_loop. cbn [fold_left exc_bind]. fold (stats_loop df cs).
  destruct (df !! c) as [[cells | ] | ] eqn:Hc.
  - intros H. destruct (IH _ H) as (col & Hin & Hcol).
    exists col. split; [now apply list_elem_of_further | exact Hcol].
  - intros _. exists c. split; [apply list_elem_of_here | exact Hc].
  - intros H. destruct (IH _ H) as (col & Hin & Hcol).
    exists col. split; [now apply list_elem_of_further | exact Hcol].
Qed.

Lemma stats_loop_returns df cols acc stats col :
  stats_loop df cols (inr acc) = inr stats ->
  Forall (fun c => df !! c <> Some Utils.Text) cols
  /\ stats !! col
     = match df !! col with
       | Some (Utils.Numbers cells) =>
           if decide (col ∈ cols) then Some (Utils.describe cells) else acc !! col
       | _ => acc !! col
       end.
Proof.
  revert acc. induction cols as [ | c cs IH]; intros acc.
  - intros [= <-]. split; [constructor | ].
    destruct (df !! col) as [[cells | ] | ]; reflexivity.
  - unfold stats_loop. cbn [fold_left exc_bind]. fold (stats_loop df cs).
    destruct (df !! c) as [[cells | ] | ] eqn:Hc.
    + intros H. destruct (IH _ H) as [Hall Hlook]. split.
      { constructor; [congruence | exact Hall]. }
      rewrite Hlook. destruct (decide (col = c)) as [-> | Hne].
      * rewrite Hc. rewrite (decide_True (P := c ∈ c :: cs)) by apply list_elem_of_here.
        destruct (decide (c ∈ cs)); [reflexivity | apply lookup_insert_eq].
      * rewrite lookup_insert_ne by congruence.
        destruct (df !! col) as [[cells' | ] | ]; try reflexivity.
        destruct (decide (col ∈ cs)) as [Hin | Hin].
        -- rewrite decide_True; [reflexivity | now apply list_elem_of_further].
        -- rewrite decide_False; [reflexivity | ].
           intros H'. apply elem_of_cons in H'. destruct H' as [H' | H']; contradiction.
    + intros H.
      pose proof (stats_loop_raised df cs "Could not convert string to numeric") as E.
      unfold stats_loop in E. rewrite E in H. discriminate.
    + intros H. destruct (IH _ H) as [Hall Hlook]. split.
      { constructor; [congruence | exact Hall]. }
      rewrite Hlook. destruct (df !! col) as [[cells' | ] | ] eqn:Hcol; try reflexivity.
      destruct (decide (col ∈ cs)) as [Hin | Hin].
      * rewrite decide_True; [reflexivity | now apply list_elem_of_further].
      * rewrite decide_False; [reflexivity | ].
        intros H'. apply elem_of_cons in H'. destruct H' as [-> | H']; [congruence | ].
        contradiction.
Qed.

Lemma fold_Rmin_spec x rest :
  fold_right Rmin x rest ∈ x :: rest
  /\ Forall (fun v => fold_right Rmin x rest <= v) (x :: rest).
Proof.
  induction rest as [ | y t [Hin Hle]]; cbn [fold_right].
  - split; [apply list_elem_of_here | ]. constructor; [lra | constructor].
  - set (m := fold_right Rmin x t) in *. split.
    + unfold Rmin. destruct (Rle_dec y m).
      * apply list_elem_of_further, list_elem_of_here.
      * apply elem_of_cons in Hin. destruct Hin as [Hin | Hin].
        -- rewrite Hin. apply list_elem_of_here.
        -- now apply list_elem_of_further, list_elem_of_further.
    + pose proof (Rmin_l y m) as Hl. pose proof (Rmin_r y m) as Hr.
      apply Forall_cons in Hle. destruct Hle as [Hx Ht].
      constructor; [lra | ]. constructor; [exact Hl | ].
      eapply Forall_impl; [exact Ht | ]. intros v Hv. cbn in Hv. lra.
Qed.

Lemma fold_Rmax_spec x rest :
  fold_right Rmax x rest ∈ x :: rest
  /\ Forall (fun v => v <= fold_right Rmax x rest) (x :: rest).
Proof.
  induction rest as [ | y t [Hin Hle]]; cbn [fold_right].
  - split; [apply list_elem_of_here | ]. constructor; [lra | constructor].
  - set (m := fold_right Rmax x t) in *. split.
    + unfold Rmax. destruct (Rle_dec y m).
      * apply elem_of_cons in Hin. destruct Hin as [Hin | Hin].
        -- rewrite Hin. apply list_elem_of_here.
        -- now apply list_elem_of_further, list_elem_of_further.
      * apply list_elem_of_further, list_elem_of_here.
    + pose proof (Rmax_l y m) as Hl. pose proof (Rmax_r y m) as Hr.
      apply Forall_cons in Hle. destruct Hle as [Hx Ht].
      constructor; [lra | ]. constructor; [exact Hl | ].
      eapply Forall_impl; [exact Ht | ]. intros v Hv. cbn in Hv. lra.
Qed.

Lemma Rsum_bounds lo hi l :
  Forall (fun v => lo <= v <= hi) l ->
  INR (length l) * lo <= Rsum l <= INR (length l) * hi.
Proof.
  induction 1 as [ | v t Hv Ht IH].
  - cbn. lra.
  - change (Rsum (v :: t)) with (v + Rsum t). cbn [length]. rewrite S_INR. lra.
Qed.

Lemma col_mean_bounds lo hi l :
  l <> [] -> Forall (fun v => lo <= v <= hi) l -> lo <= col_mean l <= hi.
Proof.
  intros Hne Hall. pose proof (Rsum_bounds lo hi l Hall) as Hsum.
  assert (0 < INR (length l)) as Hpos.
  { apply lt_0_INR. destruct l; [congruence | cbn; lia]. }
  unfold col_mean. generalize dependent (Rsum l). intros s Hs.
  generalize dependent (INR (length l)). intros k Hk Hs.
  assert (0 < / k) as Hinv by now apply Rinv_0_lt_compat.
  assert (s / k * k = s) as Hmul by (field; lra).
  split.
  - apply Rmult_le_reg_r with k; [exact Hk | ]. rewrite Hmul. lra.
  - apply Rmult_le_reg_r with k; [exact Hk | ]. rewrite Hmul. lra.
Qed.

(** A frame of two tracks, the second without audio features: popularity
    is a column and gets an entry, energy gets an entry from the one value
    there is, liveness, all NaN, gets an entry of NaN, and a name that is no
    column gets none.  Asking for the statistics of the name column
    raises. *)
Example feature_stats_of_track_columns :
  let df : Utils.columns :=
    {[ "name" := Utils.Text;
       "popularity" := Utils.Numbers [Some 50; Some 70];
       "energy" := Utils.Numbers [Some 0.5; None];
       "liveness" := Utils.Numbers [None; None] ]} in
  (exists stats,
     Utils.calculate_feature_stats df ["popularity"; "energy"; "liveness"; "bpm"]
     = inr stats
     /\ Utils.stat_min <$> stats !! "popularity" = Some (Some 50)
     /\ Utils.stat_max <$> stats !! "popularity" = Some (Some 70)
     /\ Utils.stat_std <$> stats !! "energy" = Some None
     /\ stats !! "liveness"
        = Some {| Utils.stat_mean := None; Utils.stat_std := None;
                  Utils.stat_min := None; Utils.stat_max := None |}
     /\ stats !! "bpm" = None)
  /\ Utils.calculate_feature_stats df ["popularity"; "name"]
     = inl "Could not convert string to numeric".
Proof.
  cbv zeta. split; [ | reflexivity].
  eexists. split; [reflexivity | ].
  split; [ | split; [ | split; [ | split]]].
  - rewrite !lookup_insert_ne by discriminate. rewrite lookup_insert_eq.
    cbn. unfold Rmin. destruct (Rle_dec 70 50) as [H | H]; [lra | reflexivity].
  - rewrite !lookup_insert_ne by discriminate. rewrite lookup_insert_eq.
    cbn. unfold Rmax. destruct (Rle_dec 70 50) as [H | H]; [lra | reflexivity].
  - rewrite lookup_insert_ne by discriminate. rewrite lookup_insert_eq. reflexivity.
  - rewrite lookup_insert_eq. reflexivity.
  - rewrite !lookup_insert_ne by discriminate. apply lookup_empty.
Qed.

(** X19.  [calculate_feature_stats] raises only when a requested column
    is a column of text.  When it returns, it has an entry for exactly the
    requested columns that are columns of the frame, a column whose cells are
    all NaN included: its four statistics are NaN.  In the entry of a column
    with a value, the minimum and the maximum are values of the column that
    bound every value, the mean lies between them, and the standard deviation
    is NaN exactly when the column holds a single value and is never
    negative. *)
Theorem X19_feature_stats (df : Utils.columns) (feature_columns : list string) :
  match Utils.calculate_feature_stats df feature_columns with
  | inl e => exists col, col ∈ feature_columns /\ df !! col = Some Utils.Text
  | inr stats =>
      Forall (fun col => df !! col <> Some Utils.Text) feature_columns
      /\ (forall col,
            is_Some (stats !! col) <-> col ∈ feature_columns /\ is_Some (df !! col))
      /\ (forall col st, stats !! col = Some st ->
            exists cells,
              df !! col = Some (Utils.Numbers cells)
              /\ let values := Utils.dropna cells in
                 match values with
                 | [] =>
                     Utils.stat_mean st = None /\ Utils.stat_std st = None
                     /\ Utils.stat_min st = None /\ Utils.stat_max st = None
                 | _ =>
                     exists mean lo hi,
                       Utils.stat_mean st = Some mean /\ Utils.stat_min st = Some lo
                       /\ Utils.stat_max st = Some hi
                       /\ lo ∈ values /\ hi ∈ values
                       /\ Forall (fun v => lo <= v <= hi) values
                       /\ lo <= mean <= hi
                       /\ (Utils.stat_std st = None <-> length values = 1%nat)
                       /\ (forall sd, Utils.stat_std st = Some sd -> 0 <= sd)
                 end)
  end.
Proof.
  change (Utils.calculate_feature_stats df feature_columns)
    with (stats_loop df feature_columns (inr ∅)).
  destruct (stats_loop df feature_columns (inr ∅)) as [e | stats] eqn:Hrun.
  { exact (stats_loop_raises df feature_columns ∅ e Hrun). }
  pose proof (fun col => stats_loop_returns df feature_columns ∅ stats col Hrun) as Hloop.
  destruct (Hloop "") as [Hnotext _].
  assert (forall col,
            stats !! col
            = match df !! col with
              | Some (Utils.Numbers cells) =>
                  if decide (col ∈ feature_columns) then Some (Utils.describe cells)
                  else None
              | _ => None
              end) as Hlook.
  { intros col. destruct (Hloop col) as [_ ->]. rewrite lookup_empty.
    now destruct (df !! col) as [[cells | ] | ]. }
  split; [exact Hnotext | ]. split.
  - intros col. rewrite Hlook.
    destruct (df !! col) as [[cells | ] | ] eqn:Hcol.
    + destruct (decide (col ∈ feature_columns)) as [H | H].
      * split; [eauto | eauto].
      * split; [intros [x Hx]; discriminate | tauto].
    + split; [intros [x Hx]; discriminate | ].
      intros [Hin _]. rewrite Forall_forall in Hnotext. now destruct (Hnotext col Hin).
    + split; [intros [x Hx]; discriminate | intros [_ [x Hx]]; discriminate].
  - intros col st. rewrite Hlook.
    destruct (df !! col) as [[cells | ] | ]; [ | discriminate | discriminate].
    destruct (decide (col ∈ feature_columns)); [ | discriminate].
    intros [= <-]. exists cells. split; [reflexivity | ]. cbv zeta.
    unfold Utils.describe.
    cbn [Utils.stat_mean Utils.stat_std Utils.stat_min Utils.stat_max].
    destruct (Utils.dropna cells) as [ | x rest]; [now repeat split | ].
    destruct (fold_Rmin_spec x rest) as [Hminin Hmin].
    destruct (fold_Rmax_spec x rest) as [Hmaxin Hmax].
    assert (Forall (fun v => fold_right Rmin x rest <= v <= fold_right Rmax x rest)
              (x :: rest)) as Hboth.
    { apply Forall_forall. intros v Hv. rewrite Forall_forall in Hmin, Hmax.
      split; [now apply Hmin | now apply Hmax]. }
    exists (col_mean (x :: rest)), (fold_right Rmin x rest), (fold_right Rmax x rest).
    cbn [Utils.series_mean Utils.series_min Utils.series_max].
    do 3 (split; [reflexivity | ]).
    split; [exact Hminin | ]. split; [exact Hmaxin | ]. split; [exact Hboth | ].
    split; [now apply col_mean_bounds | ].
    destruct rest as [ | y rest']; cbn [Utils.series_std length].
    + split; [tauto | discriminate].
    + split; [split; [discriminate | lia] | ].
      intros sd [= <-]. apply sqrt_pos.
Qed.

End FeatureStats.

(** ** Duration labels (utils.py 381-394) *)

Section DurationFacts.
Local Open Scope Z_scope.

Example format_duration_samples :
  Utils.format_duration 215000 = inr "3:35"
  /\ Utils.format_duration 61999 = inr "1:01"
  /\ Utils.format_duration 3600000 = inr "60:00"
  /\ Utils.format_duration (-1500) = inr "-1:59".
Proof. repeat split; reflexivity. Qed.

(** Beyond 2^53 the float division rounds: 29999999999999999 ms are
    29999999999999 whole seconds, and the quotient is rounded to
    30000000000000, so that the label is the one of 30000000000000000 ms. *)
Example format_duration_rounds_large_durations :
  Utils.int_truediv 29999999999999999 1000 = inr 30000000000000
  /\ 29999999999999999 `quot` 1000 = 29999999999999
  /\ Utils.format_duration 29999999999999999 = inr "500000000000:00"
  /\ Utils.format_duration 30000000000000000 = inr "500000000000:00".
Proof. repeat split; vm_compute; reflexivity. Qed.

(** Scaled by a power of two above 500, the rounded quotient by 1000 has
    the integer part of the quotient itself. *)
Lemma round_half_even_scaled a P :
  0 <= a -> 500 < P ->
  Utils.round_half_even (a * P) 1000 `div` P = a `div` 1000.
Proof.
  intros Ha HP.
  pose proof (Z.div_mod a 1000 ltac:(lia)) as Hk.
  pose proof (Z.mod_pos_bound a 1000 ltac:(lia)) as Hr.
  pose proof (Z.div_mod (a * P) 1000 ltac:(lia)) as Hq.
  pose proof (Z.mod_pos_bound (a * P) 1000 ltac:(lia)) as Hr0.
  set (k := a `div` 1000) in *. set (r := a `mod` 1000) in *.
  assert (Utils.round_half_even (a * P) 1000 = (a * P) `div` 1000
          \/ (Utils.round_half_even (a * P) 1000 = (a * P) `div` 1000 + 1
              /\ 1000 <= 2 * ((a * P) `mod` 1000))) as Hm.
  { unfold Utils.round_half_even. cbv zeta.
    destruct (2 * ((a * P) `mod` 1000) <? 1000) eqn:E1; [now left | ].
    apply Z.ltb_ge in E1.
    destruct (1000 <? 2 * ((a * P) `mod` 1000)); [now right | ].
    destruct (Z.even ((a * P) `div` 1000)); [now left | now right]. }
  set (q0 := (a * P) `div` 1000) in *. set (r0 := (a * P) `mod` 1000) in *.
  set (m := Utils.round_half_even (a * P) 1000) in *.
  assert (k * P <= m < (k + 1) * P) as Hbounds.
  { assert (k * P <= q0) by nia.
    assert (q0 < (k + 1) * P) by nia.
    destruct Hm as [-> | [-> Hhalf]]; [lia | ].
    split; [lia | ]. nia. }
  symmetry. apply (Z.div_unique m P k (m - k * P)); [lia | lia].
Qed.

Lemma truediv_magnitude_exact a :
  0 < a < 2 ^ 53 -> Utils.truediv_magnitude a 1000 = inr (a `div` 1000).
Proof.
  intros Ha. unfold Utils.truediv_magnitude. cbv zeta.
  change (Z.log2 1000) with 9.
  assert (0 <= Z.log2 a < 53) as Hlog.
  { split; [apply Z.log2_nonneg | apply Z.log2_lt_pow2; lia]. }
  set (e0 := Z.log2 a - 9).
  set (e := if (if 0 <=? e0 then 1000 * 2 ^ e0 <=? a else 1000 <=? a * 2 ^ (- e0))
            then e0 else e0 - 1).
  assert (e <= 43) as He.
  { unfold e. destruct (if 0 <=? e0 then _ else _); unfold e0; lia. }
  rewrite (proj2 (Z.leb_le 0 (52 - e))) by lia.
  f_equal. apply round_half_even_scaled; [lia | ].
  assert (2 ^ 9 <= 2 ^ (52 - e)) by (apply Z.pow_le_mono_r; lia).
  lia.
Qed.

(** Below 2^53 in absolute value, [int(duration_ms / 1000)] is the
    quotient cut off toward zero. *)
Lemma int_truediv_exact a :
  Z.abs a < 2 ^ 53 -> Utils.int_truediv a 1000 = inr (a `quot` 1000).
Proof.
  intros Ha. unfold Utils.int_truediv. cbn [Z.eqb].
  destruct (a =? 0) eqn:E.
  - apply Z.eqb_eq in E. subst a. reflexivity.
  - apply Z.eqb_neq in E.
    rewrite truediv_magnitude_exact by lia. cbn [exc_bind]. f_equal.
    now rewrite (Z.quot_div a 1000) by lia.
Qed.

Lemma length_append (a b : string) :
  String.length (a +:+ b) = (String.length a + String.length b)%nat.
Proof.
  induction a as [ | c a IH]; [reflexivity | ].
  change (S (String.length (a +:+ b)) = S (String.length a + String.length b))%nat.
  now rewrite IH.
Qed.

(** Two concatenations with right parts of one length are equal only
    part by part. *)
Lemma append_inj (a1 a2 b1 b2 : string) :
  String.length b1 = String.length b2 -> a1 +:+ b1 = a2 +:+ b2 -> a1 = a2 /\ b1 = b2.
Proof.
  intros Hlen. revert a2. induction a1 as [ | c a1 IH]; intros [ | c2 a2] H; simpl in H.
  - now split.
  - exfalso. change (b1 = String c2 (a2 +:+ b2)) in H. rewrite H in Hlen.
    simpl in Hlen. rewrite length_append in Hlen. lia.
  - exfalso. change (String c (a1 +:+ b1) = b2) in H. rewrite <- H in Hlen.
    simpl in Hlen. rewrite length_append in Hlen. lia.
  - change (String c (a1 +:+ b1) = String c2 (a2 +:+ b2)) in H.
    injection H as -> H. destruct (IH a2 H) as [-> ->]. now split.
Qed.

Lemma seconds_fields_lookup s :
  0 <= s < 60 -> seconds_fields !! Z.to_nat s = Some (Utils.two_digits s).
Proof.
  intros Hs. unfold seconds_fields. rewrite list_lookup_fmap, lookup_seq_lt by lia.
  cbn. now rewrite Z2Nat.id by lia.
Qed.

Lemma seconds_fields_NoDup : NoDup seconds_fields.
Proof. apply (bool_decide_unpack _). vm_compute. reflexivity. Qed.

Lemma seconds_fields_length : Forall (fun f => String.length f = 2%nat) seconds_fields.
Proof. apply (bool_decide_unpack _). vm_compute. reflexivity. Qed.

Lemma two_digits_length s : 0 <= s < 60 -> String.length (Utils.two_digits s) = 2%nat.
Proof.
  intros Hs. pose proof seconds_fields_length as H. rewrite Forall_lookup in H.
  exact (H _ _ (seconds_fields_lookup s Hs)).
Qed.

Lemma two_digits_inj s1 s2 :
  0 <= s1 < 60 -> 0 <= s2 < 60 -> Utils.two_digits s1 = Utils.two_digits s2 -> s1 = s2.
Proof.
  intros H1 H2 E. pose proof (seconds_fields_lookup s1 H1) as L1.
  pose proof (seconds_fields_lookup s2 H2) as L2. rewrite <- E in L2.
  pose proof (proj1 (NoDup_alt seconds_fields) seconds_fields_NoDup _ _ _ L1 L2). lia.
Qed.

(** X20.  For durations below 2^53 ms in absolute value, where the float
    division by 1000 is exact up to the fraction that [int] drops,
    [format_duration] returns a label, and gives two durations the same label
    exactly when they have the same number of whole seconds, the
    milliseconds being cut off toward zero; the label is the minutes, a
    colon and a seconds field of two characters. *)
Theorem X20_format_duration_whole_seconds (d1 d2 : Z) :
  Z.abs d1 < 2 ^ 53 -> Z.abs d2 < 2 ^ 53 ->
  exists label1 label2,
    Utils.format_duration d1 = inr label1
    /\ Utils.format_duration d2 = inr label2
    /\ (label1 = label2 <-> d1 `quot` 1000 = d2 `quot` 1000)
    /\ exists minutes seconds,
         label1 = pretty minutes +:+ ":" +:+ seconds
         /\ String.length seconds = 2%nat
         /\ (0 <= d1 -> 0 <= minutes /\ minutes = d1 `div` 60000).
Proof.
  intros H1 H2. unfold Utils.format_duration.
  rewrite !int_truediv_exact by assumption. cbn [exc_bind]. cbv zeta.
  set (t1 := d1 `quot` 1000). set (t2 := d2 `quot` 1000).
  pose proof (Z.mod_pos_bound t1 60 ltac:(lia)) as Hs1.
  pose proof (Z.mod_pos_bound t2 60 ltac:(lia)) as Hs2.
  eexists. eexists. split; [reflexivity | ]. split; [reflexivity | ]. split.
  - split; [ | now intros ->].
    intros E. apply append_inj in E.
    + destruct E as [Hm Hs]. apply (inj pretty) in Hm.
      change (String ":" (Utils.two_digits (t1 `mod` 60))
              = String ":" (Utils.two_digits (t2 `mod` 60))) in Hs.
      injection Hs as Hs. apply two_digits_inj in Hs; [ | exact Hs1 | exact Hs2].
      rewrite (Z.div_mod t1 60), (Z.div_mod t2 60) by lia. now rewrite Hm, Hs.
    + rewrite !length_append, !two_digits_length by assumption. reflexivity.
  - exists (t1 `div` 60), (Utils.two_digits (t1 `mod` 60)).
    split; [reflexivity | ]. split; [now apply two_digits_length | ].
    intros Hd. unfold t1. rewrite Z.quot_div_nonneg by lia.
    split; [apply Z.div_pos; [apply Z.div_pos | ]; lia | ].
    rewrite Z.div_div by lia. reflexivity.
Qed.

Lemma X20_format_duration_witness :
  Utils.format_duration 215000 = Utils.format_duration 215999
  /\ Utils.format_duration 215000 <> Utils.format_duration 216000.
Proof.
  destruct (X20_format_duration_whole_seconds 215000 215999)
    as (a1 & a2 & Ha1 & Ha2 & Ha & _); [vm_compute; reflexivity | vm_compute; reflexivity | ].
  destruct (X20_format_duration_whole_seconds 215000 216000)
    as (b1 & b2 & Hb1 & Hb2 & Hb & _); [vm_compute; reflexivity | vm_compute; reflexivity | ].
  split.
  - rewrite Ha1, Ha2. f_equal. apply Ha. reflexivity.
  - rewrite Hb1, Hb2. intros [= E]. apply Hb in E. vm_compute in E. discriminate.
Defined.

End DurationFacts.

(** ** Degenerate pools *)

Section DegeneratePools.
Import Sklearn.
Local Open Scope R_scope.

Lemma dot_comm a b : dot a b = dot b a.
Proof.
  revert b. induction a as [ | x a IH]; intros [ | y b]; try reflexivity.
  rewrite !dot_cons, IH. lra.
Qed.

Lemma cosine_zero_r a b : Forall (eq 0) b -> dot (normalize a) (normalize b) = 0.
Proof. intros Hb. rewrite dot_comm. now apply cosine_zero_l. Qed.

Lemma dot_opp_r a : dot a (map Ropp a) = - dot a a.
Proof.
  induction a as [ | x a IH]; [unfold dot; cbn; lra | ].
  cbn [map]. rewrite !dot_cons, IH. lra.
Qed.

Lemma dot_opp_opp a : dot (map Ropp a) (map Ropp a) = dot a a.
Proof.
  induction a as [ | x a IH]; [reflexivity | ].
  cbn [map]. rewrite !dot_cons, IH. lra.
Qed.

(** A non-zero row and its opposite have similarity minus one. *)
Lemma cosine_opp a : dot a a <> 0 -> dot (normalize a) (normalize (map Ropp a)) = -1.
Proof.
  intros Hne. rewrite dot_normalize, dot_opp_r. unfold row_norm. rewrite dot_opp_opp.
  pose proof (dot_self_nonneg a) as Hpos.
  assert (sqrt (dot a a) <> 0) as Hn.
  { intros H0. apply sqrt_eq_0 in H0; [congruence | exact Hpos]. }
  rewrite (handle_zeros_id _ Hn).
  pose proof (sqrt_sqrt _ Hpos) as Hsq.
  generalize dependent (sqrt (dot a a)). intros n Hn Hsq. rewrite <- Hsq. now field.
Qed.

(** Fitted on rows that are all equal to [v], the scaler maps [v] to
    the zero row. *)
Lemma uniform_rows_transform (v : list R) (X : matrix) :
  X <> [] -> Forall (eq v) X -> Forall (eq 0) (transform_row (fit X) v).
Proof.
  intros Hne HX. apply Forall_lookup. intros j y Hy.
  unfold transform_row in Hy.
  apply lookup_zip_with_Some in Hy. destruct Hy as (x & [m s] & -> & Hx & Hms).
  apply lookup_zip_with_Some in Hms. destruct Hms as (m' & s' & [= <- <-] & Hm' & _).
  assert (Forall (fun r => r !! j = Some x) X) as Hcol.
  { eapply Forall_impl; [exact HX | ]. now intros r <-. }
  destruct (constant_column_fit j x X Hne Hcol) as (Hm & _ & _).
  rewrite Hm in Hm'. injection Hm' as <-.
  cbn [fst snd]. unfold Rdiv. lra.
Qed.

(** X21.  In app.py a pool whose candidates all have the same feature
    values, a pool of one candidate in particular, gets the score 0 in every
    row, whatever the seed: the scaler is fitted on the candidates alone and
    maps each of them to the zero row. *)
Theorem X21_app_uniform_pool_scores_zero (seed : details) (df : frame) (r0 : row) :
  Forall (fun r => features (track r) = features (track r0)) df ->
  Forall (eq 0) (App.similarities seed df)
  /\ length (App.similarities seed df) = length df.
Proof.
  intros Hsame. split; [ | apply app_similarities_length].
  rewrite app_similarities_run. unfold App.scaler, fit_transform. cbn [fst].
  set (v := map (fun c => default 0.5 (features (track r0) !! c)) feature_cols).
  assert (Forall (eq v) (App.df_features df)) as Hrows.
  { unfold App.df_features. apply Forall_fmap.
    eapply Forall_impl; [exact Hsame | ]. intros r Hr.
    cbv beta delta [compose]. unfold v. now rewrite Hr. }
  generalize dependent (App.df_features df). intros X Hrows.
  destruct (decide (X = [])) as [-> | Hne]; [constructor | ].
  apply Forall_fmap, Forall_forall. intros c Hc. cbv beta delta [compose].
  pose proof (proj1 (Forall_forall _ _) Hrows c Hc) as <-.
  symmetry. now apply cosine_zero_r, uniform_rows_transform.
Qed.

Lemma X21_app_single_candidate_witness :
  Forall (eq 0) (App.similarities Samples.seed_A (DataFrame [Samples.cand_B])).
Proof.
  refine (proj1 (X21_app_uniform_pool_scores_zero Samples.seed_A
                   (DataFrame [Samples.cand_B])
                   {| track := Samples.cand_B; year := None; similarity := None |} _)).
  repeat constructor.
Defined.

(** With the seed row [a] and one candidate row [b], the jointly fitted
    scaler maps the candidate to the opposite of the seed's row. *)
Lemma two_rows_transform (a b : list R) :
  length a = length b ->
  transform_row (fit [a; b]) b = map Ropp (transform_row (fit [a; b]) a).
Proof.
  intros Hlen. apply list_eq. intros j.
  rewrite list_lookup_fmap.
  destruct (a !! j) as [x | ] eqn:Ha.
  - assert (j < length a)%nat as Hj by now apply lookup_lt_Some in Ha.
    destruct (lookup_lt_is_Some_2 b j ltac:(lia)) as [y Hb].
    assert (j < n_features [a; b])%nat as Hn by exact Hj.
    pose proof (fit_mean_lookup [a; b] j Hn) as Hm.
    pose proof (fit_scale_lookup [a; b] j Hn) as Hs.
    rewrite (transform_row_lookup _ _ _ _ _ _ Ha Hm Hs).
    rewrite (transform_row_lookup _ _ _ _ _ _ Hb Hm Hs).
    cbn [option_map fmap option_fmap]. f_equal.
    unfold column. cbn [map].
    rewrite (nth_lookup_Some _ _ 0 _ Ha), (nth_lookup_Some _ _ 0 _ Hb).
    generalize (handle_zeros_in_scale (sqrt (col_var [x; y]))). intros s.
    unfold col_mean. cbn [Rsum fold_right length INR].
    unfold Rdiv.
    replace (y - (x + (y + 0)) * / (1 + 1)) with (- (x - (x + (y + 0)) * / (1 + 1)))
      by lra.
    ring.
  - assert (b !! j = None) as Hb.
    { apply lookup_ge_None. apply lookup_ge_None in Ha. lia. }
    unfold transform_row. rewrite !lookup_zip_with, Ha, Hb. reflexivity.
Qed.

Lemma two_rows_seed_zero (a b : list R) :
  a = b -> Forall (eq 0) (transform_row (fit [a; b]) a).
Proof.
  intros <-. apply uniform_rows_transform; [discriminate | ]. now repeat constructor.
Qed.

Lemma two_rows_seed_nonzero (a b : list R) :
  length a = length b -> a <> b ->
  dot (transform_row (fit [a; b]) a) (transform_row (fit [a; b]) a) <> 0.
Proof.
  intros Hlen Hne.
  assert (exists j x y, a !! j = Some x /\ b !! j = Some y /\ x <> y) as (j & x & y & Ha & Hb & Hxy).
  { clear - Hlen Hne. revert b Hlen Hne.
    induction a as [ | x a IH]; intros [ | y b] Hlen Hne; try discriminate;
      [congruence | ].
    destruct (Req_dec_T x y) as [-> | Hxy].
    - destruct (IH b) as (j & x' & y' & H1 & H2 & H3); [now injection Hlen | congruence | ].
      exists (S j), x', y'. now repeat split.
    - exists 0%nat, x, y. now repeat split. }
  assert (j < n_features [a; b])%nat as Hn by (now apply lookup_lt_Some in Ha).
  apply (standardized_seed_nonzero [a; b] a j x (col_mean (column j [a; b])));
    [exact Ha | now apply fit_mean_lookup | ].
  unfold column. cbn [map].
  rewrite (nth_lookup_Some _ _ 0 _ Ha), (nth_lookup_Some _ _ 0 _ Hb).
  unfold col_mean. cbn [Rsum fold_right length INR]. unfold Rdiv. lra.
Qed.

(** X22.  In utils.py, where the scaler is fitted on the seed and the
    candidates together, a pool of one candidate never gets a positive score:
    the candidate scores 0 when its feature values equal the seed's, and -1
    in every other case. *)
Theorem X22_utils_single_candidate_score (self : Utils.RecommendationEngine)
    (seed : gmap string R) (r : row) (sc : StandardScaler) (sims : list R) :
  Utils.similarities self seed [r] = inr (sc, sims) ->
  sims = [if decide (Utils.seed_vector self seed = Utils.feature_values self [r])
          then 0 else -1].
Proof.
  intros H. apply utils_similarities_inr in H. destruct H as (-> & -> & _ & _).
  unfold Utils.seed_vector, Utils.feature_values. cbn [map app hd].
  set (a := map (fun c => default 0 (seed !! c)) (Utils.feature_columns self)).
  set (b := map (fun c => default 0 (features (track r) !! c)) (Utils.feature_columns self)).
  assert (length a = length b) as Hlen by (unfold a, b; now rewrite !length_map).
  f_equal. rewrite (two_rows_transform a b Hlen).
  destruct (decide ([a] = [b])) as [E | E].
  - apply cosine_zero_l, two_rows_seed_zero. now injection E.
  - apply cosine_opp, two_rows_seed_nonzero; [exact Hlen | congruence].
Qed.

Lemma X22_utils_single_candidate_witness :
  exists sc,
    Utils.similarities Samples.engine (features Samples.seed_A)
      (DataFrame [Samples.cand_B]) = inr (sc, [-1]).
Proof.
  destruct (utils_similarities_total Samples.engine (features Samples.seed_A)
              (DataFrame [Samples.cand_B])) as [sims H].
  - discriminate.
  - discriminate.
  - apply Forall_forall. intros c Hc. apply Exists_cons_hd.
    unfold Samples.engine, Utils.feature_columns, feature_cols in Hc.
    repeat (apply elem_of_cons in Hc; destruct Hc as [-> | Hc]; [now eexists | ]).
    now apply not_elem_of_nil in Hc.
  - eexists. rewrite H. do 2 f_equal.
    rewrite (X22_utils_single_candidate_score _ _ _ _ _ H).
    rewrite decide_False; [reflexivity | ].
    intros E. apply (f_equal (fun X => nth 0 (hd [] X) 0)) in E.
    assert (nth 0 (hd [] (Utils.seed_vector Samples.engine (features Samples.seed_A))) 0
            = 0.5) as E1 by reflexivity.
    cbv beta in E. rewrite E1 in E. change (0.5 = 0.25) in E. lra.
Defined.

End DegeneratePools.

(** ** What the filters of app.py keep *)

Lemma filter_none {A} (P : A -> Prop) `{forall x, Decision (P x)} (l : list A) :
  (forall x, ~ P x) -> filter P l = [].
Proof.
  intros Hno. induction l as [ | a t IH]; [reflexivity | ].
  rewrite filter_cons, decide_False by apply Hno. exact IH.
Qed.

(** X23.  The rows left by the filters of app.py are exactly the pool rows
    whose popularity lies in the popularity range and whose release date
    parses to a year in the year range, for the ranges that are given; they
    keep the pool order, and a year range adds the parsed year to each row.
    The two filters can be applied in either order, and a range whose lower
    bound exceeds its upper bound leaves no row. *)
Theorem X23_app_filters_keep_exactly (to_year : string -> option Z)
    (p y : option (Z * Z)) (df : frame) :
  let out := App.apply_filters to_year
               (Some {| popularity_range := p; year_range := y |}) df in
  let stamp r := match y with Some _ => with_year to_year r | None => r end in
  (forall r', r' ∈ out <->
     exists r, r ∈ df /\ r' = stamp r
       /\ (forall rng, p = Some rng -> popularity_within rng r)
       /\ (forall rng, y = Some rng -> year_accepted to_year rng (track r)))
  /\ map track out `sublist_of` map track df
  /\ (forall pr yr,
        App.filter_year to_year yr (App.filter_popularity pr df)
        = App.filter_popularity pr (App.filter_year to_year yr df))
  /\ (forall lo hi, (hi < lo)%Z ->
        App.filter_popularity (lo, hi) df = []
        /\ App.filter_year to_year (lo, hi) df = []).
Proof.
  intros out stamp.
  assert (forall pr yr,
            App.filter_year to_year yr (App.filter_popularity pr df)
            = App.filter_popularity pr (App.filter_year to_year yr df)) as Hcomm.
  { intros pr yr. rewrite !app_filter_year_spec. unfold App.filter_popularity.
    induction df as [ | r t IH]; [reflexivity | ].
    rewrite !filter_cons.
    destruct (decide (popularity_within pr r)) as [Hp | Hp];
      destruct (decide (year_accepted to_year yr (track r))) as [Hy | Hy].
    - rewrite filter_cons, decide_True by exact Hy. cbn [map].
      rewrite filter_cons, decide_True by exact Hp. now rewrite <- IH.
    - rewrite filter_cons, decide_False by exact Hy. exact IH.
    - cbn [map]. rewrite filter_cons, decide_False by exact Hp. exact IH.
    - exact IH. }
  split; [ | split; [ | split; [exact Hcomm | ]]].
  - intros r'. unfold out, stamp, App.apply_filters, App.filter_popularity.
    cbn [popularity_range year_range].
    destruct p as [pr | ]; destruct y as [yr | ]; rewrite ?app_filter_year_spec.
    + rewrite list_elem_of_fmap. split.
      * intros (r & -> & Hr). apply list_elem_of_filter in Hr. destruct Hr as [Hy Hr].
        apply list_elem_of_filter in Hr. destruct Hr as [Hp Hr].
        exists r. split; [exact Hr | ]. split; [reflexivity | ].
        split; [intros ? [= <-]; exact Hp | intros ? [= <-]; exact Hy].
      * intros (r & Hr & -> & Hp & Hy). exists r. split; [reflexivity | ].
        apply list_elem_of_filter. split; [now apply Hy | ].
        apply list_elem_of_filter. split; [now apply Hp | exact Hr].
    + rewrite list_elem_of_filter. split.
      * intros [Hp Hr]. exists r'. split; [exact Hr | ]. split; [reflexivity | ].
        split; [intros ? [= <-]; exact Hp | discriminate].
      * intros (r & Hr & -> & Hp & _). split; [now apply Hp | exact Hr].
    + rewrite list_elem_of_fmap. split.
      * intros (r & -> & Hr). apply list_elem_of_filter in Hr. destruct Hr as [Hy Hr].
        exists r. split; [exact Hr | ]. split; [reflexivity | ].
        split; [discriminate | intros ? [= <-]; exact Hy].
      * intros (r & Hr & -> & _ & Hy). exists r. split; [reflexivity | ].
        apply list_elem_of_filter. split; [now apply Hy | exact Hr].
    + split.
      * intros Hr. exists r'. split; [exact Hr | ]. split; [reflexivity | ].
        split; discriminate.
      * now intros (r & Hr & -> & _).
  - unfold out.
    assert (forall rng l, map track (App.filter_year to_year rng l)
                          `sublist_of` map track l) as Hyear.
    { intros rng l. rewrite app_filter_year_spec, map_map.
      cbn [with_year set_year track].
      apply (fmap_sublist track), sublist_filter. }
    destruct p as [pr | ]; destruct y as [yr | ]; unfold App.apply_filters;
      cbn [popularity_range year_range]; try reflexivity.
    + etransitivity; [apply Hyear | ]. apply (fmap_sublist track), sublist_filter.
    + apply (fmap_sublist track), sublist_filter.
    + apply Hyear.
  - intros lo hi Hlt. split.
    + unfold App.filter_popularity. apply filter_none.
      intros r [H1 H2]. cbn [fst snd] in *. lia.
    + rewrite app_filter_year_spec.
      rewrite (filter_none (fun r => year_accepted to_year (lo, hi) (track r)));
        [reflexivity | ].
      intros r. unfold year_accepted.
      destruct (to_year (release_date (track r))); [cbn [fst snd]; lia | tauto].
Qed.

(** ** The rows of the candidate pool of app.py *)

Lemma normalized_complete sp t d :
  normalized sp t = Some d ->
  is_Some (artist_ids d)
  /\ forall k dflt, (k, dflt) ∈ App.feature_defaults -> is_Some (features d !! k).
Proof.
  unfold normalized. destruct (has_required_metadata t) eqn:Hreq.
  - destruct (metadata_total t Hreq)
      as (id & d0 & artists & ids & Hid & Hd & _ & _ & Ha & Hids).
    rewrite (app_get_track_details_run sp t [] id d0 artists ids Hid Hd Ha Hids).
    cbn [fst accepted falsy]. intros [= <-]. split; [now eexists | ].
    intros k dflt Hk. cbn [features set_features].
    rewrite (with_defaults_lookup _ k dflt Hk). now eexists.
  - destruct (app_get_track_details_error sp t Hreq) as [e ->]. discriminate.
Qed.

Lemma related_inner_rows sp (P : details -> Prop) tracks limit acc log out log' :
  (forall t d, normalized sp t = Some d -> P d) ->
  Forall P acc ->
  App.related_inner sp tracks limit acc log = (out, log') -> Forall P out.
Proof.
  intros HP. revert acc log. induction tracks as [ | t rest IH]; intros acc log Hacc;
    cbn [App.related_inner].
  - now intros [= <- <-].
  - unfold bind. rewrite app_get_track_details_log.
    fold (normalized sp t). destruct (normalized sp t) as [d | ] eqn:E.
    + assert (Forall P (acc ++ [d])) as Hacc'.
      { apply Forall_app. split; [exact Hacc | ]. repeat constructor. now apply (HP t). }
      destruct (limit <=? length (acc ++ [d]))%nat; [now intros [= <- <-] | ].
      now apply IH.
    + now apply IH.
Qed.

Lemma related_outer_rows sp (P : details -> Prop) artists limit acc log out log' :
  (forall t d, normalized sp t = Some d -> P d) ->
  Forall P acc ->
  App.related_outer sp artists limit acc log = (inr out, log') -> Forall P out.
Proof.
  intros HP. revert acc log. induction artists as [ | a rest IH]; intros acc log Hacc;
    cbn [App.related_outer].
  - now intros [= <- <-].
  - run_catalog. destruct (artist_id a) as [id | ]; cbn [getitem]; [ | discriminate].
    destruct (artist_top_tracks sp id) as [e | top_tracks]; [discriminate | ].
    destruct (App.related_inner sp (firstn 4 top_tracks) limit acc
                (log ++ [ArtistTopTracks id])) as [td1 log1] eqn:Hinner.
    apply (related_inner_rows sp P) in Hinner; [ | exact HP | exact Hacc].
    destruct (limit <=? length td1)%nat; [now intros [= <- <-] | ].
    now apply IH.
Qed.

Lemma Forall_append_nonempty (P : row -> Prop) (all_tracks : list frame) (df : frame) :
  Forall P (concat all_tracks) -> Forall P df ->
  Forall P (concat (App.append_nonempty all_tracks df)).
Proof.
  intros Hall Hdf. unfold App.append_nonempty. destruct df as [ | r t]; [exact Hall | ].
  rewrite concat_app. apply Forall_app. split; [exact Hall | ].
  cbn [concat]. now rewrite app_nil_r.
Qed.

(** X24.  Every row of the frames the three strategies of app.py gather
    is the record [get_track_details] builds for some catalog track, without
    a year or a similarity cell: it has the list of artist ids and a value
    for each of the eleven audio keys, so that the ranker reads no default
    for a candidate. *)
Theorem X24_gathered_rows_are_complete (sp : Spotify) (seed : details)
    (log : list api_call) :
  Forall (fun r =>
            (exists t, normalized sp t = Some (track r))
            /\ year r = None /\ similarity r = None
            /\ is_Some (artist_ids (track r))
            /\ forall k dflt, (k, dflt) ∈ App.feature_defaults ->
                 is_Some (features (track r) !! k))
         (concat (App.gather sp seed log).1)
  /\ App.df_features (concat (App.gather sp seed log).1)
     = map (fun r => omap (fun c => features (track r) !! c) feature_cols)
           (concat (App.gather sp seed log).1).
Proof.
  set (P := fun d : details => exists t, normalized sp t = Some d).
  set (Q := fun r : row =>
              P (track r) /\ year r = None /\ similarity r = None
              /\ is_Some (artist_ids (track r))
              /\ forall k dflt, (k, dflt) ∈ App.feature_defaults ->
                   is_Some (features (track r) !! k)).
  assert (forall ds, Forall P ds -> Forall Q (DataFrame ds)) as Hframe.
  { intros ds Hds. unfold DataFrame. apply Forall_fmap.
    eapply Forall_impl; [exact Hds | ]. intros d [t Ht]. unfold Q, P. cbn.
    destruct (normalized_complete sp t d Ht) as [Hids Hfeat].
    split; [now exists t | ]. now repeat split. }
  assert (forall items, Forall P (omap (normalized sp) items)) as Homap.
  { intros items. apply Forall_forall. intros d Hd.
    apply list_elem_of_omap in Hd. destruct Hd as (t & _ & Ht). now exists t. }
  assert (forall artist_id limit l, Forall Q (App.get_artist_top_tracks sp artist_id limit l).1.1)
    as Htop.
  { intros artist_id limit l. rewrite get_artist_top_tracks_run.
    destruct (artist_top_tracks sp artist_id); cbn [fst]; [constructor | ].
    apply Hframe, Homap. }
  assert (forall artist_id limit l,
            Forall Q (App.get_related_artists_tracks sp artist_id limit l).1.1) as Hrel.
  { intros artist_id limit l. unfold App.get_related_artists_tracks. run_catalog.
    destruct (artist_related_artists sp artist_id) as [e | related]; [constructor | ].
    destruct (App.related_outer sp (firstn 5 related) limit []
                (l ++ [ArtistRelatedArtists artist_id])) as [[e | td] log1] eqn:Houter;
      [constructor | ].
    cbn [fst]. apply Hframe.
    eapply (related_outer_rows sp P); [ | constructor | exact Houter].
    intros t d Ht. now exists t. }
  assert (Forall Q (concat (App.gather sp seed log).1)) as Hall.
  { unfold App.gather.
    set (query := name seed +:+ " " +:+ artist seed).
    destruct (artist_ids seed) as [[ | artist_id ids] | ].
    2: {
      run_catalog.
      pose proof (Htop artist_id 15%nat log) as H1.
      destruct (App.get_artist_top_tracks sp artist_id 15 log) as [[df1 e1] log1].
      pose proof (Hrel artist_id 25%nat log1) as H2.
      destruct (App.get_related_artists_tracks sp artist_id 25 log1) as [[df2 e2] log2].
      cbn [fst snd] in *.
      destruct (search sp query 20) as [e | items]; cbn [fst snd].
      - repeat apply Forall_append_nonempty; try assumption; constructor.
      - rewrite collect_details_run. cbn [fst snd app].
        repeat apply Forall_append_nonempty; try assumption; try constructor.
        apply Hframe, Homap. }
    all: run_catalog; destruct (search sp query 20) as [e | items]; cbn [fst snd];
      [ | rewrite collect_details_run; cbn [fst snd app] ];
      repeat apply Forall_append_nonempty; try constructor; apply Hframe, Homap. }
  split; [exact Hall | ].
  unfold App.df_features. apply map_ext_Forall.
  eapply Forall_impl; [exact Hall | ]. intros r (_ & _ & _ & _ & Hfeat). cbn beta.
  assert (Forall (fun c => exists dflt, (c, dflt) ∈ App.feature_defaults) feature_cols)
    as Hcols.
  { unfold feature_cols, App.feature_defaults.
    repeat (constructor; [eexists; apply list_elem_of_In; cbn; tauto | ]). constructor. }
  induction Hcols as [ | c cs [dflt Hc] _ IH]; [reflexivity | ].
  cbn [map omap list_omap]. destruct (Hfeat c dflt Hc) as [x ->]. cbn.
  f_equal. exact IH.
Qed.
